(** * MCQ seeding scripts: a shallow embedding and its verification

    The repository's Node scripts replace the question set of one
    (module, topic) partition of a relational store: they delete the
    partition's option and question rows and insert fresh rows from an
    array of candidate records.  This development embeds

    - [scripts/import.ts]           ([ImportTs]),
    - [scripts/importMCQ.ts]        ([ImportMCQ]),
    - [scripts/cleanupDatabase.ts]  ([CleanupDatabase]),
    - [scripts/import-module.js]    ([ImportModuleJs]),
    - the direct SQL FOCS2 import   ([DirectSqlFocs2]),
    - [server/scripts/importQuestions.ts] ([ServerImportQuestions]),

    from the point where the data file has been loaded into an array,
    and further down the entry points and the sibling scripts
    ([ImportTsMain], [ImportModuleData], [ImportSpecificModule],
    [ImportModuleJsMain]).

    The database is outside the scripts.  It is modelled as a store of
    three tables kept in insertion order and two serial sequences; a
    connection adds the snapshot of an open transaction (ROLLBACK gives
    back its three tables; the ids drawn from the sequences since are
    not given back) and what has been printed on the error console.
    The store itself enforces nothing: that the database rejects a
    statement (a lost connection, a violated constraint) is modelled by a
    plan that says, for each awaited statement in turn, whether it is
    rejected.  A rejected statement changes nothing in the model (the
    database may have drawn an id for it all the same: what is proved of
    a run with a rejected statement does not depend on the value of the
    ids drawn after it).  Progress lines written with [console.log] are
    not modelled, and of a message only its literal text is kept unless
    it carries a position. *)

From Stdlib Require Import ZArith List String Ascii Bool Arith Lia DecimalString.
Import ListNotations.

Set Implicit Arguments.

(* ===================================================================== *)
(** ** Rows and tables *)
(* ===================================================================== *)

(** Modelled from the spec: the tables of [shared/schema], which is not
    among the sources; the columns are those the scripts read and write.
    A row of [questions]: [q_topic], [q_text], [q_slide_reference] and
    [q_explanation] are nullable columns ([None] is SQL NULL). *)
Record Question := mkQuestion {
  q_id : Z;
  q_module_id : string;
  q_topic : option string;
  q_text : option string;
  q_difficulty : Z;
  q_slide_reference : option string;
  q_explanation : option string
}.

(** Modelled from the spec: a row of [options] of [shared/schema]; it
    belongs to the question [o_question_id]. *)
Record OptionRow := mkOption {
  o_id : Z;
  o_question_id : Z;
  o_text : string;
  o_is_correct : bool
}.

(** Modelled from the spec: a row of [attempts] of [shared/schema]; the
    scripts only use its references to a question and to the selected
    option. *)
Record Attempt := mkAttempt {
  a_id : Z;
  a_question_id : option Z;
  a_selected_option_id : option Z
}.

(** The store: tables in insertion order and the two serial sequences. *)
Record Store := mkStore {
  questions : list Question;
  options : list OptionRow;
  attempts : list Attempt;
  question_seq : Z;
  option_seq : Z
}.

(** The values of an [insert into questions]; the id comes from the sequence. *)
Record QuestionValues := mkQuestionValues {
  v_module_id : string;
  v_topic : option string;
  v_text : option string;
  v_difficulty : Z;
  v_slide_reference : option string;
  v_explanation : option string
}.

(* ===================================================================== *)
(** ** Candidate records (the [any] items of the data arrays) *)
(* ===================================================================== *)

(** What [item.correctIndex] can be. *)
Inductive JsIndex :=
| IdxUndefined
| IdxNull
| IdxNum (n : Z).

(** A candidate record.  [question = None] is a missing (undefined) text;
    [mcq_options] is the field [options] of the record (the plain name is
    the table's): an array of texts, or [None] when the field is missing
    (undefined or null).  The scripts that test [Array.isArray] treat
    every other value that is not an array like a missing one; the server
    script has no such test, and records with such a value (a string, a
    number) are outside its model. *)
Record MCQQuestion := mkMCQ {
  question : option string;
  mcq_options : option (list string);
  correctIndex : JsIndex;
  slideLink : option string
}.

(** JS truthiness of a string-or-undefined value. *)
Definition truthy (v : option string) : bool :=
  match v with
  | Some EmptyString => false
  | Some _ => true
  | None => false
  end.

(** [Array.isArray(v)]. *)
Definition isArray (v : option (list string)) : bool :=
  match v with Some _ => true | None => false end.

(** [v === undefined]. *)
Definition is_undefined (v : JsIndex) : bool :=
  match v with IdxUndefined => true | _ => false end.

(** [j === item.correctIndex] for a loop counter [j]. *)
Definition strict_eq_index (j : nat) (v : JsIndex) : bool :=
  match v with
  | IdxNum n => Z.eqb (Z.of_nat j) n
  | _ => false
  end.

(** [item.slideLink || null]. *)
Definition or_null (v : option string) : option string :=
  if truthy v then v else None.

(** The elements of [item.options] once it is known to be an array. *)
Definition elements (v : option (list string)) : list string :=
  match v with Some l => l | None => [] end.

(** [!item.question || !Array.isArray(item.options) ||
     item.correctIndex === undefined]. *)
Definition invalid (item : MCQQuestion) : bool :=
  negb (truthy (question item)) || negb (isArray (mcq_options item))
  || is_undefined (correctIndex item).

(** [data.slice(start, end)] for [0 <= start]. *)
Definition slice (A : Type) (start stop : nat) (l : list A) : list A :=
  firstn (stop - start) (skipn start l).

(* ===================================================================== *)
(** ** JS string helpers used by the cleanup script *)
(* ===================================================================== *)

Definition lower_ascii (c : ascii) : ascii :=
  let n := nat_of_ascii c in
  if (65 <=? n) && (n <=? 90) then ascii_of_nat (n + 32) else c.

(** [s.toLowerCase()] for a string of ASCII characters.  (JS also maps
    letters outside ASCII; the Kelvin sign is the only one it maps to an
    ASCII letter, [k].  What is proved of a result of this function other
    than whether it contains [sample] is proved for ASCII strings.) *)
Fixpoint toLowerCase (s : string) : string :=
  match s with
  | EmptyString => EmptyString
  | String c r => String (lower_ascii c) (toLowerCase r)
  end.

(** [s.includes(needle)]. *)
Fixpoint str_includes (s needle : string) : bool :=
  if String.prefix needle s then true
  else match s with
       | EmptyString => false
       | String _ r => str_includes r needle
       end.

(** [array.includes(x)] on an array of strings. *)
Definition arr_includes (l : list string) (x : string) : bool :=
  existsb (String.eqb x) l.

(** [ids.includes(x)] / SQL [x IN (ids)]. *)
Definition in_ids (ids : list Z) (x : Z) : bool :=
  existsb (Z.eqb x) ids.

(** [inArray(column, ids)] on a nullable column. *)
Definition in_ids_opt (ids : list Z) (x : option Z) : bool :=
  match x with Some v => in_ids ids v | None => false end.

(* ===================================================================== *)
(** ** Statements of the store *)
(* ===================================================================== *)

(** [and(eq(questions.module_id, m), eq(questions.topic, t))]. *)
Definition in_partition (m t : string) (q : Question) : bool :=
  String.eqb (q_module_id q) m &&
  match q_topic q with
  | Some t' => String.eqb t' t
  | None => false
  end.

Definition set_questions (qs : list Question) (s : Store) : Store :=
  mkStore qs (options s) (attempts s) (question_seq s) (option_seq s).

Definition set_options (os : list OptionRow) (s : Store) : Store :=
  mkStore (questions s) os (attempts s) (question_seq s) (option_seq s).

Definition set_attempts (ats : list Attempt) (s : Store) : Store :=
  mkStore (questions s) (options s) ats (question_seq s) (option_seq s).

(** [select * from questions where p]. *)
Definition select_questions (p : Question -> bool) (s : Store)
  : list Question * Store :=
  (filter p (questions s), s).

(** [select * from options where p]. *)
Definition select_options (p : OptionRow -> bool) (s : Store)
  : list OptionRow * Store :=
  (filter p (options s), s).

(** [delete from questions where p]. *)
Definition delete_questions (p : Question -> bool) (s : Store)
  : unit * Store :=
  (tt, set_questions (filter (fun q => negb (p q)) (questions s)) s).

(** [delete from options where p]. *)
Definition delete_options (p : OptionRow -> bool) (s : Store)
  : unit * Store :=
  (tt, set_options (filter (fun o => negb (p o)) (options s)) s).

(** [delete from attempts where p]. *)
Definition delete_attempts (p : Attempt -> bool) (s : Store)
  : unit * Store :=
  (tt, set_attempts (filter (fun a => negb (p a)) (attempts s)) s).

(** [insert into questions values v returning *]. *)
Definition insert_question (v : QuestionValues) (s : Store)
  : Question * Store :=
  let q := mkQuestion (question_seq s) (v_module_id v) (v_topic v) (v_text v)
                      (v_difficulty v) (v_slide_reference v) (v_explanation v) in
  (q, mkStore (questions s ++ [q]) (options s) (attempts s)
              (question_seq s + 1) (option_seq s)).

(** [insert into options (question_id, text, is_correct) values ...]. *)
Definition insert_option (qid : Z) (text : string) (correct : bool) (s : Store)
  : unit * Store :=
  let o := mkOption (option_seq s) qid text correct in
  (tt, mkStore (questions s) (options s ++ [o]) (attempts s)
               (question_seq s) (option_seq s + 1)).

(* ===================================================================== *)
(** ** Connections, rejected statements and the script monad *)
(* ===================================================================== *)

(** A connection: the working store, the snapshot taken by an open
    transaction, the plan of the coming awaited statements ([true]: the
    statement is rejected; an exhausted plan rejects nothing), and what
    [console.warn] / [console.error] have printed. *)
Record Conn := mkConn {
  store : Store;
  txn : option Store;
  faults : list bool;
  stderr : list string
}.

(** The tables of [x] with the sequences of [s]: sequences are not
    transactional, the ids drawn inside a transaction stay drawn. *)
Definition with_sequences (x s : Store) : Store :=
  mkStore (questions x) (options x) (attempts x)
          (question_seq s) (option_seq s).

(** What is durable: the rows an open transaction has written or deleted
    are not, the ids it has drawn are. *)
Definition committed (c : Conn) : Store :=
  match txn c with
  | Some x => with_sequences x (store c)
  | None => store c
  end.

Inductive result (A : Type) :=
| Ok (a : A)
| Thrown.
Arguments Thrown {A}.

Definition M (A : Type) := Conn -> result A * Conn.

Definition ret (A : Type) (a : A) : M A := fun c => (Ok a, c).

Definition bind (A B : Type) (m : M A) (k : A -> M B) : M B :=
  fun c =>
    match m c with
    | (Ok a, c') => k a c'
    | (Thrown, c') => (Thrown, c')
    end.

Declare Scope script_scope.
Delimit Scope script_scope with script.
Notation "x <- m ;; k" := (bind m (fun x => k))
  (at level 61, m at next level, right associativity) : script_scope.
Notation "m ;; k" := (bind m (fun _ => k))
  (at level 61, right associativity) : script_scope.
Open Scope script_scope.

(** [try { body } catch (err) { handler }]. *)
Definition try_catch (A : Type) (body handler : M A) : M A :=
  fun c =>
    match body c with
    | (Ok a, c') => (Ok a, c')
    | (Thrown, c') => handler c'
    end.

(** [throw error]. *)
Definition throw (A : Type) : M A := fun c => (Thrown, c).

(** One awaited statement: the plan decides whether it is rejected. *)
Definition await (A : Type) (run : Conn -> A * Conn) : M A :=
  fun c =>
    match faults c with
    | true :: rest =>
        (Thrown, mkConn (store c) (txn c) rest (stderr c))
    | false :: rest =>
        let (a, c') := run (mkConn (store c) (txn c) rest (stderr c)) in
        (Ok a, c')
    | [] =>
        let (a, c') := run c in (Ok a, c')
    end.

(** A data statement acts on the working store. *)
Definition query (A : Type) (stmt : Store -> A * Store) : M A :=
  await (fun c =>
           let (a, s') := stmt (store c) in
           (a, mkConn s' (txn c) (faults c) (stderr c))).

(** [client.query('BEGIN')]. *)
Definition BEGIN : M unit :=
  await (fun c =>
           (tt, mkConn (store c)
                       (match txn c with
                        | Some s => Some s
                        | None => Some (store c)
                        end)
                       (faults c) (stderr c))).

(** [client.query('COMMIT')]. *)
Definition COMMIT : M unit :=
  await (fun c => (tt, mkConn (store c) None (faults c) (stderr c))).

(** [client.query('ROLLBACK')]: the tables are those of the snapshot, the
    sequences stay where they are. *)
Definition ROLLBACK : M unit :=
  await (fun c => (tt, mkConn (committed c) None (faults c) (stderr c))).

(** [console.warn(msg)] and [console.error(msg, ...)]. *)
Definition console_warn (msg : string) : M unit :=
  fun c => (Ok tt, mkConn (store c) (txn c) (faults c) (stderr c ++ [msg])).

Definition console_error (msg : string) : M unit := console_warn msg.

(** [for (const x of l) { body x }]. *)
Fixpoint for_of (A : Type) (l : list A) (body : A -> M unit) : M unit :=
  match l with
  | [] => ret tt
  | x :: r => body x ;; for_of r body
  end.

(** [for (const x of l) { acc = body x acc }], threading a counter. *)
Fixpoint for_acc (A S : Type) (l : list A) (body : A -> S -> M S) (acc : S)
  : M S :=
  match l with
  | [] => ret acc
  | x :: r => acc' <- body x acc ;; for_acc r body acc'
  end.

(** [for (let j = from; j < from + |l|; j++) { body j l[j - from] }]. *)
Fixpoint for_index (A : Type) (j : nat) (l : list A) (body : nat -> A -> M unit)
  : M unit :=
  match l with
  | [] => ret tt
  | x :: r => body j x ;; for_index (S j) r body
  end.

(** [for (let i = i0; i < data.length; i += batchSize) {
       const batch = data.slice(i, Math.min(i + batchSize, data.length));
       for (const x of batch) { acc = body x acc } }].
    [fuel] bounds the number of iterations of the outer loop; with
    [batchSize >= 1] the loop ends within [length data] iterations
    ([for_batches_flat] below). *)
Fixpoint for_batches (A S : Type) (fuel : nat) (batchSize : nat) (data : list A)
         (body : A -> S -> M S) (i : nat) (acc : S) : M S :=
  match fuel with
  | O => ret acc
  | S fuel' =>
      if (i <? List.length data)%nat then
        let batch := slice i (Nat.min (i + batchSize) (List.length data)) data in
        acc' <- for_acc batch body acc ;;
        for_batches fuel' batchSize data body (i + batchSize) acc'
      else ret acc
  end.

(* ===================================================================== *)
(** ** scripts/import.ts *)
(* ===================================================================== *)

Module ImportTs.

(** [deleteExistingQuestions(moduleId, topic)]. *)
Definition deleteExistingQuestions (moduleId topic : string) : M nat :=
  questionsToDelete <- query (select_questions (in_partition moduleId topic)) ;;
  if (List.length questionsToDelete =? 0)%nat then ret 0%nat
  else
    for_of questionsToDelete
      (fun question =>
         query (delete_options
                  (fun o => Z.eqb (o_question_id o) (q_id question)))) ;;
    query (delete_questions (in_partition moduleId topic)) ;;
    ret (List.length questionsToDelete).

(** The body of [for (const item of batch)]: the [try] block with its
    [continue], the two inserts and [imported++], and the [catch]. *)
Definition import_item (moduleId topic : string) (item : MCQQuestion)
           (imported : nat) : M nat :=
  try_catch
    (if invalid item then
       console_warn "Skipping invalid question"%string ;;
       ret imported
     else
       question <- query (insert_question
                            (mkQuestionValues moduleId (Some topic)
                               (question item) 2
                               (or_null (slideLink item)) None)) ;;
       for_index 0 (elements (mcq_options item))
         (fun j text =>
            query (insert_option (q_id question) text
                     (strict_eq_index j (correctIndex item)))) ;;
       ret (S imported))
    (console_error "Error importing question:"%string ;;
     ret imported).

(** [importQuestions] with its local constant [batchSize] as a parameter. *)
Definition importQuestions_with (batchSize : nat) (moduleId topic : string)
           (questionsData : list MCQQuestion) : M nat :=
  for_batches (List.length questionsData) batchSize questionsData
              (import_item moduleId topic) 0 0.

(** [importQuestions(moduleId, topic, questionsData)]: [batchSize = 5]. *)
Definition importQuestions := importQuestions_with 5.

(** [processModule(moduleId, topic, filename)] from the point where
    [extractQuestionsFromFile] has returned the array [questions]. *)
Definition processModule (moduleId topic : string)
           (questions : list MCQQuestion) : M unit :=
  if (List.length questions =? 0)%nat then
    console_error "No questions found"%string ;;
    ret tt
  else
    deleteExistingQuestions moduleId topic ;;
    importQuestions moduleId topic questions ;;
    ret tt.

End ImportTs.

(* ===================================================================== *)
(** ** scripts/importMCQ.ts *)
(* ===================================================================== *)

Module ImportMCQ.

(** [clearQuestionsForTopic(moduleId, topic)]. *)
Definition clearQuestionsForTopic (moduleId topic : string) : M nat :=
  existingQuestions <- query (select_questions (in_partition moduleId topic)) ;;
  if (List.length existingQuestions =? 0)%nat then ret 0%nat
  else
    for_of existingQuestions
      (fun question =>
         query (delete_options
                  (fun o => Z.eqb (o_question_id o) (q_id question)))) ;;
    query (delete_questions (in_partition moduleId topic)) ;;
    ret (List.length existingQuestions).

(** The body of [for (const questionData of batch)]. *)
Definition import_item (moduleId topic : string) (questionData : MCQQuestion)
           (importedCount : nat) : M nat :=
  try_catch
    (if invalid questionData then
       console_warn "Invalid question data - skipping"%string ;;
       ret importedCount
     else
       insertedQuestion <- query (insert_question
                            (mkQuestionValues moduleId (Some topic)
                               (question questionData) 2
                               (or_null (slideLink questionData)) None)) ;;
       for_index 0 (elements (mcq_options questionData))
         (fun j text =>
            query (insert_option (q_id insertedQuestion) text
                     (strict_eq_index j (correctIndex questionData)))) ;;
       ret (S importedCount))
    (console_error "Error importing question"%string ;;
     ret importedCount).

(** [importQuestionsForTopic(moduleId, topic, questionsData)]. *)
Definition importQuestionsForTopic (moduleId topic : string)
           (questionsData : list MCQQuestion) : M nat :=
  for_batches (List.length questionsData) 5 questionsData
              (import_item moduleId topic) 0 0.

(** [processModuleTopic(config)] once the file has been read into
    [questionsData]. *)
Definition processModuleTopic (moduleId topic : string)
           (questionsData : list MCQQuestion) : M unit :=
  if (List.length questionsData =? 0)%nat then
    console_error "No valid questions found"%string ;;
    ret tt
  else
    clearQuestionsForTopic moduleId topic ;;
    importQuestionsForTopic moduleId topic questionsData ;;
    ret tt.

End ImportMCQ.

(* ===================================================================== *)
(** ** scripts/cleanupDatabase.ts *)
(* ===================================================================== *)

Module CleanupDatabase.

Definition validModules : list string :=
  ["focs"; "bcr"; "msk"; "anatomy"]%string.

Definition validTopics : list string :=
  ["FOCS1"; "FOCS2"; "FOCS3"; "FOCS4"; "FOCS5";
   "BCR1"; "BCR2"; "BCR3"; "BCR4";
   "MSK1"; "MSK2";
   "Anatomy"]%string.

(** [x || ''] on a nullable text column. *)
Definition or_empty (v : option string) : string :=
  match v with Some s => s | None => EmptyString end.

(** The predicate of [allQuestions.filter(q => ...)]. *)
Definition is_invalid (q : Question) : bool :=
  negb (arr_includes validModules (q_module_id q))
  || negb (arr_includes validTopics (or_empty (q_topic q)))
  || str_includes (toLowerCase (or_empty (q_text q))) "sample"%string.

(** [main()]. *)
Definition main : M unit :=
  allQuestions <- query (select_questions (fun _ => true)) ;;
  let invalidQuestions := filter is_invalid allQuestions in
  if (List.length invalidQuestions =? 0)%nat then ret tt
  else
    let invalidQuestionIds := map q_id invalidQuestions in
    invalidOptions <-
      query (select_options
               (fun o => in_ids invalidQuestionIds (o_question_id o))) ;;
    let invalidOptionIds := map o_id invalidOptions in
    (if (0 <? List.length invalidOptionIds)%nat then
       query (delete_attempts
                (fun a => in_ids_opt invalidOptionIds (a_selected_option_id a)))
     else ret tt) ;;
    query (delete_attempts
             (fun a => in_ids_opt invalidQuestionIds (a_question_id a))) ;;
    for_of invalidQuestionIds
      (fun questionId =>
         query (delete_options (fun o => Z.eqb (o_question_id o) questionId))) ;;
    for_of invalidQuestionIds
      (fun questionId =>
         query (delete_questions (fun q => Z.eqb (q_id q) questionId))) ;;
    query (select_questions (fun _ => true)) ;;
    ret tt.

End CleanupDatabase.

(* ===================================================================== *)
(** ** scripts/import-module.js *)
(* ===================================================================== *)

Definition upper_ascii (c : ascii) : ascii :=
  let n := nat_of_ascii c in
  if (97 <=? n) && (n <=? 122) then ascii_of_nat (n - 32) else c.

(** [s.toUpperCase()] for a string of ASCII characters.  (JS also maps
    letters outside ASCII, some to ASCII letters: the sharp s to [SS], the
    long s to [S].  What is proved of the topic a script stores is proved
    for ASCII strings.) *)
Fixpoint toUpperCase (s : string) : string :=
  match s with
  | EmptyString => EmptyString
  | String c r => String (upper_ascii c) (toUpperCase r)
  end.

(** [Math.ceil(len / batchSize)] for [batchSize >= 1].  (With
    [batchSize = 0] JS computes [Infinity] or [NaN]; the scripts never pass
    it and the theorems below require [1 <= batchSize].) *)
Definition ceil_div (len batchSize : nat) : nat :=
  ((len + batchSize - 1) / batchSize)%nat.

(** [`${n}`]. *)
Definition show_nat (n : nat) : string :=
  DecimalString.NilZero.string_of_uint (Nat.to_uint n).

(** [await pool.connect()]. *)
Definition connect : M unit := await (fun c => (tt, c)).

(** [DELETE FROM options WHERE question_id IN
      (SELECT id FROM questions WHERE module_id = $1 AND topic = $2)]. *)
Definition delete_partition_options (m t : string) (s : Store) : unit * Store :=
  delete_options
    (fun o => in_ids (map q_id (filter (in_partition m t) (questions s)))
                     (o_question_id o)) s.

Module ImportModuleJs.

(** The body of [for (let i = 0; i < batch.length; i++)]. *)
Definition import_item (moduleId formattedTopic : string) (start : nat)
           (i : nat) (question_ : MCQQuestion) : M unit :=
  if invalid question_ then
    console_warn ("Skipping invalid question at index "
                    ++ show_nat (start + i))%string
  else
    result <- query (insert_question
                       (mkQuestionValues moduleId (Some formattedTopic)
                          (question question_) 2
                          (or_null (slideLink question_)) None)) ;;
    for_index 0 (elements (mcq_options question_))
      (fun j text =>
         query (insert_option (q_id result) text
                  (strict_eq_index j (correctIndex question_)))).

(** One iteration of [for (let batchIndex = 0; ...)]: a transaction. *)
Definition import_batch (moduleId formattedTopic : string)
           (questionsData : list MCQQuestion) (batchSize batchIndex : nat)
  : M unit :=
  let start := (batchIndex * batchSize)%nat in
  let stop := Nat.min (start + batchSize) (List.length questionsData) in
  let batch := slice start stop questionsData in
  BEGIN ;;
  for_index 0 batch (import_item moduleId formattedTopic start) ;;
  COMMIT.

(** The first transaction: clear the partition. *)
Definition clear_partition (moduleId formattedTopic : string) : M unit :=
  BEGIN ;;
  query (delete_partition_options moduleId formattedTopic) ;;
  query (delete_questions (in_partition moduleId formattedTopic)) ;;
  COMMIT.

(** [importQuestions(moduleId, topic, questionsData, batchSize = 10)]. *)
Definition importQuestions (moduleId topic : string)
           (questionsData : list MCQQuestion) (batchSize : nat) : M nat :=
  let formattedTopic := toUpperCase topic in
  try_catch
    (connect ;;
     try_catch
       (clear_partition moduleId formattedTopic ;;
        let totalBatches := ceil_div (List.length questionsData) batchSize in
        for_of (seq 0 totalBatches)
               (import_batch moduleId formattedTopic questionsData batchSize) ;;
        ret (List.length questionsData))
       (ROLLBACK ;;
        console_error "Error during import:"%string ;;
        throw nat))
    (console_error "Database connection error:"%string ;;
     throw nat).

End ImportModuleJs.

(* ===================================================================== *)
(** ** The direct SQL import of FOCS2 (one transaction) *)
(* ===================================================================== *)

Module DirectSqlFocs2.

(** The body of [for (const questionData of batch)]. *)
Definition import_item (questionData : MCQQuestion) (importedCount : nat)
  : M nat :=
  if invalid questionData then
    console_warn "Invalid question data, skipping"%string ;;
    ret importedCount
  else
    questionResult <- query (insert_question
                               (mkQuestionValues "focs"%string (Some "FOCS2"%string)
                                  (question questionData) 2
                                  (or_null (slideLink questionData)) None)) ;;
    for_index 0 (elements (mcq_options questionData))
      (fun j text =>
         query (insert_option (q_id questionResult) text
                  (strict_eq_index j (correctIndex questionData)))) ;;
    ret (S importedCount).

(** [main()] from the point where [questionsData] has been loaded; the
    value is the exit code ([process.exit(1)] on an empty array). *)
Definition main (questionsData : list MCQQuestion) : M Z :=
  try_catch
    (if (List.length questionsData =? 0)%nat then
       console_error "No valid questions found in file"%string ;;
       ret 1%Z
     else
       connect ;;
       try_catch
         (BEGIN ;;
          query (delete_partition_options "focs" "FOCS2") ;;
          query (delete_questions (in_partition "focs" "FOCS2")) ;;
          for_batches (List.length questionsData) 10 questionsData import_item 0 0 ;;
          COMMIT ;;
          ret tt)
         (ROLLBACK ;;
          console_error "Error during import:"%string) ;;
       ret 0%Z)
    (console_error "Error:"%string ;;
     ret 0%Z).

End DirectSqlFocs2.

(* ===================================================================== *)
(** ** server/scripts/importQuestions.ts *)
(* ===================================================================== *)

(** The text after the last ['_'] of [s]: [s.split('_').pop()]. *)
Fixpoint last_segment_from (acc s : string) : string :=
  match s with
  | EmptyString => acc
  | String c r =>
      if Ascii.eqb c "_"%char then last_segment_from r r
      else last_segment_from acc r
  end.

Definition last_segment (s : string) : string := last_segment_from s s.

(** [s.replace(pat, '')]: the first occurrence of [pat] is removed. *)
Fixpoint remove_first (pat s : string) : string :=
  if String.prefix pat s then
    String.substring (String.length pat) (String.length s - String.length pat) s
  else match s with
       | EmptyString => EmptyString
       | String c r => String c (remove_first pat r)
       end.

Definition dquote : string := String (ascii_of_nat 34) EmptyString.

Module ServerImportQuestions.

(** [slideLink ? slideLink.split('_').pop()?.replace('.pdf', '')
                 || 'General' : 'General']. *)
Definition topic_of (slideLink_ : option string) : string :=
  if truthy slideLink_ then
    match slideLink_ with
    | Some s =>
        let t := remove_first ".pdf" (last_segment s) in
        match t with
        | EmptyString => "General"%string
        | _ => t
        end
    | None => "General"%string
    end
  else "General"%string.

(** [questionData.slideLink || '']. *)
Definition or_empty (v : option string) : string :=
  match v with Some s => s | None => EmptyString end.

(** [`Error importing question: "${questionData.question.substring(0, 30)}..."`];
    reading [substring] of a missing text throws. *)
Definition report (q : option string) : M unit :=
  match q with
  | Some s =>
      console_error ("Error importing question: " ++ dquote
                       ++ String.substring 0 30 s ++ "..." ++ dquote)%string
  | None => throw unit
  end.

(** The body of [for (const questionData of questionsData)].  Reading
    [questionData.options.length] throws when the field is missing; the
    script does not test that it is an array. *)
Definition import_item (moduleId : string) (questionData : MCQQuestion)
  : M unit :=
  try_catch
    (insertedQuestion <- query (insert_question
                            (mkQuestionValues moduleId
                               (Some (topic_of (slideLink questionData)))
                               (question questionData) 2
                               (Some (or_empty (slideLink questionData)))
                               (Some EmptyString))) ;;
     match mcq_options questionData with
     | Some opts =>
         for_index 0 opts
           (fun i text =>
              query (insert_option (q_id insertedQuestion) text
                       (strict_eq_index i (correctIndex questionData)))) ;;
         match question questionData with
         | Some _ => ret tt
         | None => throw unit
         end
     | None => throw unit
     end)
    (report (question questionData)).

(** [importQuestions(moduleId, questionsData)]. *)
Definition importQuestions (moduleId : string)
           (questionsData : list MCQQuestion) : M unit :=
  for_of questionsData (import_item moduleId).

(** [clearModuleQuestions(moduleId)]. *)
Definition clearModuleQuestions (moduleId : string) : M unit :=
  moduleQuestions <-
    query (select_questions (fun q => String.eqb (q_module_id q) moduleId)) ;;
  for_of moduleQuestions
    (fun question =>
       query (delete_options
                (fun o => Z.eqb (o_question_id o) (q_id question)))) ;;
  query (delete_questions (fun q => String.eqb (q_module_id q) moduleId)) ;;
  ret tt.

End ServerImportQuestions.

(* ===================================================================== *)
(** ** Observations of a store *)
(* ===================================================================== *)

(** The option rows owned by question [qid], in table order. *)
Definition options_of (s : Store) (qid : Z) : list OptionRow :=
  filter (fun o => Z.eqb (o_question_id o) qid) (options s).

(** The question rows of partition [(m, t)], in table order. *)
Definition partition (m t : string) (s : Store) : list Question :=
  filter (in_partition m t) (questions s).

(** A question without its generated ids: its columns and, for each of its
    options in order, the text and the is-correct flag. *)
Record QuestionContent := mkContent {
  c_text : option string;
  c_difficulty : Z;
  c_slide_reference : option string;
  c_explanation : option string;
  c_options : list (string * bool)
}.

Definition content_of (s : Store) (q : Question) : QuestionContent :=
  mkContent (q_text q) (q_difficulty q) (q_slide_reference q) (q_explanation q)
            (map (fun o => (o_text o, o_is_correct o)) (options_of s (q_id q))).

(** The content of a partition, up to generated ids. *)
Definition partition_content (m t : string) (s : Store) : list QuestionContent :=
  map (content_of s) (partition m t s).

(** Primary keys are unique and below the sequence, and every option
    belongs to a question of the store. *)
Definition wf (s : Store) : Prop :=
  NoDup (map q_id (questions s)) /\
  (forall q, In q (questions s) -> (q_id q < question_seq s)%Z) /\
  (forall o, In o (options s) -> In (o_question_id o) (map q_id (questions s))).

(** No attempt refers to a question or option that is not in the store. *)
Definition attempts_resolved (s : Store) : Prop :=
  forall a, In a (attempts s) ->
    (forall qid, a_question_id a = Some qid -> In qid (map q_id (questions s))) /\
    (forall oid, a_selected_option_id a = Some oid -> In oid (map o_id (options s))).

(** The number of options of [l] that are flagged correct. *)
Definition count_correct (l : list OptionRow) : nat :=
  List.length (filter o_is_correct l).

(** The spec's notion of a valid record: non-empty question text, an
    options array, and a [correctIndex] that is a position of that array. *)
Definition valid_record (item : MCQQuestion) : bool :=
  truthy (question item) &&
  match mcq_options item, correctIndex item with
  | Some opts, IdxNum k => (0 <=? k)%Z && (k <? Z.of_nat (List.length opts))%Z
  | _, _ => false
  end.

(** Question row [q] of store [s] carries record [item]: its columns, one
    option per element of the options array in the same order, and the
    flag of the option at position [j] says whether [j] is [correctIndex]. *)
Definition carries (s : Store) (item : MCQQuestion) (q : Question) : Prop :=
  q_text q = question item /\
  q_difficulty q = 2%Z /\
  map o_text (options_of s (q_id q)) = elements (mcq_options item) /\
  (forall j o, nth_error (options_of s (q_id q)) j = Some o ->
               o_is_correct o = strict_eq_index j (correctIndex item)).

(** Partition [(m, t)] of [s] holds exactly the records [cands], in order,
    each with exactly one option flagged correct. *)
Definition seeded_exactly (m t : string) (cands : list MCQQuestion) (s : Store)
  : Prop :=
  List.length (partition m t s) = List.length cands /\
  Forall2 (fun item q =>
             carries s item q /\
             count_correct (options_of s (q_id q)) = 1%nat)
          cands (partition m t s).

(** Partition [(m, t)] of [s] holds a question for [item] whose options are
    [opts], in order, none of them flagged correct. *)
Definition stored_unflagged (m t : string) (item : MCQQuestion)
           (opts : list string) (s : Store) : Prop :=
  exists q,
    In q (partition m t s) /\
    q_text q = question item /\
    map o_text (options_of s (q_id q)) = opts /\
    (forall o, In o (options_of s (q_id q)) -> o_is_correct o = false) /\
    count_correct (options_of s (q_id q)) = 0%nat.

(* ===================================================================== *)
(** ** The effect of the statements of a run in which none is rejected *)
(* ===================================================================== *)

(** The rows written by the option loop of one record. *)
Fixpoint option_rows (qid : Z) (ci : JsIndex) (j : nat) (oseq : Z)
         (l : list string) : list OptionRow :=
  match l with
  | [] => []
  | text :: r =>
      mkOption oseq qid text (strict_eq_index j ci)
      :: option_rows qid ci (S j) (oseq + 1) r
  end.

Definition add_options (qid : Z) (ci : JsIndex) (j : nat) (l : list string)
           (s : Store) : Store :=
  mkStore (questions s) (options s ++ option_rows qid ci j (option_seq s) l)
          (attempts s) (question_seq s)
          (option_seq s + Z.of_nat (List.length l)).

(** One question with values [v] and its options. *)
Definition add_question (v : QuestionValues) (ci : JsIndex) (opts : list string)
           (s : Store) : Store :=
  add_options (question_seq s) ci 0 opts (snd (insert_question v s)).

(** The values the partition scripts insert for a record. *)
Definition values_of (m t : string) (item : MCQQuestion) : QuestionValues :=
  mkQuestionValues m (Some t) (question item) 2 (or_null (slideLink item)) None.

(** One record, as the partition scripts treat it. *)
Definition add_record (m t : string) (item : MCQQuestion) (s : Store) : Store :=
  if invalid item then s
  else add_question (values_of m t item) (correctIndex item)
                    (elements (mcq_options item)) s.

Definition add_records (m t : string) (items : list MCQQuestion) (s : Store)
  : Store :=
  fold_left (fun s item => add_record m t item s) items s.

(** The delete phase: the partition's questions and their options. *)
Definition clear (m t : string) (s : Store) : Store :=
  set_questions (filter (fun q => negb (in_partition m t q)) (questions s))
    (snd (delete_partition_options m t s)).

(** The content a record is stored with. *)
Definition expected (item : MCQQuestion) : QuestionContent :=
  mkContent (question item) 2 (or_null (slideLink item)) None
            (map (fun o => (o_text o, o_is_correct o))
                 (option_rows 0 (correctIndex item) 0 0
                              (elements (mcq_options item)))).

(** The number of records that pass the scripts' validation. *)
Definition passing (items : list MCQQuestion) : nat :=
  List.length (filter (fun item => negb (invalid item)) items).

(** The warnings of [scripts/import.ts] for a list of records. *)
Definition skip_warnings (msg : string) (items : list MCQQuestion)
  : list string :=
  map (fun _ => msg) (filter invalid items).

(** The warnings of [scripts/import-module.js]: they carry the position of
    the record in the whole array. *)
Fixpoint skip_warnings_at (idx : nat) (items : list MCQQuestion)
  : list string :=
  match items with
  | [] => []
  | item :: r =>
      (if invalid item
       then [("Skipping invalid question at index " ++ show_nat idx)%string]
       else [])
      ++ skip_warnings_at (S idx) r
  end.

(** The effect of the cleanup script. *)
Definition cleaned (s : Store) : Store :=
  let bad := map q_id (filter CleanupDatabase.is_invalid (questions s)) in
  let bad_options :=
    map o_id (filter (fun o => in_ids bad (o_question_id o)) (options s)) in
  mkStore
    (filter (fun q => negb (CleanupDatabase.is_invalid q)) (questions s))
    (filter (fun o => negb (in_ids bad (o_question_id o))) (options s))
    (filter (fun a => negb (in_ids_opt bad_options (a_selected_option_id a))
                      && negb (in_ids_opt bad (a_question_id a)))
            (attempts s))
    (question_seq s) (option_seq s).

(* ===================================================================== *)
(** ** Assertions on runs *)
(* ===================================================================== *)

(** An assertion speaks of the working store and of the snapshot of the
    open transaction; [hoare P m Q]: every run of [m] from a connection
    satisfying [P], whatever statements are rejected, ends with a result
    and a connection satisfying [Q]. *)
Definition assertion := Store -> option Store -> Prop.

Definition hoare (A : Type) (P : assertion) (m : M A)
           (Q : result A -> assertion) : Prop :=
  forall c, P (store c) (txn c) ->
            Q (fst (m c)) (store (snd (m c))) (txn (snd (m c))).

(** Keys are unique and every key in use is below the sequence. *)
Definition wf_keys (s : Store) : Prop :=
  NoDup (map q_id (questions s)) /\
  (forall q, In q (questions s) -> (q_id q < question_seq s)%Z) /\
  (forall o, In o (options s) -> (o_question_id o < question_seq s)%Z).

(** Partition [(m, t)] of [s] is what it was in [s0]: the same question
    rows and, for each of them, the same option rows. *)
Definition framed (m t : string) (s0 s : Store) : Prop :=
  wf_keys s /\
  partition m t s = partition m t s0 /\
  (forall q, In q (partition m t s0) ->
             options_of s (q_id q) = options_of s0 (q_id q)).

(** What a rollback would leave: the tables of the snapshot, with the
    sequences as they are. *)
Definition snapshot (s : Store) (tx : option Store) : Store :=
  match tx with Some x => with_sequences x s | None => s end.

(** The transaction state after BEGIN. *)
Definition begun (s : Store) (tx : option Store) : option Store :=
  match tx with Some x => Some x | None => Some s end.

(** The same rows in the three tables; the sequences may differ. *)
Definition same_tables (a b : Store) : Prop :=
  questions a = questions b /\
  options a = options b /\
  attempts a = attempts b.

(** [m] keeps the assertion [I], however it ends. *)
Definition keeps (A : Type) (I : assertion) (m : M A) : Prop :=
  hoare I m (fun _ => I).

(** A property of stores that holds of the working store and of the
    tables a rollback would restore, whatever the sequences then are. *)
Definition lift (J : Store -> Prop) : assertion :=
  fun s tx =>
    J s /\
    match tx with
    | Some x => forall s', J (with_sequences x s')
    | None => True
    end.

(** The number of statements the plan of [c] still rejects. *)
Definition rejections (c : Conn) : nat :=
  List.length (filter (fun rejected => rejected) (faults c)).

(** Every exception of [m] is a rejected statement: a run that throws
    has used up one rejection of the plan, and no run adds one. *)
Definition spends (A : Type) (m : M A) : Prop :=
  forall c,
    (rejections (snd (m c))
     + match fst (m c) with Thrown => 1 | Ok _ => 0 end
     <= rejections c)%nat.

(** Every character of [s] is an ASCII character. *)
Fixpoint ascii_only (s : string) : bool :=
  match s with
  | EmptyString => true
  | String c r => (nat_of_ascii c <? 128)%nat && ascii_only r
  end.

(** Every question of [s] is one of [old] or has difficulty 2. *)
Definition old_or_medium (old : list Question) (s : Store) : Prop :=
  forall q, In q (questions s) -> In q old \/ q_difficulty q = 2%Z.

(* ===================================================================== *)
(** ** scripts/import.ts: the table of modules and [main] *)
(* ===================================================================== *)

(** An element of [moduleData]: [{ moduleId, topic, filename }]. *)
Record ModuleEntry := mkEntry {
  e_moduleId : string;
  e_topic : string;
  e_filename : string
}.

(** What a function that reads a data file logs with [console.error], one
    line after the other. *)
Definition console_errors (lines : list string) : M unit :=
  fun c => (Ok tt, mkConn (store c) (txn c) (faults c) (stderr c ++ lines)).

Module ImportTsMain.

Definition moduleData : list ModuleEntry :=
  [mkEntry "focs" "FOCS2" "focs2.js";
   mkEntry "focs" "FOCS3" "focs3.js";
   mkEntry "focs" "FOCS4" "focs4.js";
   mkEntry "focs" "FOCS5" "focs5.js";
   mkEntry "bcr" "BCR1" "bcr1.js";
   mkEntry "bcr" "BCR2" "bcr2.js";
   mkEntry "bcr" "BCR3" "bcr3.js";
   mkEntry "bcr" "BCR4" "bcr4.js";
   mkEntry "msk" "MSK1" "msk1.js";
   mkEntry "msk" "MSK2" "msk2.js";
   mkEntry "anatomy" "Anatomy" "anatomy.js"]%string.

(** The predicate of [moduleData.find(m => ...)]:
    [m.moduleId.toLowerCase() === specificModule ||
     m.topic.toLowerCase() === specificModule.toUpperCase() ||
     m.filename.toLowerCase().includes(specificModule)],
    for an argument and a table of ASCII strings. *)
Definition matches (specificModule : string) (m : ModuleEntry) : bool :=
  String.eqb (toLowerCase (e_moduleId m)) specificModule
  || String.eqb (toLowerCase (e_topic m)) (toUpperCase specificModule)
  || str_includes (toLowerCase (e_filename m)) specificModule.

Section Files.

(** The data files: for a file name, what [extractQuestionsFromFile] logs
    with [console.error] and the array it returns, the empty array when
    the file is missing or cannot be read (every failure of the function
    ends in [return []]). *)
Variable files : string -> list string * list MCQQuestion.

Definition extractQuestionsFromFile (filename : string)
  : M (list MCQQuestion) :=
  console_errors (fst (files filename)) ;;
  ret (snd (files filename)).

(** [processModule(module.moduleId, module.topic, module.filename)]. *)
Definition process_entry (module_ : ModuleEntry) : M unit :=
  questions_ <- extractQuestionsFromFile (e_filename module_) ;;
  ImportTs.processModule (e_moduleId module_) (e_topic module_) questions_.

(** [main()] over a table of modules; [arg] is [process.argv[2]]. *)
Definition main_on (table : list ModuleEntry) (arg : option string) : M unit :=
  match option_map toLowerCase arg with
  | Some specificModule =>
      if truthy (Some specificModule) then
        match find (matches specificModule) table with
        | None =>
            console_error "No matching module found" ;;
            ret tt
        | Some module_ => process_entry module_
        end
      else for_of table process_entry
  | None => for_of table process_entry
  end.

Definition main : option string -> M unit := main_on moduleData.

End Files.

End ImportTsMain.

(* ===================================================================== *)
(** ** scripts/importModuleData.ts: [importQuestions] and its counters *)
(* ===================================================================== *)

Module ImportModuleData.

(** The body of [for (const questionData of batch)]; the state of the loop
    is [(successCount, errorCount)]. *)
Definition import_item (moduleId topic : string) (questionData : MCQQuestion)
           (counts : nat * nat) : M (nat * nat) :=
  let successCount := fst counts in
  let errorCount := snd counts in
  try_catch
    (if invalid questionData then
       console_warn "Invalid question data, skipping"%string ;;
       ret (successCount, S errorCount)
     else
       insertedQuestion <- query (insert_question
                            (mkQuestionValues moduleId (Some topic)
                               (question questionData) 2
                               (or_null (slideLink questionData)) None)) ;;
       for_index 0 (elements (mcq_options questionData))
         (fun j text =>
            query (insert_option (q_id insertedQuestion) text
                     (strict_eq_index j (correctIndex questionData)))) ;;
       ret (S successCount, errorCount))
    (console_error "Error importing question:"%string ;;
     ret (successCount, S errorCount)).

(** The loops of [importQuestions], with both counters as they stand when
    the final line is logged. *)
Definition import_loop (moduleId topic : string)
           (questionsData : list MCQQuestion) : M (nat * nat) :=
  for_batches (List.length questionsData) 5 questionsData
              (import_item moduleId topic) 0 (0%nat, 0%nat).

(** [importQuestions(moduleId, topic, questionsData)] returns
    [successCount]. *)
Definition importQuestions (moduleId topic : string)
           (questionsData : list MCQQuestion) : M nat :=
  counts <- import_loop moduleId topic questionsData ;;
  ret (fst counts).

End ImportModuleData.

(* ===================================================================== *)
(** ** scripts/importSpecificModule.ts *)
(* ===================================================================== *)

(** [{ filename, variableName }]. *)
Record FileInfo := mkFileInfo {
  fi_filename : string;
  fi_variableName : string
}.

(** The own property [k] of an object literal. *)
Fixpoint own_property (A : Type) (k : string) (l : list (string * A))
  : option A :=
  match l with
  | [] => None
  | (k', v) :: r => if String.eqb k k' then Some v else own_property k r
  end.

Module ImportSpecificModule.

Definition moduleMapping : list (string * list (string * FileInfo)) :=
  [("focs",
    [("FOCS2", mkFileInfo "focs2.js" "focs2Data");
     ("FOCS3", mkFileInfo "focs3.js" "focs3Data");
     ("FOCS4", mkFileInfo "focs4.js" "focs4Data");
     ("FOCS5", mkFileInfo "focs5.js" "focs5Data")]);
   ("bcr",
    [("BCR1", mkFileInfo "bcr1.js" "bcr1Data");
     ("BCR2", mkFileInfo "bcr2.js" "bcr2Data");
     ("BCR3", mkFileInfo "bcr3.js" "bcr3Data");
     ("BCR4", mkFileInfo "bcr4.js" "bcr4Data")]);
   ("msk",
    [("MSK1", mkFileInfo "msk1.js" "msk1Data");
     ("MSK2", mkFileInfo "msk2.js" "msk2Data")]);
   ("anatomy",
    [("Anatomy", mkFileInfo "anatomy.js" "anatomyData")])]%string.

(** [moduleMapping[moduleId]] for a lower-cased [moduleId].  Besides its
    own keys the object answers to the inherited ones; the only inherited
    keys written in lower case are [constructor] and [__proto__], and
    their values are objects none of whose keys is free of lower-case
    letters, so that they have no entry for an upper-cased topic. *)
Definition mapping_of (moduleId : string)
  : option (list (string * FileInfo)) :=
  match own_property moduleId moduleMapping with
  | Some topics => Some topics
  | None =>
      if String.eqb moduleId "constructor" || String.eqb moduleId "__proto__"
      then Some []
      else None
  end.

(** [clearExistingQuestions(moduleId, topic)]: no early return. *)
Definition clearExistingQuestions (moduleId topic : string) : M unit :=
  existingQuestions <- query (select_questions (in_partition moduleId topic)) ;;
  for_of existingQuestions
    (fun question =>
       query (delete_options
                (fun o => Z.eqb (o_question_id o) (q_id question)))) ;;
  query (delete_questions (in_partition moduleId topic)) ;;
  ret tt.

(** [!questionData.question || !Array.isArray(questionData.options)]:
    [correctIndex] is not looked at. *)
Definition invalid_data (questionData : MCQQuestion) : bool :=
  negb (truthy (question questionData))
  || negb (isArray (mcq_options questionData)).

(** The body of [for (const questionData of batch)]: the validation stands
    before the [try]. *)
Definition import_item (moduleId topic : string) (questionData : MCQQuestion)
           (importedCount : nat) : M nat :=
  if invalid_data questionData then
    console_warn "Invalid question data, skipping..."%string ;;
    ret importedCount
  else
    try_catch
      (insertedQuestion <- query (insert_question
                             (mkQuestionValues moduleId (Some topic)
                                (question questionData) 2
                                (or_null (slideLink questionData)) None)) ;;
       for_index 0 (elements (mcq_options questionData))
         (fun j text =>
            query (insert_option (q_id insertedQuestion) text
                     (strict_eq_index j (correctIndex questionData)))) ;;
       ret (S importedCount))
      (console_error "Error importing question"%string ;;
       ret importedCount).

(** [importQuestions(moduleId, topic, questionsData)]: batches of 5;
    [slice(i, i + batchSize)] stops at the end of the array. *)
Definition importQuestions (moduleId topic : string)
           (questionsData : list MCQQuestion) : M nat :=
  for_batches (List.length questionsData) 5 questionsData
              (import_item moduleId topic) 0 0.

Section Files.

(** The files of [attached_assets]: [None] when [fs.existsSync] is false,
    otherwise what [extractQuestionsFromFile] logs with [console.error]
    and the array it returns, the empty array when the file cannot be
    read as an array. *)
Variable files : string -> option (list string * list MCQQuestion).

(** [main()] with [args = process.argv.slice(2)]; the value is the exit
    code, 1 for every [process.exit(1)] and for the [catch] of the call. *)
Definition main (args : list string) : M Z :=
  try_catch
    (match args with
     | a0 :: a1 :: _ =>
         let moduleId := toLowerCase a0 in
         let topic := toUpperCase a1 in
         match mapping_of moduleId with
         | None =>
             console_error "Invalid module"%string ;;
             console_error "Available modules"%string ;;
             ret 1%Z
         | Some topics =>
             match own_property topic topics with
             | None =>
                 console_error "Invalid topic"%string ;;
                 console_error "Available topics"%string ;;
                 ret 1%Z
             | Some info =>
                 match files (fi_filename info) with
                 | None =>
                     console_error "File not found"%string ;;
                     ret 1%Z
                 | Some (errors, questions_) =>
                     console_errors errors ;;
                     if (List.length questions_ =? 0)%nat then
                       console_error "No valid questions found in file"%string ;;
                       ret 1%Z
                     else
                       clearExistingQuestions moduleId topic ;;
                       importQuestions moduleId topic questions_ ;;
                       ret 0%Z
                 end
             end
         end
     | _ =>
         console_error "Please provide both moduleId and topic"%string ;;
         console_error "Usage"%string ;;
         console_error "Example"%string ;;
         ret 1%Z
     end)
    (console_error "Error:"%string ;;
     ret 1%Z).

End Files.

End ImportSpecificModule.

(* ===================================================================== *)
(** ** scripts/import-module.js: [extractModuleData] and [main] *)
(* ===================================================================== *)

Module ImportModuleJsMain.

(** The [switch (topic.toLowerCase())] of [extractModuleData]: the file of
    a topic, [None] in the [default] case. *)
Definition fileName (topic : string) : option string :=
  let k := toLowerCase topic in
  if String.eqb k "focs2" then Some "focs2.js"%string
  else if String.eqb k "focs3" then Some "focs3.js"%string
  else if String.eqb k "focs4" then Some "focs4.js"%string
  else if String.eqb k "focs5" then Some "focs5.js"%string
  else if String.eqb k "bcr1" then Some "bcr1.js"%string
  else if String.eqb k "bcr2" then Some "bcr2.js"%string
  else if String.eqb k "bcr3" then Some "bcr3.js"%string
  else if String.eqb k "bcr4" then Some "bcr4.js"%string
  else if String.eqb k "msk1" then Some "msk1.js"%string
  else if String.eqb k "msk2" then Some "msk2.js"%string
  else if String.eqb k "anatomy" then Some "anatomy.js"%string
  else None.

(** [await pool.end()]. *)
Definition pool_end : M unit := await (fun c => (tt, c)).

(** What the [try] block of [extractModuleData] can yield.  Its pattern
    is built from the text [(\\[\\s\\S]*?\\]);] of a template literal, which
    gives the expression [(\[\s\S]*?\]);]: an opening bracket, one
    white-space character, one other character, closing brackets.  The
    text it captures evaluates to an array in three cases only: a digit
    gives an array of one number, an opening bracket an array of one empty
    array, a comma an array of one empty slot.  Every other file, the
    data files of the repository among them, ends in the [catch] block,
    which logs the error and returns the empty array. *)
Inductive Extracted :=
| NoArray
| OneValue
| OneEmptySlot.

(** A number or an empty array read as a record: it has none of the
    properties. *)
Definition without_properties : MCQQuestion :=
  mkMCQ None None IdxUndefined None.

(** The array of an extraction: an empty slot reads as [undefined]. *)
Definition array_of (x : Extracted) : list (option MCQQuestion) :=
  match x with
  | NoArray => []
  | OneValue => [Some without_properties]
  | OneEmptySlot => [None]
  end.

(** The body of [for (let i = 0; i < batch.length; i++)] of
    [importQuestions] for an element that may be [undefined]: reading
    [question.question] then throws. *)
Definition import_element (moduleId formattedTopic : string) (start : nat)
           (i : nat) (element : option MCQQuestion) : M unit :=
  match element with
  | Some question_ =>
      ImportModuleJs.import_item moduleId formattedTopic start i question_
  | None => throw unit
  end.

(** [importQuestions] of import-module.js on such an array: the text of
    [ImportModuleJs.importQuestions] with [import_element] for the body of
    the inner loop. *)
Definition import_batch (moduleId formattedTopic : string)
           (questionsData : list (option MCQQuestion))
           (batchSize batchIndex : nat) : M unit :=
  let start := (batchIndex * batchSize)%nat in
  let stop := Nat.min (start + batchSize) (List.length questionsData) in
  let batch := slice start stop questionsData in
  BEGIN ;;
  for_index 0 batch (import_element moduleId formattedTopic start) ;;
  COMMIT.

Definition importQuestions (moduleId topic : string)
           (questionsData : list (option MCQQuestion)) (batchSize : nat)
  : M nat :=
  let formattedTopic := toUpperCase topic in
  try_catch
    (connect ;;
     try_catch
       (ImportModuleJs.clear_partition moduleId formattedTopic ;;
        let totalBatches := ceil_div (List.length questionsData) batchSize in
        for_of (seq 0 totalBatches)
               (import_batch moduleId formattedTopic questionsData batchSize) ;;
        ret (List.length questionsData))
       (ROLLBACK ;;
        console_error "Error during import:"%string ;;
        throw nat))
    (console_error "Database connection error:"%string ;;
     throw nat).

Section Files.

(** The files of [attached_assets]: [None] when [fs.existsSync] is false,
    otherwise what the [try] block makes of the file. *)
Variable files : string -> option Extracted.

(** [extractModuleData(moduleId, topic)]: it throws for a topic that is not
    supported and for a missing file. *)
Definition extractModuleData (topic : string)
  : M (list (option MCQQuestion)) :=
  match fileName topic with
  | None => throw (list (option MCQQuestion))
  | Some file =>
      match files file with
      | None => throw (list (option MCQQuestion))
      | Some NoArray =>
          console_error "Error extracting data:"%string ;;
          ret (array_of NoArray)
      | Some x => ret (array_of x)
      end
  end.

(** The [try] block of [main] with its [catch]; [moduleId] and [topic] are
    [process.argv[2]] and [process.argv[3]].  The value is [Some 1] where
    the script leaves through [process.exit(1)] and [None] where the block
    runs to its end. *)
Definition main_body (moduleId topic : option string) : M (option Z) :=
  try_catch
    (match moduleId, topic with
     | Some m, Some t =>
         if negb (truthy moduleId) || negb (truthy topic) then
           console_errors ["Usage"; "Example"; "Available modules:";
                           "- focs"; "- bcr"; "- msk"; "- anatomy"]%string ;;
           ret (Some 1%Z)
         else
           questionsData <- extractModuleData t ;;
           if (List.length questionsData =? 0)%nat then
             console_error "No questions found to import."%string ;;
             ret (Some 1%Z)
           else
             importQuestions m t questionsData 10 ;;
             ret None
     | _, _ =>
         console_errors ["Usage"; "Example"; "Available modules:";
                         "- focs"; "- bcr"; "- msk"; "- anatomy"]%string ;;
         ret (Some 1%Z)
     end)
    (console_error "Error:"%string ;;
     ret (Some 1%Z)).

(** [main().catch(...)]: the exit code.  [process.exit(1)] ends the
    process at once; otherwise the [finally] block closes the pool, and
    the call that rejects there ends in the outer [catch]. *)
Definition main (moduleId topic : option string) : M Z :=
  try_catch
    (exit <- main_body moduleId topic ;;
     match exit with
     | Some code => ret code
     | None => pool_end ;; ret 0%Z
     end)
    (console_error "Fatal error:"%string ;;
     ret 1%Z).

End Files.

End ImportModuleJsMain.

(* ===================================================================== *)
(** ** [escapeSql] of import-module.js and of the SQL file generator *)
(* ===================================================================== *)

Definition squote : ascii := ascii_of_nat 39.

(** [str.replace(/'/g, "''")]. *)
Fixpoint double_quotes (str : string) : string :=
  match str with
  | EmptyString => EmptyString
  | String c r =>
      if Ascii.eqb c squote then String squote (String squote (double_quotes r))
      else String c (double_quotes r)
  end.

(** [escapeSql(str)]: [if (!str) return ''; return str.replace(...)]. *)
Definition escapeSql (str : option string) : string :=
  if truthy str then
    match str with
    | Some s => double_quotes s
    | None => EmptyString
    end
  else EmptyString.

(* ===================================================================== *)
(** ** Letters *)
(* ===================================================================== *)

(** [c] is one of [a] to [z]. *)
Definition is_lower (c : ascii) : bool :=
  let n := nat_of_ascii c in (97 <=? n) && (n <=? 122).

(** [c] is one of [A] to [Z] or [a] to [z]. *)
Definition is_letter (c : ascii) : bool :=
  let n := nat_of_ascii c in
  ((65 <=? n) && (n <=? 90)) || ((97 <=? n) && (n <=? 122)).

Fixpoint string_exists (p : ascii -> bool) (s : string) : bool :=
  match s with
  | EmptyString => false
  | String c r => p c || string_exists p r
  end.

(* ===================================================================== *)
(** ** Sample data *)
(* ===================================================================== *)

(** A store with one FOCS2 question, its option and an attempt on it. *)
Definition sample_store : Store :=
  mkStore
    [mkQuestion 1 "focs" (Some "FOCS2") (Some "Old question") 2 None None]%string
    [mkOption 1 1 "Old option" true]%string
    [mkAttempt 1 (Some 1%Z) (Some 1%Z)]
    2 2.

Definition sample_conn : Conn := mkConn sample_store None [] [].

(** Three valid records; the first has options A, B, C and index 1. *)
Definition sample_records : list MCQQuestion :=
  [mkMCQ (Some "Q1") (Some ["A"; "B"; "C"]) (IdxNum 1) None;
   mkMCQ (Some "Q2") (Some ["D"; "E"; "F"]) (IdxNum 0) (Some "Lecture01.pdf");
   mkMCQ (Some "Q3") (Some ["G"; "H"; "I"]) (IdxNum 2) None]%string.

(** A store with a FOCS2 question and a BCR1 question, each with options. *)
Definition two_partition_store : Store :=
  mkStore
    [mkQuestion 1 "focs" (Some "FOCS2") (Some "Old question") 2 None None;
     mkQuestion 2 "bcr" (Some "BCR1") (Some "Kept question") 2 None None]%string
    [mkOption 1 1 "Old option" true;
     mkOption 2 2 "Kept yes" true;
     mkOption 3 2 "Kept no" false]%string
    []
    3 4.

(** A connection on which the fourth awaited statement is rejected. *)
Definition flaky_conn : Conn :=
  mkConn two_partition_store None [false; false; false; true] [].

(** A record with an empty options array. *)
Definition empty_options_record : MCQQuestion :=
  mkMCQ (Some "No choices"%string) (Some []) (IdxNum 0) None.

(** A record whose [correctIndex] is past the end of its options. *)
Definition out_of_range_record : MCQQuestion :=
  mkMCQ (Some "Which one"%string) (Some ["A"; "B"]%string) (IdxNum 5) None.

(** A record that fails the scripts' validation: no options array. *)
Definition no_options_record : MCQQuestion :=
  mkMCQ (Some "Broken"%string) None (IdxNum 0) None.

(** The sample connection with the seventh awaited statement rejected: for
    import-module.js that is the first INSERT of the first batch. *)
Definition reject_seventh : Conn :=
  mkConn sample_store None [false; false; false; false; false; false; true] [].

(** The sample connection with the sixth awaited statement rejected: for
    import.ts that is the INSERT of the second option of the first record. *)
Definition reject_sixth : Conn :=
  mkConn sample_store None [false; false; false; false; false; true] [].

(** A store whose only question is in a valid partition and mentions a
    sample in its text. *)
Definition blood_sample_store : Store :=
  mkStore
    [mkQuestion 1 "focs" (Some "FOCS2")
                (Some "A blood Sample is drawn. What is measured first?")
                2 None None]%string
    [mkOption 1 1 "Glucose" true; mkOption 2 1 "Sodium" false]%string
    [mkAttempt 1 (Some 1%Z) (Some 2%Z)]
    2 3.

(** A record that is valid in every respect. *)
Definition valid_sample_record : MCQQuestion :=
  mkMCQ (Some "Q1"%string) (Some ["A"; "B"; "C"]%string) (IdxNum 1) None.

(* ===================================================================== *)
(** ** Observations used by the further properties *)
(* ===================================================================== *)

(** What the cleanup of [s0] may not touch, said of a later store [s]:
    the questions that are not invalid, the options of the questions that
    are not invalid, the attempts that refer to neither an invalid question
    nor one of its options; nothing is added and the sequences stand. *)
Definition spared_by_cleanup (s0 s : Store) : Prop :=
  let bad := map q_id (filter CleanupDatabase.is_invalid (questions s0)) in
  let bad_options :=
    map o_id (filter (fun o => in_ids bad (o_question_id o)) (options s0)) in
  (forall q, In q (questions s0) -> CleanupDatabase.is_invalid q = false ->
             In q (questions s)) /\
  (forall o, In o (options s0) -> in_ids bad (o_question_id o) = false ->
             In o (options s)) /\
  (forall a, In a (attempts s0) ->
             in_ids_opt bad_options (a_selected_option_id a) = false ->
             in_ids_opt bad (a_question_id a) = false ->
             In a (attempts s)) /\
  incl (questions s) (questions s0) /\
  incl (options s) (options s0) /\
  incl (attempts s) (attempts s0) /\
  question_seq s = question_seq s0 /\
  option_seq s = option_seq s0.

(** Store [s] is [s0] less some options of the questions of partition
    [(m, t)]: same questions, attempts and sequences, no new option, and
    every option of [s0] that belongs to no question of the partition. *)
Definition only_partition_options_lost (m t : string) (s0 s : Store) : Prop :=
  questions s = questions s0 /\
  attempts s = attempts s0 /\
  question_seq s = question_seq s0 /\
  option_seq s = option_seq s0 /\
  incl (options s) (options s0) /\
  (forall o, In o (options s0) ->
             (forall q, In q (partition m t s0) -> o_question_id o <> q_id q) ->
             In o (options s)).

(** The sample connection with the first awaited statement accepted and the
    second rejected: for import.ts that is the DELETE of the options of the
    first question found. *)
Definition reject_second : Conn :=
  mkConn sample_store None [false; true] [].

(** A store with a FOCS2 question and a question of an unknown module, each
    with an option and an attempt on it. *)
Definition mixed_store : Store :=
  mkStore
    [mkQuestion 1 "focs" (Some "FOCS2") (Some "Kept question") 2 None None;
     mkQuestion 2 "test" (Some "TEST") (Some "Stray question") 2 None None]%string
    [mkOption 1 1 "Kept option" true; mkOption 2 2 "Stray option" true]%string
    [mkAttempt 1 (Some 1%Z) (Some 1%Z); mkAttempt 2 (Some 2%Z) (Some 2%Z)]
    3 3.

(** The connection on [mixed_store] whose fifth awaited statement (the
    DELETE of the options of the invalid question) is rejected. *)
Definition mixed_reject_fifth : Conn :=
  mkConn mixed_store None [false; false; false; false; true] [].

(** A record without question text. *)
Definition textless_record : MCQQuestion :=
  mkMCQ None (Some ["A"; "B"]%string) (IdxNum 0) None.

(** [s] without the options of the questions whose id is in [ids]. *)
Definition without_options_of (ids : list Z) (s : Store) : Store :=
  set_options (filter (fun o => negb (in_ids ids (o_question_id o)))
                      (options s)) s.

(** [s] without the questions of module [moduleId] and their options. *)
Definition module_cleared (moduleId : string) (s : Store) : Store :=
  let mine := filter (fun q => String.eqb (q_module_id q) moduleId)
                     (questions s) in
  set_questions
    (filter (fun q => negb (String.eqb (q_module_id q) moduleId)) (questions s))
    (without_options_of (map q_id mine) s).

(** The connection on [two_partition_store] whose third awaited statement
    is rejected: for [clearModuleQuestions] that is the DELETE of the
    questions. *)
Definition two_partition_reject_third : Conn :=
  mkConn two_partition_store None [false; false; true] [].

(** Every question of [s] is one of [old] or is filed under module [m]
    and topic [T]. *)
Definition old_or_filed (m T : string) (old : list Question) (s : Store)
  : Prop :=
  forall q, In q (questions s) ->
            In q old \/ (q_module_id q = m /\ q_topic q = Some T).

(** The entries [main] of import.ts processes for an argument: the first
    entry that matches a non-empty argument, every entry without one. *)
Definition selected (table : list ModuleEntry) (arg : option string)
           (e : ModuleEntry) : Prop :=
  match option_map toLowerCase arg with
  | Some specificModule =>
      if truthy (Some specificModule)
      then find (ImportTsMain.matches specificModule) table = Some e
      else In e table
  | None => In e table
  end.

(** The three texts of a table entry are strings of ASCII characters. *)
Definition entry_ascii (e : ModuleEntry) : bool :=
  ascii_only (e_moduleId e) && ascii_only (e_topic e)
  && ascii_only (e_filename e).

(** A loader that finds [sample_records] in every file. *)
Definition sample_files (filename : string)
  : list string * list MCQQuestion :=
  ([], sample_records).

(** The record with [null] for a missing [correctIndex]. *)
Definition index_or_null (item : MCQQuestion) : MCQQuestion :=
  if is_undefined (correctIndex item)
  then mkMCQ (question item) (mcq_options item) IdxNull (slideLink item)
  else item.

(** A record with no [correctIndex]. *)
Definition no_index_record : MCQQuestion :=
  mkMCQ (Some "Which one"%string) (Some ["A"; "B"]%string) IdxUndefined None.

(** A directory in which every file holds [no_index_record] and a valid
    record. *)
Definition no_index_files (filename : string)
  : option (list string * list MCQQuestion) :=
  Some ([], [no_index_record; valid_sample_record]).

(** The questions of [s] are those of [s1] followed by rows of partition
    [(m, t)] with ids drawn from the sequence of [s1]. *)
Definition appended_to (m t : string) (s1 s : Store) : Prop :=
  exists added,
    questions s = questions s1 ++ added /\
    Forall (fun q => in_partition m t q = true /\
                     (question_seq s1 <= q_id q)%Z) added /\
    (question_seq s1 <= question_seq s)%Z.



(** The text denoted by the body of a quoted SQL string literal: two
    quotes stand for one quote, and a quote on its own would end the
    literal, so that a body with one denotes nothing. *)
Fixpoint literal_value (body : string) : option string :=
  match body with
  | EmptyString => Some EmptyString
  | String c r =>
      if Ascii.eqb c squote then
        match r with
        | String c' r' =>
            if Ascii.eqb c' squote
            then option_map (String squote) (literal_value r')
            else None
        | EmptyString => None
        end
      else option_map (String c) (literal_value r)
  end.


(** A store with a question filed under module focs and topic BCR1, a
    pair that is no partition of the scripts' tables, and a question of
    the partition (focs, FOCS2) whose text mentions a sample. *)
Definition mispaired_store : Store :=
  mkStore
    [mkQuestion 1 "focs" (Some "BCR1") (Some "Plain question") 2 None None;
     mkQuestion 2 "focs" (Some "FOCS2")
                (Some "A blood Sample is drawn. What is measured first?")
                2 None None]%string
    [mkOption 1 1 "Yes" true; mkOption 2 2 "Glucose" true]%string
    []
    3 3.

(* ===================================================================== *)
(** * Lemmas *)
(* ===================================================================== *)

Unset Implicit Arguments.

(** ** Lists *)

Lemma filter_none (A : Type) (p : A -> bool) (l : list A) :
  filter p l = [] -> filter (fun x => negb (p x)) l = l.
Proof.
  induction l as [|x r IH]; simpl; [reflexivity|].
  destruct (p x); simpl; [discriminate|].
  intros H. now rewrite IH.
Qed.

Lemma filter_twice (A : Type) (p q : A -> bool) (l : list A) :
  filter q (filter p l) = filter (fun x => p x && q x) l.
Proof.
  induction l as [|x r IH]; simpl; [reflexivity|].
  destruct (p x); simpl; [destruct (q x)|]; now rewrite IH.
Qed.

Lemma filter_same (A : Type) (p q : A -> bool) (l : list A) :
  (forall x, In x l -> p x = q x) -> filter p l = filter q l.
Proof.
  induction l as [|x r IH]; simpl; intros H; [reflexivity|].
  rewrite (H x) by now left.
  rewrite IH by (intros; apply H; now right). reflexivity.
Qed.

Lemma filter_all (A : Type) (p : A -> bool) (l : list A) :
  (forall x, In x l -> p x = true) -> filter p l = l.
Proof.
  induction l as [|x r IH]; simpl; intros H; [reflexivity|].
  rewrite (H x) by now left.
  rewrite IH by (intros; apply H; now right). reflexivity.
Qed.

Lemma filter_nothing (A : Type) (p : A -> bool) (l : list A) :
  (forall x, In x l -> p x = false) -> filter p l = [].
Proof.
  induction l as [|x r IH]; simpl; intros H; [reflexivity|].
  rewrite (H x) by now left.
  apply IH. intros; apply H; now right.
Qed.

Lemma NoDup_map_filter (K R : Type) (key : R -> K) (keep : R -> bool) :
  forall rows : list R,
    NoDup (map key rows) -> NoDup (map key (filter keep rows)).
Proof.
  intros rows. induction rows as [|x r IH]; simpl; intros H; [constructor|].
  inversion H as [|? ? Hx Hr]; subst.
  destruct (keep x); simpl; [constructor|]; auto.
  intros Hin. apply Hx.
  apply in_map_iff in Hin. destruct Hin as [y [Hy Hin]].
  apply filter_In in Hin. apply in_map_iff. exists y. tauto.
Qed.

Lemma in_ids_spec (ids : list Z) (x : Z) : in_ids ids x = true <-> In x ids.
Proof.
  unfold in_ids. rewrite existsb_exists. split.
  - intros [y [Hy E]]. apply Z.eqb_eq in E. now subst.
  - intros H. exists x. split; [assumption|apply Z.eqb_refl].
Qed.

Lemma in_ids_false (ids : list Z) (x : Z) : in_ids ids x = false <-> ~ In x ids.
Proof.
  rewrite <- in_ids_spec. destruct (in_ids ids x); split; congruence.
Qed.

Lemma in_firstn (A : Type) (n : nat) (l : list A) (x : A) :
  In x (firstn n l) -> In x l.
Proof.
  intros H. rewrite <- (firstn_skipn n l). apply in_or_app. now left.
Qed.

Lemma in_skipn (A : Type) (n : nat) (l : list A) (x : A) :
  In x (skipn n l) -> In x l.
Proof.
  intros H. rewrite <- (firstn_skipn n l). apply in_or_app. now right.
Qed.

Lemma in_slice (A : Type) (i j : nat) (l : list A) (x : A) :
  In x (slice i j l) -> In x l.
Proof. unfold slice. intros H. eapply in_skipn, in_firstn, H. Qed.

(** ** The monad *)

Lemma for_acc_app (A S : Type) (body : A -> S -> M S) (l1 l2 : list A) :
  forall acc c,
    for_acc (l1 ++ l2) body acc c
    = (acc' <- for_acc l1 body acc ;; for_acc l2 body acc') c.
Proof.
  induction l1 as [|x r IH]; intros acc c; simpl.
  - reflexivity.
  - unfold bind. destruct (body x acc c) as [[a|] c1]; [|reflexivity].
    rewrite IH. reflexivity.
Qed.

(** The batched loop visits the records one after the other: the fuel
    [length data] is enough, and the batches only group the iterations. *)
Lemma for_batches_flat (A S : Type) (body : A -> S -> M S) (batchSize : nat)
      (data : list A) :
  (1 <= batchSize)%nat ->
  forall fuel i acc c,
    (List.length data - i <= fuel)%nat ->
    for_batches fuel batchSize data body i acc c
    = for_acc (skipn i data) body acc c.
Proof.
  intros Hb. induction fuel as [|fuel IH]; intros i acc c Hf; simpl.
  - rewrite skipn_all2 by lia. reflexivity.
  - destruct (i <? List.length data)%nat eqn:Hi.
    + apply Nat.ltb_lt in Hi.
      transitivity
        (for_acc (firstn batchSize (skipn i data) ++ skipn batchSize (skipn i data))
                 body acc c);
        [|now rewrite firstn_skipn].
      rewrite for_acc_app. unfold bind.
      assert (Hs : slice i (Nat.min (i + batchSize) (List.length data)) data
                   = firstn batchSize (skipn i data)).
      { unfold slice.
        destruct (Nat.le_gt_cases (i + batchSize) (List.length data)) as [Hle|Hgt].
        - rewrite Nat.min_l by assumption. f_equal. lia.
        - rewrite Nat.min_r by lia.
          rewrite !firstn_all2; try reflexivity; rewrite length_skipn; lia. }
      rewrite Hs.
      destruct (for_acc (firstn batchSize (skipn i data)) body acc c)
        as [[a|] c1]; [|reflexivity].
      rewrite IH by lia. rewrite skipn_skipn. f_equal. f_equal. lia.
    + apply Nat.ltb_ge in Hi. rewrite skipn_all2 by lia. reflexivity.
Qed.

(** ** Runs in which no statement is rejected *)

Lemma nf_query (A : Type) (stmt : Store -> A * Store) s tx e :
  query stmt (mkConn s tx [] e)
  = (Ok (fst (stmt s)), mkConn (snd (stmt s)) tx [] e).
Proof.
  unfold query, await. simpl. destruct (stmt s). reflexivity.
Qed.

Lemma add_options_nil qid ci j s : add_options qid ci j [] s = s.
Proof.
  destruct s. unfold add_options. simpl.
  rewrite app_nil_r, Z.add_0_r. reflexivity.
Qed.

Lemma add_options_cons qid ci j text r s :
  add_options qid ci (S j) r
    (snd (insert_option qid text (strict_eq_index j ci) s))
  = add_options qid ci j (text :: r) s.
Proof.
  destruct s. unfold add_options. cbn [snd insert_option questions options
    attempts question_seq option_seq option_rows List.length].
  rewrite <- app_assoc. simpl. f_equal. lia.
Qed.

Lemma nf_insert_options qid ci l :
  forall j s tx e,
    for_index j l
      (fun j text => query (insert_option qid text (strict_eq_index j ci)))
      (mkConn s tx [] e)
    = (Ok tt, mkConn (add_options qid ci j l s) tx [] e).
Proof.
  induction l as [|text r IH]; intros j s tx e; simpl.
  - now rewrite add_options_nil.
  - unfold bind. rewrite nf_query. rewrite IH.
    now rewrite add_options_cons.
Qed.

Lemma nf_insert_record v ci opts s tx e :
  (question <- query (insert_question v) ;;
   for_index 0 opts
     (fun j text =>
        query (insert_option (q_id question) text (strict_eq_index j ci))))
    (mkConn s tx [] e)
  = (Ok tt, mkConn (add_question v ci opts s) tx [] e).
Proof.
  unfold bind. rewrite nf_query. simpl fst. rewrite nf_insert_options.
  reflexivity.
Qed.

Lemma skip_warnings_app msg l1 l2 :
  skip_warnings msg (l1 ++ l2) = skip_warnings msg l1 ++ skip_warnings msg l2.
Proof.
  unfold skip_warnings. now rewrite filter_app, map_app.
Qed.

Lemma add_records_app m t l1 l2 s :
  add_records m t (l1 ++ l2) s = add_records m t l2 (add_records m t l1 s).
Proof. unfold add_records. apply fold_left_app. Qed.

Lemma nf_import_item_ts m t item n s tx e :
  ImportTs.import_item m t item n (mkConn s tx [] e)
  = (Ok (n + passing [item])%nat,
     mkConn (add_record m t item s) tx []
            (e ++ skip_warnings "Skipping invalid question" [item])).
Proof.
  unfold ImportTs.import_item, try_catch, add_record, passing, skip_warnings.
  simpl filter. destruct (invalid item) eqn:Hv; simpl.
  - unfold bind, console_warn, ret. simpl. now rewrite Nat.add_0_r.
  - pose proof (nf_insert_record (values_of m t item) (correctIndex item)
                  (elements (mcq_options item)) s tx e) as H.
    unfold bind in H. unfold values_of in *.
    unfold bind.
    destruct (query _ _) as [[q|] c1] in H |- *; [|discriminate].
    rewrite H. unfold ret. rewrite app_nil_r. now rewrite Nat.add_1_r.
Qed.

Lemma nf_for_acc_ts m t items :
  forall n s tx e,
    for_acc items (ImportTs.import_item m t) n (mkConn s tx [] e)
    = (Ok (n + passing items)%nat,
       mkConn (add_records m t items s) tx []
              (e ++ skip_warnings "Skipping invalid question" items)).
Proof.
  induction items as [|item r IH]; intros n s tx e.
  - simpl. unfold ret, passing, skip_warnings. simpl.
    now rewrite app_nil_r, Nat.add_0_r.
  - simpl for_acc. unfold bind. rewrite nf_import_item_ts. rewrite IH.
    change (item :: r) with ([item] ++ r).
    rewrite skip_warnings_app, add_records_app, app_assoc.
    unfold passing. rewrite (filter_app _ [item] r), length_app.
    now rewrite Nat.add_assoc.
Qed.

Lemma nf_importQuestions_ts bs m t items s tx e :
  (1 <= bs)%nat ->
  ImportTs.importQuestions_with bs m t items (mkConn s tx [] e)
  = (Ok (passing items),
     mkConn (add_records m t items s) tx []
            (e ++ skip_warnings "Skipping invalid question" items)).
Proof.
  intros Hb. unfold ImportTs.importQuestions_with.
  rewrite for_batches_flat by (assumption || lia).
  simpl skipn. rewrite nf_for_acc_ts. reflexivity.
Qed.

Lemma nf_delete_loop (qs : list Question) :
  forall s tx e,
    for_of qs
      (fun question =>
         query (delete_options
                  (fun o => Z.eqb (o_question_id o) (q_id question))))
      (mkConn s tx [] e)
    = (Ok tt,
       mkConn (set_options
                 (filter (fun o => negb (in_ids (map q_id qs) (o_question_id o)))
                         (options s)) s) tx [] e).
Proof.
  induction qs as [|q r IH]; intros s tx e; simpl.
  - unfold ret. destruct s; unfold set_options; simpl.
    rewrite filter_all by reflexivity. reflexivity.
  - unfold bind. rewrite nf_query. rewrite IH.
    destruct s; unfold set_options, delete_options; simpl.
    rewrite filter_twice.
    rewrite (filter_same _ _
               (fun o => negb (Z.eqb (o_question_id o) (q_id q)
                               || in_ids (map q_id r) (o_question_id o)))
               options0); [reflexivity|].
    intros o _. now rewrite negb_orb.
Qed.

Lemma clear_nothing m t s : partition m t s = [] -> clear m t s = s.
Proof.
  unfold partition, clear, delete_partition_options, delete_options,
    set_options, set_questions. intros H. rewrite H. simpl.
  rewrite filter_none by assumption.
  rewrite filter_all by reflexivity.
  now destruct s.
Qed.

Lemma nf_deleteExistingQuestions m t s tx e :
  ImportTs.deleteExistingQuestions m t (mkConn s tx [] e)
  = (Ok (List.length (partition m t s)), mkConn (clear m t s) tx [] e).
Proof.
  unfold ImportTs.deleteExistingQuestions. unfold bind at 1.
  rewrite nf_query. cbn [fst snd select_questions].
  fold (partition m t s).
  destruct (List.length (partition m t s) =? 0)%nat eqn:Hn.
  - apply Nat.eqb_eq in Hn. apply length_zero_iff_nil in Hn.
    unfold ret. rewrite clear_nothing by assumption. now rewrite Hn.
  - unfold bind. rewrite nf_delete_loop. rewrite nf_query. reflexivity.
Qed.

Lemma nf_processModule m t items s tx e :
  items <> [] ->
  ImportTs.processModule m t items (mkConn s tx [] e)
  = (Ok tt,
     mkConn (add_records m t items (clear m t s)) tx []
            (e ++ skip_warnings "Skipping invalid question" items)).
Proof.
  intros Hne. unfold ImportTs.processModule.
  destruct items as [|item r]; [congruence|].
  cbn [List.length Nat.eqb].
  unfold bind. rewrite nf_deleteExistingQuestions.
  unfold ImportTs.importQuestions.
  rewrite nf_importQuestions_ts by lia. reflexivity.
Qed.

Lemma processModule_empty m t c :
  ImportTs.processModule m t [] c
  = (Ok tt, mkConn (store c) (txn c) (faults c)
                   (stderr c ++ ["No questions found"%string])).
Proof. reflexivity. Qed.

(** ** The rows of one record *)

Lemma option_rows_owner qid ci l :
  forall j oseq o, In o (option_rows qid ci j oseq l) -> o_question_id o = qid.
Proof.
  induction l as [|x r IH]; simpl; intros j oseq o H; [contradiction|].
  destruct H as [<-|H]; [reflexivity|eauto].
Qed.

Lemma option_rows_texts qid ci l :
  forall j oseq, map o_text (option_rows qid ci j oseq l) = l.
Proof.
  induction l as [|x r IH]; simpl; intros; [reflexivity|]. now rewrite IH.
Qed.

Lemma option_rows_flag qid ci l :
  forall j0 oseq j o,
    nth_error (option_rows qid ci j0 oseq l) j = Some o ->
    o_is_correct o = strict_eq_index (j0 + j) ci.
Proof.
  induction l as [|x r IH]; intros j0 oseq j o H.
  - destruct j; discriminate.
  - destruct j as [|j]; simpl in H.
    + injection H as <-. simpl. now rewrite Nat.add_0_r.
    + apply IH in H. rewrite H. f_equal. lia.
Qed.

Lemma option_rows_content qid ci l :
  forall j oseq qid' oseq',
    map (fun o => (o_text o, o_is_correct o)) (option_rows qid ci j oseq l)
    = map (fun o => (o_text o, o_is_correct o)) (option_rows qid' ci j oseq' l).
Proof.
  induction l as [|x r IH]; simpl; intros; [reflexivity|].
  f_equal. apply IH.
Qed.

Lemma option_rows_of qid ci l j oseq qid' :
  filter (fun o => Z.eqb (o_question_id o) qid') (option_rows qid ci j oseq l)
  = if Z.eqb qid qid' then option_rows qid ci j oseq l else [].
Proof.
  destruct (Z.eqb qid qid') eqn:E.
  - apply filter_all. intros o H.
    apply option_rows_owner in H. now rewrite H.
  - apply filter_nothing. intros o H.
    apply option_rows_owner in H. now rewrite H.
Qed.

(** With an index inside the array exactly one row is flagged. *)
Lemma option_rows_one_correct qid k l :
  forall j oseq,
    (Z.of_nat j <= k < Z.of_nat j + Z.of_nat (List.length l))%Z ->
    count_correct (option_rows qid (IdxNum k) j oseq l) = 1%nat.
Proof.
  unfold count_correct.
  induction l as [|x r IH]; intros j oseq H.
  - cbn [List.length] in H. lia.
  - cbn [option_rows filter o_is_correct strict_eq_index].
    cbn [List.length] in H.
    destruct (Z.eqb (Z.of_nat j) k) eqn:E.
    + cbn [List.length]. f_equal. apply Z.eqb_eq in E.
      rewrite filter_nothing; [reflexivity|].
      intros o Ho. apply In_nth_error in Ho. destruct Ho as [n Hn].
      apply option_rows_flag in Hn. rewrite Hn. unfold strict_eq_index.
      apply Z.eqb_neq. lia.
    + apply Z.eqb_neq in E. apply IH. lia.
Qed.

(** With an index outside the array no row is flagged. *)
Lemma option_rows_none_correct qid k l :
  forall j oseq,
    (k < Z.of_nat j \/ Z.of_nat j + Z.of_nat (List.length l) <= k)%Z ->
    forall o, In o (option_rows qid (IdxNum k) j oseq l) -> o_is_correct o = false.
Proof.
  intros j oseq H o Ho. apply In_nth_error in Ho. destruct Ho as [n Hn].
  assert (n < List.length (option_rows qid (IdxNum k) j oseq l))%nat
    by (apply nth_error_Some; congruence).
  assert (List.length (option_rows qid (IdxNum k) j oseq l) = List.length l)
    by (rewrite <- (option_rows_texts qid (IdxNum k) l j oseq) at 2;
        now rewrite length_map).
  apply option_rows_flag in Hn. rewrite Hn. unfold strict_eq_index.
  apply Z.eqb_neq. lia.
Qed.

(** ** Well-formed stores *)

Lemma NoDup_map_inj (A B : Type) (f : A -> B) (l : list A) x y :
  NoDup (map f l) -> In x l -> In y l -> f x = f y -> x = y.
Proof.
  induction l as [|a r IH]; simpl; intros Hnd Hx Hy E; [contradiction|].
  inversion Hnd as [|? ? Ha Hr]; subst.
  destruct Hx as [<-|Hx], Hy as [<-|Hy]; auto.
  - exfalso. apply Ha. rewrite E. now apply in_map.
  - exfalso. apply Ha. rewrite <- E. now apply in_map.
Qed.

Lemma wf_option_below s o :
  wf s -> In o (options s) -> (o_question_id o < question_seq s)%Z.
Proof.
  intros (_ & Hlt & Hfk) Ho. apply Hfk in Ho.
  apply in_map_iff in Ho. destruct Ho as [q [<- Hq]]. now apply Hlt.
Qed.

Lemma wf_fresh_options s : wf s -> options_of s (question_seq s) = [].
Proof.
  intros Hwf. unfold options_of. apply filter_nothing. intros o Ho.
  apply Z.eqb_neq. pose proof (wf_option_below _ _ Hwf Ho). lia.
Qed.

Lemma wf_add_question v ci opts s : wf s -> wf (add_question v ci opts s).
Proof.
  intros (Hnd & Hlt & Hfk). unfold wf, add_question, add_options. simpl.
  rewrite map_app. simpl. repeat split.
  - apply NoDup_app; [assumption|repeat constructor; simpl; tauto|].
    intros a Ha [<-|[]].
    apply in_map_iff in Ha. destruct Ha as [q [E Hq]].
    apply Hlt in Hq. lia.
  - intros q Hq. apply in_app_iff in Hq. destruct Hq as [Hq|[<-|[]]].
    + apply Hlt in Hq. lia.
    + simpl. lia.
  - intros o Ho. apply in_app_iff in Ho. apply in_app_iff.
    destruct Ho as [Ho|Ho].
    + left. now apply Hfk.
    + right. apply option_rows_owner in Ho. rewrite Ho. now left.
Qed.

Lemma wf_add_record m t item s : wf s -> wf (add_record m t item s).
Proof.
  unfold add_record. destruct (invalid item); [trivial|apply wf_add_question].
Qed.

Lemma wf_add_records m t items :
  forall s, wf s -> wf (add_records m t items s).
Proof.
  induction items as [|item r IH]; simpl; intros s H; [assumption|].
  apply IH. now apply wf_add_record.
Qed.

Lemma wf_clear m t s : wf s -> wf (clear m t s).
Proof.
  intros (Hnd & Hlt & Hfk).
  unfold wf, clear, delete_partition_options, delete_options, set_options,
    set_questions. simpl. repeat split.
  - now apply NoDup_map_filter.
  - intros q Hq. apply filter_In in Hq. now apply Hlt.
  - intros o Ho. apply filter_In in Ho. destruct Ho as [Ho Hk].
    apply negb_true_iff, in_ids_false in Hk.
    apply Hfk in Ho. apply in_map_iff in Ho. destruct Ho as [q [E Hq]].
    apply in_map_iff. exists q. split; [assumption|].
    apply filter_In. split; [assumption|].
    apply negb_true_iff. destruct (in_partition m t q) eqn:Hp; [|reflexivity].
    exfalso. apply Hk. rewrite <- E. apply in_map.
    apply filter_In. now split.
Qed.

(** ** The content of a partition under the two phases *)

Lemma in_partition_values m t m' t' v s :
  v_module_id v = m -> v_topic v = Some t ->
  in_partition m' t' (fst (insert_question v s))
  = (String.eqb m m' && String.eqb t t').
Proof. intros Hm Ht. unfold in_partition. simpl. now rewrite Hm, Ht. Qed.

Lemma options_of_add_question v ci opts s qid :
  options_of (add_question v ci opts s) qid
  = options_of s qid
    ++ (if Z.eqb (question_seq s) qid
        then option_rows (question_seq s) ci 0 (option_seq s) opts else []).
Proof.
  unfold options_of, add_question, add_options. simpl.
  now rewrite filter_app, option_rows_of.
Qed.

Lemma content_of_add_question_old v ci opts s q :
  wf s -> In q (questions s) ->
  content_of (add_question v ci opts s) q = content_of s q.
Proof.
  intros (_ & Hlt & _) Hq. unfold content_of.
  rewrite options_of_add_question.
  apply Hlt in Hq.
  destruct (Z.eqb (question_seq s) (q_id q)) eqn:E.
  - apply Z.eqb_eq in E. lia.
  - now rewrite app_nil_r.
Qed.

Lemma content_of_add_question_new v ci opts s :
  wf s ->
  content_of (add_question v ci opts s) (fst (insert_question v s))
  = mkContent (v_text v) (v_difficulty v) (v_slide_reference v)
              (v_explanation v)
              (map (fun o => (o_text o, o_is_correct o))
                   (option_rows 0 ci 0 0 opts)).
Proof.
  intros Hwf. unfold content_of. rewrite options_of_add_question.
  simpl. rewrite (wf_fresh_options _ Hwf), Z.eqb_refl. simpl.
  f_equal. apply option_rows_content.
Qed.

Lemma partition_content_add_question m' t' v ci opts s :
  wf s ->
  partition_content m' t' (add_question v ci opts s)
  = partition_content m' t' s
    ++ (if in_partition m' t' (fst (insert_question v s))
        then [mkContent (v_text v) (v_difficulty v) (v_slide_reference v)
                (v_explanation v)
                (map (fun o => (o_text o, o_is_correct o))
                     (option_rows 0 ci 0 0 opts))]
        else []).
Proof.
  intros Hwf. unfold partition_content, partition.
  assert (Hq : questions (add_question v ci opts s)
               = questions s ++ [fst (insert_question v s)]) by reflexivity.
  rewrite Hq, filter_app, map_app. f_equal.
  - apply map_ext_in. intros q Hin. apply filter_In in Hin.
    apply content_of_add_question_old; tauto.
  - simpl. destruct (in_partition m' t' _); [|reflexivity].
    simpl. f_equal. now apply content_of_add_question_new.
Qed.

Lemma partition_content_add_record m t m' t' item s :
  wf s ->
  partition_content m' t' (add_record m t item s)
  = partition_content m' t' s
    ++ (if String.eqb m m' && String.eqb t t' && negb (invalid item)
        then [expected item] else []).
Proof.
  intros Hwf. unfold add_record. destruct (invalid item).
  - rewrite andb_false_r. now rewrite app_nil_r.
  - rewrite partition_content_add_question by assumption.
    rewrite andb_true_r.
    rewrite (in_partition_values m t m' t' (values_of m t item) s)
      by reflexivity.
    reflexivity.
Qed.

Lemma partition_content_add_records m t m' t' items :
  forall s,
    wf s ->
    partition_content m' t' (add_records m t items s)
    = partition_content m' t' s
      ++ (if String.eqb m m' && String.eqb t t'
          then map expected (filter (fun item => negb (invalid item)) items)
          else []).
Proof.
  induction items as [|item r IH]; intros s Hwf; simpl.
  - destruct (_ && _); now rewrite app_nil_r.
  - rewrite IH by now apply wf_add_record.
    rewrite partition_content_add_record by assumption.
    rewrite <- app_assoc. f_equal.
    destruct (String.eqb m m' && String.eqb t t'); simpl; [|reflexivity].
    destruct (invalid item); reflexivity.
Qed.

Lemma partition_clear_same m t s : partition m t (clear m t s) = [].
Proof.
  unfold partition, clear, set_questions. simpl.
  apply filter_nothing. intros q Hq. apply filter_In in Hq.
  now apply negb_true_iff.
Qed.

Lemma in_partition_key m t m' t' q :
  in_partition m t q = true -> in_partition m' t' q = true ->
  String.eqb m m' && String.eqb t t' = true.
Proof.
  unfold in_partition. destruct (q_topic q) as [tq|];
    [|rewrite andb_false_r; discriminate].
  intros H1 H2.
  apply andb_true_iff in H1. apply andb_true_iff in H2.
  destruct H1 as [A1 B1], H2 as [A2 B2].
  apply String.eqb_eq in A1, B1, A2, B2. subst.
  now rewrite !String.eqb_refl.
Qed.

Lemma partition_clear_other m t m' t' s :
  String.eqb m m' && String.eqb t t' = false ->
  partition m' t' (clear m t s) = partition m' t' s.
Proof.
  intros Hk. unfold partition, clear, set_questions. simpl.
  rewrite filter_twice. apply filter_same. intros q _.
  destruct (in_partition m t q) eqn:H1; simpl; [|reflexivity].
  destruct (in_partition m' t' q) eqn:H2; [|reflexivity].
  pose proof (in_partition_key _ _ _ _ _ H1 H2). congruence.
Qed.

Lemma options_of_clear_kept m t s q :
  wf s -> In q (questions s) -> in_partition m t q = false ->
  options_of (clear m t s) (q_id q) = options_of s (q_id q).
Proof.
  intros (Hnd & _ & _) Hq Hp.
  unfold options_of, clear, delete_partition_options, delete_options,
    set_options, set_questions. simpl.
  rewrite filter_twice. apply filter_same. intros o _.
  destruct (Z.eqb (o_question_id o) (q_id q)) eqn:E;
    [|now rewrite andb_false_r].
  rewrite andb_true_r. apply Z.eqb_eq in E. rewrite E.
  apply negb_true_iff, in_ids_false. intros Hin.
  apply in_map_iff in Hin. destruct Hin as [q' [E' Hq']].
  apply filter_In in Hq'. destruct Hq' as [Hq' Hp'].
  assert (q' = q) by (eapply NoDup_map_inj; eauto). subst. congruence.
Qed.

Lemma partition_content_clear_same m t s :
  partition_content m t (clear m t s) = [].
Proof. unfold partition_content. now rewrite partition_clear_same. Qed.

Lemma partition_content_clear_other m t m' t' s :
  wf s ->
  String.eqb m m' && String.eqb t t' = false ->
  partition_content m' t' (clear m t s) = partition_content m' t' s.
Proof.
  intros Hwf Hk. unfold partition_content.
  rewrite partition_clear_other by assumption.
  apply map_ext_in. intros q Hq. apply filter_In in Hq.
  destruct Hq as [Hq Hp]. unfold content_of.
  rewrite options_of_clear_kept; auto.
  destruct (in_partition m t q) eqn:H1; [|reflexivity].
  pose proof (in_partition_key _ _ _ _ _ H1 Hp). congruence.
Qed.

Lemma attempts_add_records m t items :
  forall s, attempts (add_records m t items s) = attempts s.
Proof.
  induction items as [|item r IH]; intros s; simpl; [reflexivity|].
  rewrite IH. unfold add_record. now destruct (invalid item).
Qed.

Lemma attempts_clear m t s : attempts (clear m t s) = attempts s.
Proof. reflexivity. Qed.

(** The content of a reseeded partition. *)
Lemma partition_content_reseed m t items s :
  wf s ->
  partition_content m t (add_records m t items (clear m t s))
  = map expected (filter (fun item => negb (invalid item)) items).
Proof.
  intros Hwf.
  rewrite partition_content_add_records by now apply wf_clear.
  now rewrite partition_content_clear_same, !String.eqb_refl.
Qed.

(** The content of any other partition after a reseed. *)
Lemma partition_content_frame m t m' t' items s :
  wf s ->
  String.eqb m m' && String.eqb t t' = false ->
  partition_content m' t' (add_records m t items (clear m t s))
  = partition_content m' t' s.
Proof.
  intros Hwf Hk.
  rewrite partition_content_add_records by now apply wf_clear.
  rewrite Hk, app_nil_r. now apply partition_content_clear_other.
Qed.

(** ** From contents to rows *)

Lemma valid_record_passes item : valid_record item = true -> invalid item = false.
Proof.
  unfold valid_record, invalid. intros H.
  apply andb_true_iff in H. destruct H as [Hq H]. rewrite Hq.
  destruct (mcq_options item); [|discriminate].
  destruct (correctIndex item); try discriminate. reflexivity.
Qed.

Lemma all_valid_pass items :
  forallb valid_record items = true ->
  filter (fun item => negb (invalid item)) items = items.
Proof.
  intros H. apply filter_all. intros item Hin.
  rewrite forallb_forall in H. apply H in Hin.
  now rewrite (valid_record_passes _ Hin).
Qed.

Lemma content_carries s item q :
  content_of s q = expected item -> carries s item q.
Proof.
  unfold content_of, expected. intros H. injection H as Ht Hd _ _ Ho.
  repeat split; try assumption.
  - apply (f_equal (map fst)) in Ho. rewrite !map_map in Ho. cbn [fst] in Ho.
    etransitivity; [exact Ho|]. apply (option_rows_texts 0).
  - intros j o Hj.
    apply (f_equal (fun l => nth_error (map snd l) j)) in Ho.
    rewrite !map_map in Ho. simpl in Ho.
    rewrite (map_nth_error _ _ _ Hj) in Ho. symmetry in Ho.
    rewrite nth_error_map in Ho.
    destruct (nth_error (option_rows 0 _ 0 0 _) j) as [o'|] eqn:E;
      [|discriminate].
    injection Ho as Ho. rewrite <- Ho.
    now apply option_rows_flag in E.
Qed.

Lemma count_correct_content (l l' : list OptionRow) :
  map (fun o => (o_text o, o_is_correct o)) l
  = map (fun o => (o_text o, o_is_correct o)) l' ->
  count_correct l = count_correct l'.
Proof.
  unfold count_correct. revert l'.
  induction l as [|o r IH]; intros [|o' r'] H; try discriminate;
    [reflexivity|].
  simpl in H. injection H as _ Hf Hr. simpl. rewrite Hf.
  destruct (o_is_correct o'); simpl; auto.
Qed.

Lemma content_one_correct s item q :
  valid_record item = true ->
  content_of s q = expected item ->
  count_correct (options_of s (q_id q)) = 1%nat.
Proof.
  unfold content_of, expected, valid_record. intros Hv H.
  injection H as _ _ _ _ Ho.
  rewrite (count_correct_content _ _ Ho).
  apply andb_true_iff in Hv. destruct Hv as [_ Hv].
  destruct (mcq_options item) as [opts|]; [|discriminate].
  destruct (correctIndex item) as [| |k]; try discriminate.
  apply option_rows_one_correct. simpl. lia.
Qed.

Lemma map_eq_Forall2 (A B C : Type) (f : A -> C) (g : B -> C)
      (R : B -> A -> Prop) (l : list A) (l' : list B) :
  map f l = map g l' ->
  (forall y x, In y l' -> f x = g y -> R y x) ->
  Forall2 R l' l.
Proof.
  revert l'. induction l as [|x r IH]; intros [|y r'] H HR; try discriminate.
  - constructor.
  - injection H as Hx Hr. constructor.
    + apply HR; [now left|assumption].
    + apply IH; [assumption|]. intros y' x' Hin. apply HR. now right.
Qed.

(** What the two phases leave in the partition for valid records. *)
Lemma reseeded_exactly m t cands s :
  wf s -> forallb valid_record cands = true ->
  seeded_exactly m t cands (add_records m t cands (clear m t s)).
Proof.
  intros Hwf Hv.
  pose proof (partition_content_reseed m t cands s Hwf) as Hc.
  rewrite all_valid_pass in Hc by assumption.
  unfold partition_content in Hc. split.
  - apply (f_equal (@List.length _)) in Hc. now rewrite !length_map in Hc.
  - rewrite forallb_forall in Hv.
    apply (map_eq_Forall2 _ _ _ _ _ _ _ _ Hc).
    intros item q Hin Hq. split.
    + now apply content_carries.
    + apply content_one_correct with (item := item); auto.
Qed.

(** What the two phases leave for a record whose index is past the end. *)
Lemma reseeded_unflagged m t cands item opts k s :
  wf s -> In item cands ->
  truthy (question item) = true ->
  mcq_options item = Some opts ->
  correctIndex item = IdxNum k ->
  (Z.of_nat (List.length opts) <= k)%Z ->
  stored_unflagged m t item opts (add_records m t cands (clear m t s)).
Proof.
  intros Hwf Hin Hq Ho Hc Hk.
  assert (Hpass : invalid item = false)
    by (unfold invalid; now rewrite Hq, Ho, Hc).
  pose proof (partition_content_reseed m t cands s Hwf) as Hcont.
  assert (Hexp : In (expected item)
                    (partition_content m t (add_records m t cands (clear m t s)))).
  { rewrite Hcont. apply in_map. apply filter_In. split; [assumption|].
    now rewrite Hpass. }
  unfold partition_content in Hexp. apply in_map_iff in Hexp.
  destruct Hexp as [q [Hcq Hpq]]. exists q. split; [assumption|].
  destruct (content_carries _ _ _ Hcq) as (Ht & _ & Htexts & Hflags).
  rewrite Ho in Htexts. simpl in Htexts.
  assert (Hnone : forall o,
             In o (options_of (add_records m t cands (clear m t s)) (q_id q)) ->
             o_is_correct o = false).
  { intros o Hino. apply In_nth_error in Hino. destruct Hino as [j Hj].
    assert (Hlt : (j < List.length opts)%nat).
    { rewrite <- Htexts, length_map. apply nth_error_Some. congruence. }
    rewrite (Hflags j o Hj), Hc. unfold strict_eq_index.
    apply Z.eqb_neq. lia. }
  repeat split; try assumption.
  unfold count_correct. now rewrite filter_nothing.
Qed.

(** ** Rules for runs with rejected statements *)

Lemma hoare_conseq (A : Type) (P P' : assertion) (m : M A)
      (Q Q' : result A -> assertion) :
  hoare P' m Q' ->
  (forall s tx, P s tx -> P' s tx) ->
  (forall r s tx, Q' r s tx -> Q r s tx) ->
  hoare P m Q.
Proof. unfold hoare. intros H HP HQ c Hc. apply HQ, H, HP, Hc. Qed.

Lemma hoare_assume (A : Type) (phi : Prop) (P : assertion) (m : M A)
      (Q : result A -> assertion) :
  (phi -> hoare P m Q) -> hoare (fun s tx => phi /\ P s tx) m Q.
Proof. unfold hoare. intros H c [Hphi Hc]. now apply H. Qed.

Lemma hoare_ret (A : Type) (P : assertion) (a : A) (Q : result A -> assertion) :
  (forall s tx, P s tx -> Q (Ok a) s tx) -> hoare P (ret a) Q.
Proof. unfold hoare, ret. simpl. auto. Qed.

Lemma hoare_throw (A : Type) (P : assertion) (Q : result A -> assertion) :
  (forall s tx, P s tx -> Q Thrown s tx) -> hoare P (throw A) Q.
Proof. unfold hoare, throw. simpl. auto. Qed.

Lemma hoare_console (P : assertion) (msg : string)
      (Q : result unit -> assertion) :
  (forall s tx, P s tx -> Q (Ok tt) s tx) -> hoare P (console_warn msg) Q.
Proof. unfold hoare, console_warn. simpl. auto. Qed.

Lemma hoare_bind (A B : Type) (P : assertion) (m : M A) (k : A -> M B)
      (Q : result A -> assertion) (R : result B -> assertion) :
  hoare P m Q ->
  (forall a, hoare (Q (Ok a)) (k a) R) ->
  (forall s tx, Q Thrown s tx -> R Thrown s tx) ->
  hoare P (bind m k) R.
Proof.
  unfold hoare, bind. intros Hm Hk Ht c Hc. specialize (Hm c Hc).
  destruct (m c) as [[a|] c1]; simpl in *.
  - now apply Hk.
  - now apply Ht.
Qed.

Lemma hoare_try_catch (A : Type) (P : assertion) (body handler : M A)
      (Q R : result A -> assertion) :
  hoare P body Q ->
  (forall a s tx, Q (Ok a) s tx -> R (Ok a) s tx) ->
  hoare (Q Thrown) handler R ->
  hoare P (try_catch body handler) R.
Proof.
  unfold hoare, try_catch. intros Hb Hok Hh c Hc. specialize (Hb c Hc).
  destruct (body c) as [[a|] c1]; simpl in *.
  - now apply Hok.
  - now apply Hh.
Qed.

Lemma hoare_await (A : Type) (P : assertion) (run : Conn -> A * Conn)
      (Q : result A -> assertion) :
  (forall s tx, P s tx -> Q Thrown s tx) ->
  (forall c, P (store c) (txn c) ->
             Q (Ok (fst (run c))) (store (snd (run c))) (txn (snd (run c)))) ->
  hoare P (await run) Q.
Proof.
  unfold hoare, await. intros Ht Hr c Hc.
  destruct (faults c) as [|[|] rest].
  - specialize (Hr c Hc). destruct (run c). exact Hr.
  - simpl. now apply Ht.
  - specialize (Hr (mkConn (store c) (txn c) rest (stderr c)) Hc).
    destruct (run _). exact Hr.
Qed.

Lemma hoare_query (A : Type) (P : assertion) (stmt : Store -> A * Store)
      (Q : result A -> assertion) :
  (forall s tx, P s tx -> Q Thrown s tx) ->
  (forall s tx, P s tx -> Q (Ok (fst (stmt s))) (snd (stmt s)) tx) ->
  hoare P (query stmt) Q.
Proof.
  intros Ht Hr. apply hoare_await; [assumption|].
  intros c Hc. specialize (Hr _ _ Hc). destruct (stmt (store c)). exact Hr.
Qed.

Lemma hoare_connect (P : assertion) (Q : result unit -> assertion) :
  (forall s tx, P s tx -> Q Thrown s tx) ->
  (forall s tx, P s tx -> Q (Ok tt) s tx) ->
  hoare P connect Q.
Proof. intros Ht Hr. apply hoare_await; auto. Qed.

Lemma hoare_BEGIN (P : assertion) (Q : result unit -> assertion) :
  (forall s tx, P s tx -> Q Thrown s tx) ->
  (forall s tx, P s tx -> Q (Ok tt) s (begun s tx)) ->
  hoare P BEGIN Q.
Proof.
  intros Ht Hr. apply hoare_await; [assumption|].
  intros c Hc. specialize (Hr _ _ Hc). simpl.
  unfold begun in Hr. now destruct (txn c).
Qed.

Lemma hoare_COMMIT (P : assertion) (Q : result unit -> assertion) :
  (forall s tx, P s tx -> Q Thrown s tx) ->
  (forall s tx, P s tx -> Q (Ok tt) s None) ->
  hoare P COMMIT Q.
Proof. intros Ht Hr. apply hoare_await; [assumption|]. intros c Hc. simpl. eauto. Qed.

Lemma hoare_ROLLBACK (P : assertion) (Q : result unit -> assertion) :
  (forall s tx, P s tx -> Q Thrown s tx) ->
  (forall s tx, P s tx -> Q (Ok tt) (snapshot s tx) None) ->
  hoare P ROLLBACK Q.
Proof.
  intros Ht Hr. apply hoare_await; [assumption|].
  intros c Hc. specialize (Hr _ _ Hc). simpl.
  unfold snapshot in Hr. unfold committed. now destruct (txn c).
Qed.

(** Loops: an invariant of the iterations, and what holds once an
    iteration has thrown. *)
Lemma hoare_for_of (A : Type) (I E : assertion) (l : list A)
      (body : A -> M unit) :
  (forall x, In x l ->
             hoare I (body x)
                   (fun r => match r with Ok _ => I | Thrown => E end)) ->
  hoare I (for_of l body)
        (fun r => match r with Ok _ => I | Thrown => E end).
Proof.
  induction l as [|x r IH]; intros Hb; simpl.
  - apply hoare_ret. auto.
  - eapply hoare_bind.
    + apply Hb. now left.
    + intros []. apply IH. intros y Hy. apply Hb. now right.
    + auto.
Qed.

Lemma hoare_for_index (A : Type) (I E : assertion) (l : list A)
      (body : nat -> A -> M unit) :
  (forall j x, In x l ->
               hoare I (body j x)
                     (fun r => match r with Ok _ => I | Thrown => E end)) ->
  forall j,
    hoare I (for_index j l body)
          (fun r => match r with Ok _ => I | Thrown => E end).
Proof.
  induction l as [|x r IH]; intros Hb j; simpl.
  - apply hoare_ret. auto.
  - eapply hoare_bind.
    + apply Hb. now left.
    + intros []. apply IH. intros j' y Hy. apply Hb. now right.
    + auto.
Qed.

Lemma hoare_for_acc (A S : Type) (I E : assertion) (l : list A)
      (body : A -> S -> M S) :
  (forall x acc, In x l ->
                 hoare I (body x acc)
                       (fun r => match r with Ok _ => I | Thrown => E end)) ->
  forall acc,
    hoare I (for_acc l body acc)
          (fun r => match r with Ok _ => I | Thrown => E end).
Proof.
  induction l as [|x r IH]; intros Hb acc; simpl.
  - apply hoare_ret. auto.
  - eapply hoare_bind.
    + apply Hb. now left.
    + intros acc'. apply IH. intros y a Hy. apply Hb. now right.
    + auto.
Qed.

Lemma hoare_for_batches (A S : Type) (I E : assertion) (data : list A)
      (body : A -> S -> M S) (batchSize : nat) :
  (forall x acc, In x data ->
                 hoare I (body x acc)
                       (fun r => match r with Ok _ => I | Thrown => E end)) ->
  forall fuel i acc,
    hoare I (for_batches fuel batchSize data body i acc)
          (fun r => match r with Ok _ => I | Thrown => E end).
Proof.
  intros Hb. induction fuel as [|fuel IH]; intros i acc; simpl.
  - apply hoare_ret. auto.
  - destruct (i <? List.length data)%nat.
    + eapply hoare_bind.
      * apply hoare_for_acc. intros x a Hx. apply Hb.
        eapply in_slice, Hx.
      * intros acc'. apply IH.
      * auto.
    + apply hoare_ret. auto.
Qed.

(** ** Assertions kept by a script *)

Lemma keeps_ret (A : Type) (I : assertion) (a : A) : keeps I (ret a).
Proof. apply hoare_ret. auto. Qed.

Lemma keeps_throw (A : Type) (I : assertion) : keeps I (throw A).
Proof. apply hoare_throw. auto. Qed.

Lemma keeps_console (I : assertion) (msg : string) : keeps I (console_warn msg).
Proof. apply hoare_console. auto. Qed.

Lemma keeps_console_error (I : assertion) (msg : string) :
  keeps I (console_error msg).
Proof. apply keeps_console. Qed.

Lemma keeps_bind (A B : Type) (I : assertion) (m : M A) (k : A -> M B) :
  keeps I m -> (forall a, keeps I (k a)) -> keeps I (bind m k).
Proof. intros Hm Hk. eapply hoare_bind; eauto. Qed.

Lemma keeps_try_catch (A : Type) (I : assertion) (body handler : M A) :
  keeps I body -> keeps I handler -> keeps I (try_catch body handler).
Proof. intros Hb Hh. eapply hoare_try_catch; eauto. Qed.

Lemma keeps_query (A : Type) (J : Store -> Prop) (stmt : Store -> A * Store) :
  (forall s, J s -> J (snd (stmt s))) -> keeps (lift J) (query stmt).
Proof.
  intros H. apply hoare_query; [auto|].
  unfold lift. intros s [x|] [Hs Hx]; auto.
Qed.

Lemma keeps_connect (I : assertion) : keeps I connect.
Proof. apply hoare_connect; auto. Qed.

Lemma keeps_BEGIN (J : Store -> Prop) :
  (forall x s', J x -> J (with_sequences x s')) -> keeps (lift J) BEGIN.
Proof.
  intros Hj. apply hoare_BEGIN; [auto|]. unfold lift, begun.
  intros s [x|] [Hs Hx]; auto.
Qed.

Lemma keeps_COMMIT (J : Store -> Prop) : keeps (lift J) COMMIT.
Proof.
  apply hoare_COMMIT; [auto|]. unfold lift. intros s tx [Hs Hx]; auto.
Qed.

Lemma keeps_ROLLBACK (J : Store -> Prop) : keeps (lift J) ROLLBACK.
Proof.
  apply hoare_ROLLBACK; [auto|]. unfold lift, snapshot.
  intros s [x|] [Hs Hx]; auto.
Qed.

Lemma keeps_for_of (A : Type) (I : assertion) (l : list A) (body : A -> M unit) :
  (forall x, keeps I (body x)) -> keeps I (for_of l body).
Proof.
  intros Hb. eapply hoare_conseq.
  - apply (hoare_for_of A I I). intros x _.
    eapply hoare_conseq; [apply (Hb x)|auto|]. intros []; auto.
  - auto.
  - intros []; auto.
Qed.

Lemma keeps_for_index (A : Type) (I : assertion) (l : list A)
      (body : nat -> A -> M unit) (j : nat) :
  (forall j x, keeps I (body j x)) -> keeps I (for_index j l body).
Proof.
  intros Hb. eapply hoare_conseq.
  - apply (hoare_for_index A I I). intros j' x _.
    eapply hoare_conseq; [apply (Hb j' x)|auto|]. intros []; auto.
  - auto.
  - intros []; auto.
Qed.

Lemma keeps_for_acc (A S : Type) (I : assertion) (l : list A)
      (body : A -> S -> M S) (acc : S) :
  (forall x acc, keeps I (body x acc)) -> keeps I (for_acc l body acc).
Proof.
  intros Hb. eapply hoare_conseq.
  - apply (hoare_for_acc A S I I). intros x a _.
    eapply hoare_conseq; [apply (Hb x a)|auto|]. intros []; auto.
  - auto.
  - intros []; auto.
Qed.

Lemma keeps_for_batches (A S : Type) (I : assertion) (data : list A)
      (body : A -> S -> M S) (batchSize fuel i : nat) (acc : S) :
  (forall x acc, keeps I (body x acc)) ->
  keeps I (for_batches fuel batchSize data body i acc).
Proof.
  intros Hb. eapply hoare_conseq.
  - apply (hoare_for_batches A S I I). intros x a _.
    eapply hoare_conseq; [apply (Hb x a)|auto|]. intros []; auto.
  - auto.
  - intros []; auto.
Qed.

(** The structural steps of a proof that a script keeps [lift J]. *)
Ltac keeps_step :=
  first
    [ apply keeps_ret
    | apply keeps_throw
    | apply keeps_console_error
    | apply keeps_console
    | apply keeps_connect
    | apply keeps_BEGIN; [intros ? ? H; exact H]
    | apply keeps_COMMIT
    | apply keeps_ROLLBACK
    | apply keeps_bind; [|intros ?]
    | apply keeps_try_catch
    | apply keeps_for_of; intros ?
    | apply keeps_for_index; intros ? ?
    | apply keeps_for_acc; intros ? ?
    | apply keeps_for_batches; intros ? ?
    | apply keeps_query ].

(** ** Difficulty of the inserted questions *)

Lemma medium_insert_question old v s :
  v_difficulty v = 2%Z ->
  old_or_medium old s -> old_or_medium old (snd (insert_question v s)).
Proof.
  intros Hv H q Hq. simpl in Hq. apply in_app_iff in Hq.
  destruct Hq as [Hq|[<-|[]]]; [auto|]. now right.
Qed.

Lemma medium_same_questions old s s' :
  incl (questions s') (questions s) ->
  old_or_medium old s -> old_or_medium old s'.
Proof. intros Hi H q Hq. apply H, Hi, Hq. Qed.

Lemma medium_insert_option old qid text b s :
  old_or_medium old s -> old_or_medium old (snd (insert_option qid text b s)).
Proof. apply medium_same_questions. simpl. apply incl_refl. Qed.

Lemma medium_delete_options old p s :
  old_or_medium old s -> old_or_medium old (snd (delete_options p s)).
Proof. apply medium_same_questions. simpl. apply incl_refl. Qed.

Lemma medium_delete_partition_options old m t s :
  old_or_medium old s -> old_or_medium old (snd (delete_partition_options m t s)).
Proof. apply medium_delete_options. Qed.

Lemma medium_delete_questions old p s :
  old_or_medium old s -> old_or_medium old (snd (delete_questions p s)).
Proof.
  apply medium_same_questions. simpl. intros q Hq.
  now apply filter_In in Hq.
Qed.

Lemma medium_select_questions old p s :
  old_or_medium old s -> old_or_medium old (snd (select_questions p s)).
Proof. auto. Qed.

Ltac medium_stmt :=
  first
    [ apply medium_insert_question; reflexivity
    | apply medium_insert_option
    | apply medium_delete_partition_options
    | apply medium_delete_options
    | apply medium_delete_questions
    | apply medium_select_questions ].

Ltac medium :=
  repeat (first [keeps_step | intros ?; keeps_step];
          try (intros ?; medium_stmt)).

Lemma medium_import_ts old bs m t data :
  keeps (lift (old_or_medium old)) (ImportTs.importQuestions_with bs m t data).
Proof.
  unfold ImportTs.importQuestions_with. apply keeps_for_batches.
  intros item n. unfold ImportTs.import_item.
  apply keeps_try_catch; [|medium].
  destruct (invalid item); medium.
Qed.

Lemma medium_import_mcq old m t data :
  keeps (lift (old_or_medium old)) (ImportMCQ.importQuestionsForTopic m t data).
Proof.
  unfold ImportMCQ.importQuestionsForTopic. apply keeps_for_batches.
  intros item n. unfold ImportMCQ.import_item.
  apply keeps_try_catch; [|medium].
  destruct (invalid item); medium.
Qed.

Lemma medium_import_server old m data :
  keeps (lift (old_or_medium old)) (ServerImportQuestions.importQuestions m data).
Proof.
  unfold ServerImportQuestions.importQuestions. apply keeps_for_of.
  intros item. unfold ServerImportQuestions.import_item.
  apply keeps_try_catch.
  - apply keeps_bind; [medium|]. intros q.
    destruct (mcq_options item); [|medium].
    apply keeps_bind; [medium|]. intros _.
    destruct (question item); medium.
  - unfold ServerImportQuestions.report. destruct (question item); medium.
Qed.

Lemma medium_import_module_js old m t data bs :
  keeps (lift (old_or_medium old)) (ImportModuleJs.importQuestions m t data bs).
Proof.
  unfold ImportModuleJs.importQuestions, ImportModuleJs.clear_partition.
  apply keeps_try_catch; [|medium].
  apply keeps_bind; [medium|]. intros _.
  apply keeps_try_catch; [|medium].
  apply keeps_bind; [medium|]. intros _.
  apply keeps_bind; [|medium].
  apply keeps_for_of. intros j. unfold ImportModuleJs.import_batch.
  apply keeps_bind; [medium|]. intros _.
  apply keeps_bind; [|medium].
  apply keeps_for_index. intros i item. unfold ImportModuleJs.import_item.
  destruct (invalid item); medium.
Qed.

Lemma medium_import_direct_sql old data :
  keeps (lift (old_or_medium old)) (DirectSqlFocs2.main data).
Proof.
  unfold DirectSqlFocs2.main.
  apply keeps_try_catch; [|medium].
  destruct (List.length data =? 0)%nat; [medium|].
  apply keeps_bind; [medium|]. intros _.
  apply keeps_bind; [|medium].
  apply keeps_try_catch; [|medium].
  apply keeps_bind; [medium|]. intros _.
  apply keeps_bind; [medium|]. intros _.
  apply keeps_bind; [medium|]. intros _.
  apply keeps_bind; [|medium].
  apply keeps_for_batches. intros item n. unfold DirectSqlFocs2.import_item.
  destruct (invalid item); medium.
Qed.

Lemma medium_start c :
  lift (old_or_medium (questions (store c) ++ questions (committed c)))
       (store c) (txn c).
Proof.
  unfold lift, old_or_medium, committed.
  destruct (txn c) as [x|]; (split; [|try intros s'; auto]);
    intros q Hq; left; apply in_app_iff; auto.
Qed.

(** ** The frame of a reseed *)

Lemma wf_wf_keys s : wf s -> wf_keys s.
Proof.
  intros Hwf. pose proof Hwf as (Hnd & Hlt & _). repeat split; auto.
  intros o Ho. now apply wf_option_below.
Qed.

Lemma other_partition m t m' t' q :
  String.eqb m m' && String.eqb t t' = false ->
  in_partition m t q = true -> in_partition m' t' q = false.
Proof.
  intros Hk H. destruct (in_partition m' t' q) eqn:H'; [|reflexivity].
  pose proof (in_partition_key _ _ _ _ _ H H'). congruence.
Qed.

Lemma framed_row_differs m t s0 s q q2 :
  framed m t s0 s -> In q (questions s) -> in_partition m t q = false ->
  In q2 (partition m t s0) -> q_id q <> q_id q2.
Proof.
  intros ((Hnd & _ & _) & Hp & _) Hq Hout Hq2 E.
  rewrite <- Hp in Hq2. apply filter_In in Hq2. destruct Hq2 as [Hq2 Hin].
  assert (q = q2) by (eapply NoDup_map_inj; eauto). subst. congruence.
Qed.

Lemma framed_delete_options m t s0 s q :
  framed m t s0 s -> In q (questions s) -> in_partition m t q = false ->
  framed m t s0
         (snd (delete_options (fun o => Z.eqb (o_question_id o) (q_id q)) s)).
Proof.
  intros H Hq Hout. pose proof H as ((Hnd & Hlt & Hol) & Hp & Ho).
  unfold framed, wf_keys, delete_options, set_options.
  simpl. repeat split; auto.
  - intros o Hin. apply filter_In in Hin. now apply Hol.
  - intros q2 Hq2. rewrite <- (Ho q2 Hq2). unfold options_of. simpl.
    rewrite filter_twice. apply filter_same. intros o _.
    destruct (Z.eqb (o_question_id o) (q_id q2)) eqn:E;
      [|now rewrite andb_false_r].
    rewrite andb_true_r. apply Z.eqb_eq in E. rewrite E.
    apply negb_true_iff, Z.eqb_neq. intros E'.
    now apply (framed_row_differs _ _ _ _ _ _ H Hq Hout Hq2).
Qed.

Lemma framed_delete_questions m t m' t' s0 s :
  String.eqb m m' && String.eqb t t' = false ->
  framed m' t' s0 s ->
  framed m' t' s0 (snd (delete_questions (in_partition m t) s)).
Proof.
  intros Hk ((Hnd & Hlt & Hol) & Hp & Ho).
  unfold framed, wf_keys, delete_questions, set_questions.
  simpl. repeat split; auto.
  - now apply NoDup_map_filter.
  - intros q Hq. apply filter_In in Hq. now apply Hlt.
  - rewrite <- Hp. unfold partition. simpl. rewrite filter_twice.
    apply filter_same. intros q _.
    destruct (in_partition m t q) eqn:H1; [|reflexivity].
    simpl. symmetry. eapply other_partition; eauto.
Qed.

Lemma framed_insert_question m t m' t' v s0 s :
  String.eqb m m' && String.eqb t t' = false ->
  v_module_id v = m -> v_topic v = Some t ->
  framed m' t' s0 s ->
  framed m' t' s0 (snd (insert_question v s)) /\
  In (fst (insert_question v s)) (questions (snd (insert_question v s))) /\
  in_partition m' t' (fst (insert_question v s)) = false.
Proof.
  intros Hk Hm Ht ((Hnd & Hlt & Hol) & Hp & Ho).
  assert (Hout : in_partition m' t' (fst (insert_question v s)) = false)
    by (rewrite (in_partition_values m t m' t' v s Hm Ht); exact Hk).
  split; [|split; [simpl; apply in_or_app; right; now left|exact Hout]].
  unfold framed, wf_keys. simpl. repeat split.
  - rewrite map_app. simpl.
    apply NoDup_app; [assumption|repeat constructor; simpl; tauto|].
    intros a Ha [<-|[]].
    apply in_map_iff in Ha. destruct Ha as [q [E Hq]].
    apply Hlt in Hq. lia.
  - intros q Hq. apply in_app_iff in Hq. destruct Hq as [Hq|[<-|[]]].
    + apply Hlt in Hq. lia.
    + simpl. lia.
  - intros o Hin. apply Hol in Hin. lia.
  - rewrite <- Hp. unfold partition. simpl.
    rewrite filter_app. simpl. simpl in Hout. rewrite Hout.
    now rewrite app_nil_r.
  - exact Ho.
Qed.

Lemma framed_insert_option m t s0 s q text b :
  framed m t s0 s -> In q (questions s) -> in_partition m t q = false ->
  framed m t s0 (snd (insert_option (q_id q) text b s)).
Proof.
  intros H Hq Hout. pose proof H as ((Hnd & Hlt & Hol) & Hp & Ho).
  unfold framed, wf_keys. simpl. repeat split; auto.
  - intros o Hin. apply in_app_iff in Hin. destruct Hin as [Hin|[<-|[]]].
    + now apply Hol.
    + simpl. now apply Hlt.
  - intros q2 Hq2. rewrite <- (Ho q2 Hq2). unfold options_of. simpl.
    rewrite filter_app. simpl.
    destruct (Z.eqb (q_id q) (q_id q2)) eqn:E.
    + apply Z.eqb_eq in E.
      now destruct (framed_row_differs _ _ _ _ _ _ H Hq Hout Hq2).
    + now rewrite app_nil_r.
Qed.

Lemma frame_deleteExistingQuestions m t m' t' s0 :
  String.eqb m m' && String.eqb t t' = false ->
  keeps (fun s _ => framed m' t' s0 s) (ImportTs.deleteExistingQuestions m t).
Proof.
  intros Hk. unfold keeps, ImportTs.deleteExistingQuestions.
  eapply hoare_bind with
    (Q := fun r s _ =>
            framed m' t' s0 s /\
            match r with
            | Ok qs => forall q, In q qs ->
                                 In q (questions s) /\ in_partition m' t' q = false
            | Thrown => True
            end).
  - apply hoare_query; [auto|]. intros s tx H. simpl. split; [assumption|].
    intros q Hq. apply filter_In in Hq. destruct Hq as [Hq Hp].
    split; [assumption|]. eapply other_partition; eauto.
  - intros qs. destruct (List.length qs =? 0)%nat.
    + apply hoare_ret. tauto.
    + eapply hoare_bind with
        (Q := fun _ s _ => framed m' t' s0 s).
      * eapply hoare_conseq.
        -- apply (hoare_for_of _
                    (fun s (_ : option Store) =>
                       framed m' t' s0 s /\
                       forall q, In q qs ->
                                 In q (questions s)
                                 /\ in_partition m' t' q = false)
                    (fun s _ => framed m' t' s0 s)).
           intros q Hq. apply hoare_query; [tauto|].
           intros s tx [H Hqs]. split.
           ++ apply framed_delete_options; auto; now apply Hqs.
           ++ exact Hqs.
        -- auto.
        -- intros [[]|] s tx; tauto.
      * intros _. eapply hoare_bind with (Q := fun _ s _ => framed m' t' s0 s).
        -- apply hoare_query; [auto|]. intros s tx H.
           now apply framed_delete_questions.
        -- intros _. apply hoare_ret. auto.
        -- auto.
      * auto.
  - tauto.
Qed.

Lemma frame_import_item m t m' t' s0 item n :
  String.eqb m m' && String.eqb t t' = false ->
  keeps (fun s _ => framed m' t' s0 s) (ImportTs.import_item m t item n).
Proof.
  intros Hk. unfold keeps, ImportTs.import_item.
  apply hoare_try_catch with (Q := fun _ s _ => framed m' t' s0 s); auto.
  - destruct (invalid item).
    + eapply hoare_bind with (Q := fun _ s _ => framed m' t' s0 s); auto.
      * apply hoare_console. auto.
      * intros _. apply hoare_ret. auto.
    + eapply hoare_bind with
        (Q := fun r s _ =>
                framed m' t' s0 s /\
                match r with
                | Ok q => In q (questions s) /\ in_partition m' t' q = false
                | Thrown => True
                end).
      * apply hoare_query; [auto|]. intros s tx H.
        apply (framed_insert_question m t m' t'); auto.
      * intros q.
        eapply hoare_bind with (Q := fun _ s _ => framed m' t' s0 s); auto.
        -- eapply hoare_conseq.
           ++ apply (hoare_for_index _
                       (fun s (_ : option Store) =>
                          framed m' t' s0 s /\ In q (questions s)
                          /\ in_partition m' t' q = false)
                       (fun s _ => framed m' t' s0 s)).
              intros j text _. apply hoare_query; [tauto|].
              intros s tx (H & Hq & Hout).
              split; [now apply framed_insert_option|simpl; auto].
           ++ auto.
           ++ intros [[]|] s tx; tauto.
        -- intros _. apply hoare_ret. auto.
      * tauto.
  - eapply hoare_bind with (Q := fun _ s _ => framed m' t' s0 s); auto.
    + apply hoare_console. auto.
    + intros _. apply hoare_ret. auto.
Qed.

Lemma frame_processModule m t m' t' s0 items :
  String.eqb m m' && String.eqb t t' = false ->
  keeps (fun s _ => framed m' t' s0 s) (ImportTs.processModule m t items).
Proof.
  intros Hk. unfold ImportTs.processModule.
  destruct (List.length items =? 0)%nat.
  - apply keeps_bind; [apply keeps_console|intros; apply keeps_ret].
  - apply keeps_bind; [now apply frame_deleteExistingQuestions|]. intros _.
    apply keeps_bind; [|intros; apply keeps_ret].
    apply keeps_for_batches. intros item n. now apply frame_import_item.
Qed.

Lemma framed_refl m t s : wf s -> framed m t s s.
Proof. intros H. split; [now apply wf_wf_keys|]. split; auto. Qed.

Lemma framed_content m t s0 s :
  framed m t s0 s -> partition_content m t s = partition_content m t s0.
Proof.
  intros (_ & Hp & Ho). unfold partition_content. rewrite Hp.
  apply map_ext_in. intros q Hq. unfold content_of. now rewrite Ho.
Qed.

Lemma key_differs m t m' t' :
  (m, t) <> (m', t') -> String.eqb m m' && String.eqb t t' = false.
Proof.
  intros H. destruct (String.eqb_spec m m'); [|reflexivity].
  destruct (String.eqb_spec t t'); [|reflexivity]. subst. congruence.
Qed.

(** ** Referential integrity of the options during a reseed *)

(** A loop whose invariant speaks of the elements already visited. *)
Lemma hoare_for_of_visited (A : Type) (I : list A -> assertion) (E : assertion)
      (body : A -> M unit) (l : list A) :
  forall visited,
    (forall done x, (exists rest, visited ++ l = done ++ x :: rest) ->
                    hoare (I done) (body x)
                          (fun r => match r with
                                    | Ok _ => I (done ++ [x])
                                    | Thrown => E
                                    end)) ->
    hoare (I visited) (for_of l body)
          (fun r => match r with Ok _ => I (visited ++ l) | Thrown => E end).
Proof.
  induction l as [|x r IH]; intros visited Hb; simpl.
  - apply hoare_ret. intros s tx H. now rewrite app_nil_r.
  - eapply hoare_bind.
    + apply Hb. now exists r.
    + intros []. eapply hoare_conseq.
      * apply (IH (visited ++ [x])). intros done y [rest E'].
        apply Hb. exists rest. rewrite <- E', <- app_assoc. reflexivity.
      * auto.
      * intros [[]|] s tx; [|auto]. now rewrite <- app_assoc.
    + auto.
Qed.

Lemma wf_delete_options p s : wf s -> wf (snd (delete_options p s)).
Proof.
  intros (Hnd & Hlt & Hfk). unfold wf. simpl. repeat split; auto.
  intros o Ho. apply filter_In in Ho. now apply Hfk.
Qed.

Lemma wf_insert_question v s : wf s -> wf (snd (insert_question v s)).
Proof.
  intros H. pose proof (wf_add_question v IdxUndefined [] s H) as H'.
  unfold add_question in H'. now rewrite add_options_nil in H'.
Qed.

Lemma wf_insert_option q text b s :
  wf s -> In q (questions s) -> wf (snd (insert_option (q_id q) text b s)).
Proof.
  intros (Hnd & Hlt & Hfk) Hq. unfold wf. simpl. repeat split; auto.
  intros o Ho. apply in_app_iff in Ho. destruct Ho as [Ho|[<-|[]]].
  - now apply Hfk.
  - simpl. now apply in_map.
Qed.

(** Deleting the questions of a partition is safe once none of them has
    an option left. *)
Lemma wf_delete_questions m t s :
  wf s ->
  (forall q, In q (partition m t s) -> options_of s (q_id q) = []) ->
  wf (snd (delete_questions (in_partition m t) s)).
Proof.
  intros (Hnd & Hlt & Hfk) Hno. unfold wf. simpl. repeat split.
  - now apply NoDup_map_filter.
  - intros q Hq. apply filter_In in Hq. now apply Hlt.
  - intros o Ho. pose proof (Hfk o Ho) as Hin.
    apply in_map_iff in Hin. destruct Hin as [q [E Hq]].
    apply in_map_iff. exists q. split; [assumption|].
    apply filter_In. split; [assumption|].
    apply negb_true_iff. destruct (in_partition m t q) eqn:Hp; [|reflexivity].
    exfalso.
    assert (Hin : In o (options_of s (q_id q))).
    { apply filter_In. split; [assumption|]. apply Z.eqb_eq. auto. }
    rewrite Hno in Hin; [contradiction|]. apply filter_In. now split.
Qed.

Lemma options_of_delete_options s qid qid' :
  options_of
    (snd (delete_options (fun o => Z.eqb (o_question_id o) qid) s)) qid'
  = if Z.eqb qid' qid then [] else options_of s qid'.
Proof.
  unfold options_of. simpl. rewrite filter_twice.
  destruct (Z.eqb qid' qid) eqn:E.
  - apply Z.eqb_eq in E. subst. apply filter_nothing. intros o _.
    now destruct (Z.eqb (o_question_id o) qid).
  - apply filter_same. intros o _.
    destruct (Z.eqb (o_question_id o) qid') eqn:E';
      [|now rewrite andb_false_r].
    apply Z.eqb_eq in E'. rewrite E', E. reflexivity.
Qed.

Lemma integrity_deleteExistingQuestions m t A0 :
  keeps (fun s _ => wf s /\ attempts s = A0)
        (ImportTs.deleteExistingQuestions m t).
Proof.
  unfold keeps, ImportTs.deleteExistingQuestions.
  eapply hoare_bind with
    (Q := fun r s _ =>
            (wf s /\ attempts s = A0) /\
            match r with
            | Ok qs => qs = partition m t s
            | Thrown => True
            end).
  - apply hoare_query; [auto|]. intros s tx H. simpl. auto.
  - intros qs. destruct (List.length qs =? 0)%nat.
    + apply hoare_ret. tauto.
    + eapply hoare_bind with
        (Q := fun r s _ =>
                (wf s /\ attempts s = A0) /\
                match r with
                | Ok _ => forall q, In q (partition m t s) ->
                                    options_of s (q_id q) = []
                | Thrown => True
                end).
      * eapply hoare_conseq.
        -- apply (hoare_for_of_visited _
                    (fun visited s (_ : option Store) =>
                       (wf s /\ attempts s = A0) /\ qs = partition m t s /\
                       forall q, In q visited -> options_of s (q_id q) = [])
                    (fun s _ => wf s /\ attempts s = A0)
                    _ qs []).
           intros done q _. apply hoare_query; [tauto|].
           intros s tx ((Hwf & Ha) & Hqs & Hdone).
           split; [split; [now apply wf_delete_options|exact Ha]|].
           split; [exact Hqs|].
           intros q' Hq'.
           rewrite options_of_delete_options.
           destruct (Z.eqb (q_id q') (q_id q)) eqn:E; [reflexivity|].
           apply in_app_iff in Hq'. destruct Hq' as [Hq'|[<-|[]]].
           ++ now apply Hdone.
           ++ now rewrite Z.eqb_refl in E.
        -- simpl. intros s tx [H E].
           split; [assumption|]. split; [assumption|]. intros q [].
        -- simpl. intros [[]|] s tx; [|tauto].
           intros (H & Hqs & Hdone). split; [assumption|].
           intros q Hq. apply Hdone. now rewrite Hqs.
      * intros _.
        eapply hoare_bind with (Q := fun _ s _ => wf s /\ attempts s = A0).
        -- apply hoare_query; [tauto|]. intros s tx ((Hwf & Ha) & Hno).
           split; [now apply wf_delete_questions|exact Ha].
        -- intros _. apply hoare_ret. auto.
        -- auto.
      * tauto.
  - tauto.
Qed.

Lemma integrity_import_item m t A0 item n :
  keeps (fun s _ => wf s /\ attempts s = A0) (ImportTs.import_item m t item n).
Proof.
  unfold keeps, ImportTs.import_item.
  apply hoare_try_catch with (Q := fun _ s _ => wf s /\ attempts s = A0); auto.
  - destruct (invalid item).
    + eapply hoare_bind with (Q := fun _ s _ => wf s /\ attempts s = A0); auto.
      * apply hoare_console. auto.
      * intros _. apply hoare_ret. auto.
    + eapply hoare_bind with
        (Q := fun r s _ =>
                (wf s /\ attempts s = A0) /\
                match r with
                | Ok q => In q (questions s)
                | Thrown => True
                end).
      * apply hoare_query; [auto|]. intros s tx [Hwf Ha].
        split; [split; [now apply wf_insert_question|exact Ha]|].
        simpl. apply in_or_app. right. now left.
      * intros q.
        eapply hoare_bind with (Q := fun _ s _ => wf s /\ attempts s = A0);
          auto.
        -- eapply hoare_conseq.
           ++ apply (hoare_for_index _
                       (fun s (_ : option Store) =>
                          (wf s /\ attempts s = A0) /\ In q (questions s))
                       (fun s _ => wf s /\ attempts s = A0)).
              intros j text _. apply hoare_query; [tauto|].
              intros s tx ((Hwf & Ha) & Hq).
              split; [split; [now apply wf_insert_option|exact Ha]|exact Hq].
           ++ auto.
           ++ intros [[]|] s tx; tauto.
        -- intros _. apply hoare_ret. auto.
      * tauto.
  - eapply hoare_bind with (Q := fun _ s _ => wf s /\ attempts s = A0); auto.
    + apply hoare_console. auto.
    + intros _. apply hoare_ret. auto.
Qed.

Lemma integrity_processModule m t A0 items :
  keeps (fun s _ => wf s /\ attempts s = A0) (ImportTs.processModule m t items).
Proof.
  unfold ImportTs.processModule.
  destruct (List.length items =? 0)%nat.
  - apply keeps_bind; [apply keeps_console|intros; apply keeps_ret].
  - apply keeps_bind; [apply integrity_deleteExistingQuestions|]. intros _.
    apply keeps_bind; [|intros; apply keeps_ret].
    apply keeps_for_batches. intros item n. apply integrity_import_item.
Qed.

(** ** The cleanup script when no statement is rejected *)

Lemma nf_delete_options_by_id (ids : list Z) :
  forall s tx e,
    for_of ids
      (fun questionId =>
         query (delete_options (fun o => Z.eqb (o_question_id o) questionId)))
      (mkConn s tx [] e)
    = (Ok tt,
       mkConn (set_options
                 (filter (fun o => negb (in_ids ids (o_question_id o)))
                         (options s)) s) tx [] e).
Proof.
  induction ids as [|i r IH]; intros s tx e; simpl.
  - unfold ret. destruct s; unfold set_options; simpl.
    rewrite filter_all by reflexivity. reflexivity.
  - unfold bind. rewrite nf_query. rewrite IH.
    destruct s; unfold set_options, delete_options; simpl.
    rewrite filter_twice.
    rewrite (filter_same _ _
               (fun o => negb (Z.eqb (o_question_id o) i
                               || in_ids r (o_question_id o)))
               options0); [reflexivity|].
    intros o _. now rewrite negb_orb.
Qed.

Lemma nf_delete_questions_by_id (ids : list Z) :
  forall s tx e,
    for_of ids
      (fun questionId =>
         query (delete_questions (fun q => Z.eqb (q_id q) questionId)))
      (mkConn s tx [] e)
    = (Ok tt,
       mkConn (set_questions
                 (filter (fun q => negb (in_ids ids (q_id q))) (questions s)) s)
              tx [] e).
Proof.
  induction ids as [|i r IH]; intros s tx e; simpl.
  - unfold ret. destruct s; unfold set_questions; simpl.
    rewrite filter_all by reflexivity. reflexivity.
  - unfold bind. rewrite nf_query. rewrite IH.
    destruct s; unfold set_questions, delete_questions; simpl.
    rewrite filter_twice.
    rewrite (filter_same _ _
               (fun q => negb (Z.eqb (q_id q) i || in_ids r (q_id q)))
               questions0); [reflexivity|].
    intros q _. now rewrite negb_orb.
Qed.

(** With unique ids, the id of a question is among the ids of the invalid
    questions exactly when the question is invalid. *)
Lemma invalid_id_iff (qs : list Question) (q : Question) :
  NoDup (map q_id qs) -> In q qs ->
  in_ids (map q_id (filter CleanupDatabase.is_invalid qs)) (q_id q)
  = CleanupDatabase.is_invalid q.
Proof.
  intros Hnd Hq. destruct (CleanupDatabase.is_invalid q) eqn:E.
  - apply in_ids_spec, in_map, filter_In. now split.
  - apply in_ids_false. intros Hin. apply in_map_iff in Hin.
    destruct Hin as [q' [Eid Hq']]. apply filter_In in Hq'.
    destruct Hq' as [Hq' Hinv].
    assert (q' = q) by (eapply NoDup_map_inj; eauto). subst. congruence.
Qed.

Lemma cleaned_nothing s :
  filter CleanupDatabase.is_invalid (questions s) = [] -> cleaned s = s.
Proof.
  intros H. unfold cleaned. rewrite H. simpl.
  rewrite filter_none by assumption.
  rewrite filter_all by reflexivity.
  rewrite (filter_nothing _ (fun _ => false) (options s)) by reflexivity.
  rewrite filter_all.
  - now destruct s.
  - intros a _. destruct (a_selected_option_id a), (a_question_id a);
      reflexivity.
Qed.

Lemma nf_cleanup s tx e :
  NoDup (map q_id (questions s)) ->
  CleanupDatabase.main (mkConn s tx [] e) = (Ok tt, mkConn (cleaned s) tx [] e).
Proof.
  intros Hnd. unfold CleanupDatabase.main. unfold bind at 1.
  rewrite nf_query. cbn [fst snd select_questions].
  rewrite (filter_all _ (fun _ => true) (questions s)) by reflexivity.
  destruct (List.length (filter CleanupDatabase.is_invalid (questions s)) =? 0)%nat
    eqn:Hn.
  - apply Nat.eqb_eq, length_zero_iff_nil in Hn.
    unfold ret. now rewrite cleaned_nothing.
  - unfold bind at 1. rewrite nf_query. cbn [fst snd select_options].
    set (bad := map q_id (filter CleanupDatabase.is_invalid (questions s))).
    set (bad_options :=
           map o_id (filter (fun o => in_ids bad (o_question_id o)) (options s))).
    assert (Hfirst :
      forall k : unit -> M unit,
        bind (if (0 <? List.length bad_options)%nat
              then query (delete_attempts
                            (fun a => in_ids_opt bad_options
                                                 (a_selected_option_id a)))
              else ret tt) k (mkConn s tx [] e)
        = k tt (mkConn (set_attempts
                          (filter (fun a => negb (in_ids_opt bad_options
                                                   (a_selected_option_id a)))
                                  (attempts s)) s) tx [] e)).
    { intros k. unfold bind.
      destruct (0 <? List.length bad_options)%nat eqn:Hb.
      - rewrite nf_query. reflexivity.
      - apply Nat.ltb_ge in Hb.
        assert (bad_options = []) by (apply length_zero_iff_nil; lia).
        unfold ret. rewrite H. f_equal. f_equal.
        destruct s; unfold set_attempts; simpl. f_equal.
        symmetry. apply filter_all. intros a _.
        now destruct (a_selected_option_id a). }
    rewrite Hfirst. unfold bind. rewrite nf_query.
    rewrite nf_delete_options_by_id, nf_delete_questions_by_id, nf_query.
    unfold ret. f_equal. f_equal.
    unfold cleaned. fold bad. fold bad_options.
    destruct s; unfold set_attempts, set_options, set_questions,
      delete_attempts; simpl in *.
    rewrite filter_twice. f_equal.
    apply filter_same. intros q Hq. f_equal.
    unfold bad. now apply invalid_id_iff.
Qed.

(** ** [scripts/import-module.js] when no statement is rejected *)

Lemma firstn_plus (A : Type) (a b : nat) :
  forall l : list A, firstn (a + b) l = firstn a l ++ firstn b (skipn a l).
Proof.
  induction a as [|a IH]; intros l; simpl; [reflexivity|].
  destruct l as [|x r]; simpl.
  - now rewrite firstn_nil.
  - now rewrite IH.
Qed.

Lemma slice_batch (A : Type) (start batchSize : nat) (l : list A) :
  slice start (Nat.min (start + batchSize) (List.length l)) l
  = firstn batchSize (skipn start l).
Proof.
  unfold slice.
  destruct (Nat.le_gt_cases (start + batchSize) (List.length l)) as [Hle|Hgt].
  - rewrite Nat.min_l by assumption. f_equal. lia.
  - rewrite Nat.min_r by lia.
    rewrite !firstn_all2; try reflexivity; rewrite length_skipn; lia.
Qed.

(** The first [j + 1] batches are the first [j] batches and batch [j]. *)
Lemma firstn_next_batch (A : Type) (j batchSize : nat) (l : list A) :
  firstn (S j * batchSize) l
  = firstn (j * batchSize) l
    ++ slice (j * batchSize)
             (Nat.min (j * batchSize + batchSize) (List.length l)) l.
Proof.
  rewrite slice_batch, <- firstn_plus. f_equal. lia.
Qed.

Lemma ceil_div_covers (len batchSize : nat) :
  (1 <= batchSize)%nat -> (len <= ceil_div len batchSize * batchSize)%nat.
Proof.
  intros Hb. unfold ceil_div.
  pose proof (Nat.div_mod_eq (len + batchSize - 1) batchSize) as E.
  pose proof (Nat.mod_upper_bound (len + batchSize - 1) batchSize) as Hm.
  nia.
Qed.

Lemma nf_BEGIN s tx e :
  BEGIN (mkConn s tx [] e) = (Ok tt, mkConn s (begun s tx) [] e).
Proof. unfold BEGIN, await, begun. simpl. now destruct tx. Qed.

Lemma nf_COMMIT s tx e :
  COMMIT (mkConn s tx [] e) = (Ok tt, mkConn s None [] e).
Proof. reflexivity. Qed.

Lemma nf_connect s tx e : connect (mkConn s tx [] e) = (Ok tt, mkConn s tx [] e).
Proof. reflexivity. Qed.

Lemma skip_warnings_at_app (l1 l2 : list MCQQuestion) :
  forall idx,
    skip_warnings_at idx (l1 ++ l2)
    = skip_warnings_at idx l1 ++ skip_warnings_at (idx + List.length l1) l2.
Proof.
  induction l1 as [|x r IH]; intros idx; simpl.
  - now rewrite Nat.add_0_r.
  - rewrite IH, <- app_assoc.
    replace (S idx + List.length r)%nat with (idx + S (List.length r))%nat
      by lia.
    reflexivity.
Qed.

Lemma nf_import_items_js m t start (items : list MCQQuestion) :
  forall i s tx e,
    for_index i items (ImportModuleJs.import_item m t start)
              (mkConn s tx [] e)
    = (Ok tt,
       mkConn (add_records m t items s) tx []
              (e ++ skip_warnings_at (start + i) items)).
Proof.
  induction items as [|item r IH]; intros i s tx e; simpl.
  - unfold ret. now rewrite app_nil_r.
  - unfold bind.
    assert (Hitem :
      ImportModuleJs.import_item m t start i item (mkConn s tx [] e)
      = (Ok tt,
         mkConn (add_record m t item s) tx []
                (e ++ (if invalid item
                       then [("Skipping invalid question at index "
                                ++ show_nat (start + i))%string]
                       else [])))).
    { unfold ImportModuleJs.import_item, add_record.
      destruct (invalid item).
      - reflexivity.
      - rewrite app_nil_r.
        apply (nf_insert_record (values_of m t item)). }
    rewrite Hitem, IH. rewrite <- app_assoc.
    replace (start + S i)%nat with (S (start + i)) by lia. reflexivity.
Qed.

Lemma nf_import_batch_js m t data bs j s tx e :
  ImportModuleJs.import_batch m t data bs j (mkConn s tx [] e)
  = (Ok tt,
     mkConn (add_records m t
               (slice (j * bs) (Nat.min (j * bs + bs) (List.length data)) data)
               s)
            None []
            (e ++ skip_warnings_at (j * bs)
                    (slice (j * bs) (Nat.min (j * bs + bs) (List.length data))
                           data))).
Proof.
  unfold ImportModuleJs.import_batch, bind.
  rewrite nf_BEGIN, nf_import_items_js, nf_COMMIT.
  now rewrite Nat.add_0_r.
Qed.

(** After the batches [0 .. j - 1] the first [j * bs] records are in. *)
Lemma nf_import_batches_js m t data bs s0 e0 (n : nat) :
  forall j tx,
    for_of (seq j n) (ImportModuleJs.import_batch m t data bs)
           (mkConn (add_records m t (firstn (j * bs) data) s0) tx []
                   (e0 ++ skip_warnings_at 0 (firstn (j * bs) data)))
    = (Ok tt,
       mkConn (add_records m t (firstn ((j + n) * bs) data) s0)
              (match n with O => tx | S _ => None end) []
              (e0 ++ skip_warnings_at 0 (firstn ((j + n) * bs) data))).
Proof.
  induction n as [|n IH]; intros j tx; simpl.
  - unfold ret. now rewrite Nat.add_0_r.
  - unfold bind. rewrite nf_import_batch_js.
    rewrite <- add_records_app, <- app_assoc.
    assert (Hw :
      skip_warnings_at 0 (firstn (j * bs) data)
      ++ skip_warnings_at (j * bs)
           (slice (j * bs) (Nat.min (j * bs + bs) (List.length data)) data)
      = skip_warnings_at 0 (firstn (S j * bs) data)).
    { rewrite firstn_next_batch, skip_warnings_at_app. f_equal.
      simpl. rewrite slice_batch.
      destruct (Nat.le_gt_cases (j * bs) (List.length data)) as [Hle|Hgt].
      - now rewrite length_firstn, Nat.min_l by assumption.
      - rewrite skipn_all2 by lia. now rewrite firstn_nil. }
    rewrite Hw, <- firstn_next_batch.
    rewrite (IH (S j) None).
    replace (S j + n)%nat with (j + S n)%nat by lia.
    now destruct n.
Qed.

Lemma nf_clear_partition_js m t s tx e :
  ImportModuleJs.clear_partition m t (mkConn s tx [] e)
  = (Ok tt, mkConn (clear m t s) None [] e).
Proof.
  unfold ImportModuleJs.clear_partition, bind.
  rewrite nf_BEGIN, !nf_query, nf_COMMIT. reflexivity.
Qed.

Lemma nf_importQuestions_js m t data bs s tx e :
  (1 <= bs)%nat ->
  ImportModuleJs.importQuestions m t data bs (mkConn s tx [] e)
  = (Ok (List.length data),
     mkConn (add_records m (toUpperCase t) data (clear m (toUpperCase t) s))
            None [] (e ++ skip_warnings_at 0 data)).
Proof.
  intros Hb. unfold ImportModuleJs.importQuestions, try_catch, bind.
  rewrite nf_connect, nf_clear_partition_js.
  pose proof (nf_import_batches_js m (toUpperCase t) data bs
                (clear m (toUpperCase t) s) e
                (ceil_div (List.length data) bs) 0 None) as H.
  cbn [Nat.mul firstn add_records fold_left skip_warnings_at Nat.add] in H.
  rewrite app_nil_r in H. rewrite H. unfold ret.
  rewrite firstn_all2 by (apply ceil_div_covers; assumption).
  now destruct (ceil_div (List.length data) bs).
Qed.

(** ** The direct SQL import when no statement is rejected *)

Lemma nf_for_acc_direct_sql items :
  forall n s tx e,
    for_acc items DirectSqlFocs2.import_item n (mkConn s tx [] e)
    = (Ok (n + passing items)%nat,
       mkConn (add_records "focs" "FOCS2" items s) tx []
              (e ++ skip_warnings "Invalid question data, skipping" items)).
Proof.
  induction items as [|item r IH]; intros n s tx e.
  - simpl. unfold ret, passing, skip_warnings. simpl.
    now rewrite app_nil_r, Nat.add_0_r.
  - simpl for_acc. unfold bind.
    assert (Hitem :
      DirectSqlFocs2.import_item item n (mkConn s tx [] e)
      = (Ok (n + passing [item])%nat,
         mkConn (add_record "focs" "FOCS2" item s) tx []
                (e ++ skip_warnings "Invalid question data, skipping" [item]))).
    { unfold DirectSqlFocs2.import_item, add_record, passing, skip_warnings.
      simpl filter. destruct (invalid item) eqn:Hv; simpl.
      - unfold bind, console_warn, ret. simpl. now rewrite Nat.add_0_r.
      - pose proof (nf_insert_record (values_of "focs" "FOCS2" item)
                      (correctIndex item) (elements (mcq_options item))
                      s tx e) as H.
        unfold bind in H. unfold values_of in *. unfold bind.
        destruct (query _ _) as [[q|] c1] in H |- *; [|discriminate].
        rewrite H. unfold ret. rewrite app_nil_r. now rewrite Nat.add_1_r. }
    rewrite Hitem, IH.
    change (item :: r) with ([item] ++ r).
    rewrite skip_warnings_app, add_records_app, app_assoc.
    unfold passing. rewrite (filter_app _ [item] r), length_app.
    now rewrite Nat.add_assoc.
Qed.

Lemma nf_direct_sql items s tx e :
  items <> [] ->
  DirectSqlFocs2.main items (mkConn s tx [] e)
  = (Ok 0%Z,
     mkConn (add_records "focs" "FOCS2" items (clear "focs" "FOCS2" s)) None []
            (e ++ skip_warnings "Invalid question data, skipping" items)).
Proof.
  intros Hne. unfold DirectSqlFocs2.main, try_catch.
  destruct items as [|item r]; [congruence|].
  cbn [List.length Nat.eqb]. unfold bind.
  rewrite nf_connect, nf_BEGIN, !nf_query.
  rewrite for_batches_flat by (simpl; lia). simpl skipn.
  rewrite nf_for_acc_direct_sql, nf_COMMIT. reflexivity.
Qed.

(** ** Transactions of [scripts/import-module.js] under rejected statements *)

(** The option loop of one record: if it ends normally the rows are in. *)
Lemma spec_insert_options qid ci T1 (l : list string) :
  forall j s1,
    hoare (fun s tx => s = s1 /\ tx = T1)
          (for_index j l
             (fun j text =>
                query (insert_option qid text (strict_eq_index j ci))))
          (fun r s tx =>
             tx = T1 /\
             match r with
             | Ok _ => s = add_options qid ci j l s1
             | Thrown => True
             end).
Proof.
  induction l as [|text r IH]; intros j s1; simpl.
  - apply hoare_ret. intros s tx [-> ->]. now rewrite add_options_nil.
  - eapply hoare_bind with
      (Q := fun r s tx =>
              tx = T1 /\
              match r with
              | Ok _ => s = snd (insert_option qid text (strict_eq_index j ci) s1)
              | Thrown => True
              end).
    + apply hoare_query; intros s tx [-> ->]; auto.
    + intros ?. eapply hoare_conseq.
      * apply (IH (S j)
                  (snd (insert_option qid text (strict_eq_index j ci) s1))).
      * intros s tx [-> ->]. auto.
      * intros [[]|] s tx [-> H]; split; auto.
        now rewrite <- add_options_cons.
    + tauto.
Qed.



Lemma same_tables_refl (s : Store) : same_tables s s.
Proof. unfold same_tables. auto. Qed.

Lemma same_tables_open (s x : Store) : same_tables (snapshot s (Some x)) x.
Proof. unfold same_tables. simpl. auto. Qed.





(** ** Exceptions and rejected statements *)

Lemma spends_ret (A : Type) (a : A) : spends (ret a).
Proof. intros c. simpl. lia. Qed.

Lemma spends_console (msg : string) : spends (console_warn msg).
Proof. intros c. unfold rejections. simpl. lia. Qed.

Lemma spends_await (A : Type) (run : Conn -> A * Conn) :
  (forall c, faults (snd (run c)) = faults c) -> spends (await run).
Proof.
  intros Hrun c. unfold await, rejections.
  destruct (faults c) as [|[|] rest] eqn:Hf.
  - pose proof (Hrun c) as H. destruct (run c) as [a c1]. simpl in *.
    rewrite H, Hf. simpl. lia.
  - simpl. lia.
  - pose proof (Hrun (mkConn (store c) (txn c) rest (stderr c))) as H.
    destruct (run _) as [a c1]. simpl in *. rewrite H. lia.
Qed.

Lemma spends_query (A : Type) (stmt : Store -> A * Store) :
  spends (query stmt).
Proof.
  apply spends_await. intros c. now destruct (stmt (store c)).
Qed.

Lemma spends_connect : spends connect.
Proof. now apply spends_await. Qed.

Lemma spends_BEGIN : spends BEGIN.
Proof. now apply spends_await. Qed.

Lemma spends_COMMIT : spends COMMIT.
Proof. now apply spends_await. Qed.

Lemma spends_ROLLBACK : spends ROLLBACK.
Proof. now apply spends_await. Qed.

Lemma spends_bind (A B : Type) (m : M A) (k : A -> M B) :
  spends m -> (forall a, spends (k a)) -> spends (bind m k).
Proof.
  intros Hm Hk c. unfold bind. specialize (Hm c).
  destruct (m c) as [[a|] c1]; simpl in *; [|lia].
  specialize (Hk a c1). lia.
Qed.

Lemma spends_try_catch (A : Type) (body handler : M A) :
  spends body -> spends handler -> spends (try_catch body handler).
Proof.
  intros Hb Hh c. unfold try_catch. specialize (Hb c).
  destruct (body c) as [[a|] c1]; simpl in *; [lia|].
  specialize (Hh c1). lia.
Qed.

Lemma spends_for_of (A : Type) (l : list A) (body : A -> M unit) :
  (forall x, spends (body x)) -> spends (for_of l body).
Proof.
  intros Hb. induction l as [|x r IH]; simpl.
  - apply spends_ret.
  - apply spends_bind; [apply Hb|]. intros _. exact IH.
Qed.

Lemma spends_for_index (A : Type) (l : list A) (body : nat -> A -> M unit) :
  (forall j x, spends (body j x)) -> forall j, spends (for_index j l body).
Proof.
  intros Hb. induction l as [|x r IH]; intros j; simpl.
  - apply spends_ret.
  - apply spends_bind; [apply Hb|]. intros _. apply IH.
Qed.

Lemma spends_for_acc (A S : Type) (l : list A) (body : A -> S -> M S) :
  (forall x acc, spends (body x acc)) -> forall acc, spends (for_acc l body acc).
Proof.
  intros Hb. induction l as [|x r IH]; intros acc; simpl.
  - apply spends_ret.
  - apply spends_bind; [apply Hb|]. intros acc'. apply IH.
Qed.

Lemma spends_for_batches (A S : Type) (data : list A) (body : A -> S -> M S)
      (batchSize : nat) :
  (forall x acc, spends (body x acc)) ->
  forall fuel i acc, spends (for_batches fuel batchSize data body i acc).
Proof.
  intros Hb. induction fuel as [|fuel IH]; intros i acc; simpl.
  - apply spends_ret.
  - destruct (i <? List.length data)%nat; [|apply spends_ret].
    apply spends_bind; [now apply spends_for_acc|]. intros acc'. apply IH.
Qed.

Ltac spends_step :=
  first
    [ apply spends_ret
    | apply spends_console
    | apply spends_connect
    | apply spends_BEGIN
    | apply spends_COMMIT
    | apply spends_ROLLBACK
    | apply spends_query
    | apply spends_bind; [|intros ?]
    | apply spends_try_catch
    | apply spends_for_of; intros ?
    | apply spends_for_index; intros ? ?
    | apply spends_for_acc; intros ? ?
    | apply spends_for_batches; intros ? ? ].

(** A statement is accepted when the plan rejects nothing any more. *)
Lemma await_accepted (A : Type) (run : Conn -> A * Conn) (c : Conn) :
  rejections c = 0%nat ->
  exists fs,
    await run c
    = (Ok (fst (run (mkConn (store c) (txn c) fs (stderr c)))),
       snd (run (mkConn (store c) (txn c) fs (stderr c)))).
Proof.
  unfold rejections, await. intros H.
  destruct (faults c) as [|[|] rest] eqn:Hf.
  - exists []. replace (mkConn (store c) (txn c) [] (stderr c)) with c
      by (destruct c; simpl in *; now subst).
    now destruct (run c).
  - simpl in H. discriminate.
  - exists rest. now destruct (run _).
Qed.

(** The [catch] block of the two transactional imports, entered when the
    plan rejects nothing any more: the rollback is carried out. *)
Lemma rollback_carried_out (c : Conn) :
  rejections c = 0%nat ->
  fst (ROLLBACK c) = Ok tt /\
  txn (snd (ROLLBACK c)) = None /\
  store (snd (ROLLBACK c)) = committed c.
Proof.
  intros H. unfold ROLLBACK.
  destruct (await_accepted _
              (fun c => (tt, mkConn (committed c) None (faults c) (stderr c)))
              c H) as [fs E].
  rewrite E. simpl. auto.
Qed.




(** ** The loop of import.ts under rejected statements *)

Lemma hoare_and (A : Type) (P : assertion) (m : M A)
      (Q1 Q2 : result A -> assertion) :
  hoare P m Q1 -> hoare P m Q2 ->
  hoare P m (fun r s tx => Q1 r s tx /\ Q2 r s tx).
Proof. unfold hoare. intros H1 H2 c Hc. split; auto. Qed.

Lemma hoare_same_run (A : Type) (P : assertion) (m m' : M A)
      (Q : result A -> assertion) :
  (forall c, m c = m' c) -> hoare P m' Q -> hoare P m Q.
Proof. unfold hoare. intros E H c Hc. rewrite E. now apply H. Qed.

Lemma passing_cons (item : MCQQuestion) (items : list MCQQuestion) :
  passing (item :: items) = (passing [item] + passing items)%nat.
Proof.
  unfold passing. simpl. destruct (invalid item); reflexivity.
Qed.

Lemma passing_one (item : MCQQuestion) :
  passing [item] = if invalid item then 0%nat else 1%nat.
Proof. unfold passing. simpl. now destruct (invalid item). Qed.

(** One record: the outcome is never an exception; the record is counted
    only if its question row is in. *)
Lemma count_import_item m t item n q0 :
  hoare (fun s _ => List.length (questions s) = q0)
        (ImportTs.import_item m t item n)
        (fun r s _ =>
           exists k, r = Ok k /\
                     (n <= k <= n + passing [item])%nat /\
                     (q0 + (k - n) <= List.length (questions s)
                      <= q0 + passing [item])%nat).
Proof.
  unfold ImportTs.import_item. rewrite passing_one.
  set (p := if invalid item then 0%nat else 1%nat).
  apply hoare_try_catch with
    (Q := fun r s (_ : option Store) =>
            match r with
            | Ok k => (k = n + p)%nat /\ List.length (questions s) = (q0 + p)%nat
            | Thrown => (q0 <= List.length (questions s) <= q0 + p)%nat
            end).
  - subst p. destruct (invalid item).
    + eapply hoare_bind with
        (Q := fun (r : result unit) s (_ : option Store) =>
                match r with
                | Ok _ => List.length (questions s) = q0
                | Thrown => False
                end).
      * apply hoare_console. auto.
      * intros ?. apply hoare_ret. intros s tx H. lia.
      * intros s tx [].
    + eapply hoare_bind with
        (Q := fun (r : result Question) s (_ : option Store) =>
                match r with
                | Ok _ => List.length (questions s) = (q0 + 1)%nat
                | Thrown => List.length (questions s) = q0
                end).
      * apply hoare_query; [auto|]. intros s tx H. simpl.
        rewrite length_app. simpl. lia.
      * intros q.
        eapply hoare_bind with
          (Q := fun (_ : result unit) s (_ : option Store) =>
                  List.length (questions s) = (q0 + 1)%nat).
        -- eapply hoare_conseq.
           ++ apply (hoare_for_index _
                       (fun s (_ : option Store) =>
                          List.length (questions s) = (q0 + 1)%nat)
                       (fun s (_ : option Store) =>
                          List.length (questions s) = (q0 + 1)%nat)).
              intros j text _. apply hoare_query; auto.
           ++ auto.
           ++ intros [[]|]; auto.
        -- intros ?. apply hoare_ret. intros s tx H. lia.
        -- intros s tx H. lia.
      * intros s tx H. lia.
  - intros k s tx [-> H]. exists (n + p)%nat. split; [reflexivity|]. lia.
  - eapply hoare_bind with
      (Q := fun (r : result unit) s (_ : option Store) =>
              match r with
              | Ok _ => (q0 <= List.length (questions s) <= q0 + p)%nat
              | Thrown => False
              end).
    + apply hoare_console. auto.
    + intros ?. apply hoare_ret. intros s tx H.
      exists n. split; [reflexivity|]. lia.
    + intros s tx [].
Qed.

Lemma count_import_items m t (items : list MCQQuestion) :
  forall n q0,
    hoare (fun s _ => List.length (questions s) = q0)
          (for_acc items (ImportTs.import_item m t) n)
          (fun r s _ =>
             exists k, r = Ok k /\
                       (n <= k <= n + passing items)%nat /\
                       (q0 + (k - n) <= List.length (questions s)
                        <= q0 + passing items)%nat).
Proof.
  induction items as [|item rest IH]; intros n q0; simpl for_acc.
  - apply hoare_ret. intros s tx H. exists n. unfold passing. simpl.
    split; [reflexivity|]. lia.
  - rewrite passing_cons.
    eapply hoare_bind with
      (Q := fun (r : result nat) s (_ : option Store) =>
              match r with
              | Ok k =>
                  (n <= k <= n + passing [item])%nat /\
                  (q0 + (k - n) <= List.length (questions s)
                   <= q0 + passing [item])%nat
              | Thrown => False
              end).
    + eapply hoare_conseq.
      * apply (count_import_item m t item n q0).
      * auto.
      * intros r s tx (k & -> & H). exact H.
    + intros k.
      assert (Hk :
        forall q1,
          hoare (fun s (_ : option Store) => List.length (questions s) = q1)
                (for_acc rest (ImportTs.import_item m t) k)
                (fun r s (_ : option Store) =>
                   exists k', r = Ok k' /\
                              (k <= k' <= k + passing rest)%nat /\
                              (q1 + (k' - k) <= List.length (questions s)
                               <= q1 + passing rest)%nat))
        by (intros q1; apply IH).
      unfold hoare in *. intros c [Hn Hq].
      destruct (Hk (List.length (questions (store c))) c eq_refl)
        as (k' & E & Hb & Hl).
      exists k'. split; [assumption|]. lia.
    + intros s tx [].
Qed.

Lemma count_importQuestions m t (data : list MCQQuestion) q0 :
  hoare (fun s _ => List.length (questions s) = q0)
        (ImportTs.importQuestions m t data)
        (fun r s _ =>
           exists k, r = Ok k /\
                     (k <= passing data)%nat /\
                     (q0 + k <= List.length (questions s)
                      <= q0 + passing data)%nat).
Proof.
  apply hoare_same_run with (m' := for_acc data (ImportTs.import_item m t) 0%nat).
  - intros c. unfold ImportTs.importQuestions, ImportTs.importQuestions_with.
    rewrite for_batches_flat by lia. reflexivity.
  - eapply hoare_conseq.
    + apply (count_import_items m t data 0 q0).
    + auto.
    + intros r s tx (k & E & Hb & Hl). exists k.
      split; [assumption|]. lia.
Qed.


(* ===================================================================== *)
(** * The seeding claims on [scripts/import.ts] *)
(* ===================================================================== *)

Lemma sample_store_wf : wf sample_store.
Proof.
  unfold wf, sample_store. simpl. repeat split.
  - repeat constructor. simpl. tauto.
  - intros q [<-|[]]. simpl. lia.
  - intros o [<-|[]]. simpl. now left.
Qed.

(** C1, counterexample: with an empty candidate list [processModule]
    returns before the delete phase, so the partition still holds its old
    question although no candidate is valid. *)
Lemma reseed_empty_list_keeps_rows :
  let s' := store (snd (ImportTs.processModule "focs" "FOCS2" [] sample_conn)) in
  wf (store sample_conn) /\ faults sample_conn = [] /\
  forallb valid_record [] = true /\
  fst (ImportTs.processModule "focs" "FOCS2" [] sample_conn) = Ok tt /\
  List.length (partition "focs" "FOCS2" s') = 1%nat /\
  List.length (filter valid_record []) = 0%nat /\
  ~ seeded_exactly "focs" "FOCS2" [] s'.
Proof.
  cbv zeta. split; [exact sample_store_wf|]. repeat split.
  intros [H _]. vm_compute in H. discriminate.
Qed.

(** C1, amended: for every non-empty list of valid candidate records, after
    a reseed of a well-formed store in which no statement is rejected
    ([processModule m t candidates] of import.ts, or the direct SQL import
    for FOCS2), the partition holds exactly one Question per candidate, in
    input order; each of them has one Option row per element of its
    record's options array, in the original order, and exactly one Option
    flagged correct, the one at position [correctIndex]. *)
Theorem reseed_stores_valid_records
        (m t : string) (cands : list MCQQuestion) (c : Conn) :
  wf (store c) -> faults c = [] -> cands <> [] ->
  forallb valid_record cands = true ->
  (fst (ImportTs.processModule m t cands c) = Ok tt /\
   seeded_exactly m t cands
     (store (snd (ImportTs.processModule m t cands c)))) /\
  (fst (DirectSqlFocs2.main cands c) = Ok 0%Z /\
   seeded_exactly "focs" "FOCS2" cands
     (committed (snd (DirectSqlFocs2.main cands c)))).
Proof.
  intros Hwf Hf Hne Hv. destruct c as [s tx fs e]. simpl in Hwf, Hf. subst fs.
  rewrite nf_processModule, nf_direct_sql by assumption.
  unfold committed. simpl.
  split; (split; [reflexivity|now apply reseeded_exactly]).
Qed.

(** The instance of the spec's example: three valid records, the first
    with options A, B, C and [correctIndex = 1], give 3 Questions and 9
    Options, and of the first question's options only B is correct. *)
Lemma reseed_stores_valid_records_example :
  ((fst (ImportTs.processModule "focs" "FOCS2" sample_records sample_conn)
    = Ok tt /\
    seeded_exactly "focs" "FOCS2" sample_records
      (store (snd (ImportTs.processModule "focs" "FOCS2" sample_records
                     sample_conn)))) /\
   (fst (DirectSqlFocs2.main sample_records sample_conn) = Ok 0%Z /\
    seeded_exactly "focs" "FOCS2" sample_records
      (committed (snd (DirectSqlFocs2.main sample_records sample_conn))))) /\
  (let s' := store (snd (ImportTs.processModule "focs" "FOCS2"
                           sample_records sample_conn)) in
   List.length (questions s') = 3%nat /\
   List.length (options s') = 9%nat /\
   map (fun q => map (fun o => (o_text o, o_is_correct o))
                     (options_of s' (q_id q)))
       (firstn 1 (partition "focs" "FOCS2" s'))
   = [[("A", false); ("B", true); ("C", false)]]%string).
Proof.
  split.
  - apply (reseed_stores_valid_records "focs" "FOCS2" sample_records
             sample_conn).
    + exact sample_store_wf.
    + reflexivity.
    + discriminate.
    + reflexivity.
  - vm_compute. repeat split.
Defined.

(** C4: running [processModule m t candidates] twice in sequence leaves
    partition [(m, t)] with the same rows up to generated ids as running it
    once: the same number of questions, the same question and option texts
    in the same order, and the same is-correct flags. *)
Theorem reseed_twice_same_content
        (m t : string) (cands : list MCQQuestion) (c : Conn) :
  wf (store c) -> faults c = [] ->
  let c1 := snd (ImportTs.processModule m t cands c) in
  let c2 := snd (ImportTs.processModule m t cands c1) in
  fst (ImportTs.processModule m t cands c) = Ok tt /\
  fst (ImportTs.processModule m t cands c1) = Ok tt /\
  partition_content m t (store c2) = partition_content m t (store c1) /\
  List.length (partition m t (store c2)) = List.length (partition m t (store c1)).
Proof.
  intros Hwf Hf. destruct c as [s tx fs e]. simpl in Hwf, Hf. subst fs.
  assert (Hgoal :
    let c1 := snd (ImportTs.processModule m t cands (mkConn s tx [] e)) in
    let c2 := snd (ImportTs.processModule m t cands c1) in
    fst (ImportTs.processModule m t cands (mkConn s tx [] e)) = Ok tt /\
    fst (ImportTs.processModule m t cands c1) = Ok tt /\
    partition_content m t (store c2) = partition_content m t (store c1)).
  { destruct cands as [|item r].
    - repeat split.
    - cbv zeta. rewrite nf_processModule by discriminate. cbn [fst snd].
      rewrite nf_processModule by discriminate. cbn [fst snd store].
      repeat split.
      rewrite !partition_content_reseed; auto.
      apply wf_add_records. now apply wf_clear. }
  destruct Hgoal as (H1 & H2 & H3). repeat split; try assumption.
  apply (f_equal (@List.length _)) in H3. unfold partition_content in H3.
  now rewrite !length_map in H3.
Qed.

Lemma reseed_twice_same_content_example :
  let c1 := snd (ImportTs.processModule "focs" "FOCS2" sample_records
                   sample_conn) in
  let c2 := snd (ImportTs.processModule "focs" "FOCS2" sample_records c1) in
  fst (ImportTs.processModule "focs" "FOCS2" sample_records sample_conn)
  = Ok tt /\
  fst (ImportTs.processModule "focs" "FOCS2" sample_records c1) = Ok tt /\
  partition_content "focs" "FOCS2" (store c2)
  = partition_content "focs" "FOCS2" (store c1) /\
  List.length (partition "focs" "FOCS2" (store c2))
  = List.length (partition "focs" "FOCS2" (store c1)).
Proof.
  apply (reseed_twice_same_content "focs" "FOCS2" sample_records sample_conn).
  - exact sample_store_wf.
  - reflexivity.
Defined.

(** C2: the reseed of a partition whose question has been attempted
    ([clearQuestionsForTopic] then [importQuestionsForTopic] of
    importMCQ.ts) deletes the question and its option and keeps the
    attempt, which then refers to a question and an option that no longer
    exist: the delete phase of the seeding scripts has no step for the
    attempts, unlike the cleanup script. *)
Lemma reseed_leaves_dangling_attempt :
  let c' := snd (ImportMCQ.processModuleTopic "focs" "FOCS2" sample_records
                   sample_conn) in
  attempts_resolved (store sample_conn) /\
  fst (ImportMCQ.processModuleTopic "focs" "FOCS2" sample_records sample_conn)
  = Ok tt /\
  In (mkAttempt 1 (Some 1%Z) (Some 1%Z)) (attempts (store c')) /\
  ~ In 1%Z (map q_id (questions (store c'))) /\
  ~ In 1%Z (map o_id (options (store c'))) /\
  ~ attempts_resolved (store c').
Proof.
  vm_compute.
  split; [|split; [reflexivity|split; [now left|]]].
  - intros a [<-|[]]. split; intros x E; injection E as <-; now left.
  - assert (Hq : ~ (2%Z = 1%Z \/ 3%Z = 1%Z \/ 4%Z = 1%Z \/ False))
      by (intros [H|[H|[H|[]]]]; discriminate).
    split; [exact Hq|]. split.
    + intros H. repeat (destruct H as [H|H]; [discriminate|]). exact H.
    + intros H. apply Hq.
      apply (H (mkAttempt 1 (Some 1%Z) (Some 1%Z))); [now left|reflexivity].
Qed.

(** What the delete phase does keep: [deleteExistingQuestions] deletes the
    partition's option rows and then its question rows, and
    [processModule] runs it before inserting.  At whatever statement a
    reseed of a well-formed store ends, no Option row refers to a Question
    id that no longer exists, and the Attempt rows are those of before. *)
Theorem reseed_keeps_option_integrity
        (m t : string) (cands : list MCQQuestion) (c : Conn) :
  wf (store c) ->
  let s' := store (snd (ImportTs.processModule m t cands c)) in
  (forall o, In o (options s') -> In (o_question_id o) (map q_id (questions s'))) /\
  attempts s' = attempts (store c) /\
  (faults c = [] ->
   store (snd (ImportTs.deleteExistingQuestions m t c)) = clear m t (store c) /\
   partition m t (clear m t (store c)) = [] /\
   (forall q, In q (partition m t (store c)) ->
              options_of (clear m t (store c)) (q_id q) = []) /\
   (cands <> [] -> s' = add_records m t cands (clear m t (store c)))).
Proof.
  intros Hwf.
  pose proof (integrity_processModule m t (attempts (store c)) cands c
                (conj Hwf eq_refl)) as [(_ & _ & Hfk) Ha].
  cbv zeta. split; [exact Hfk|]. split; [exact Ha|].
  intros Hf. destruct c as [s tx fs e]. simpl in Hf, Hwf |- *. subst fs.
  rewrite nf_deleteExistingQuestions. simpl.
  split; [reflexivity|]. split; [apply partition_clear_same|]. split.
  - intros q Hq. unfold options_of, clear, delete_partition_options,
      delete_options, set_options, set_questions. simpl.
    rewrite filter_twice. apply filter_nothing. intros o _.
    destruct (Z.eqb (o_question_id o) (q_id q)) eqn:E;
      [|now rewrite andb_false_r].
    apply Z.eqb_eq in E. rewrite E, andb_true_r.
    apply negb_false_iff, in_ids_spec. now apply in_map.
  - intros Hne. now rewrite nf_processModule.
Qed.

Lemma reseed_keeps_option_integrity_example :
  let c := mkConn two_partition_store None [] [] in
  let s' := store (snd (ImportTs.processModule "focs" "FOCS2" sample_records c)) in
  (forall o, In o (options s') -> In (o_question_id o) (map q_id (questions s'))) /\
  attempts s' = attempts (store c) /\
  (faults c = [] ->
   store (snd (ImportTs.deleteExistingQuestions "focs" "FOCS2" c))
   = clear "focs" "FOCS2" (store c) /\
   partition "focs" "FOCS2" (clear "focs" "FOCS2" (store c)) = [] /\
   (forall q, In q (partition "focs" "FOCS2" (store c)) ->
              options_of (clear "focs" "FOCS2" (store c)) (q_id q) = []) /\
   (sample_records <> [] ->
    s' = add_records "focs" "FOCS2" sample_records
                     (clear "focs" "FOCS2" (store c)))).
Proof.
  apply (reseed_keeps_option_integrity "focs" "FOCS2" sample_records
           (mkConn two_partition_store None [] [])).
  unfold wf. simpl. repeat split.
  - repeat constructor; simpl; intuition discriminate.
  - intros q [<-|[<-|[]]]; simpl; lia.
  - intros o [<-|[<-|[<-|[]]]]; simpl; tauto.
Defined.

(** C6, counterexample: a list of one valid record and one record with an
    empty options array gives 2 Questions, not 1, and no warning: the
    record with the empty array is inserted, without options. *)
Lemma empty_options_record_is_imported :
  let cands := [valid_sample_record; empty_options_record] in
  let r := ImportTs.importQuestions "focs" "FOCS2" cands sample_conn in
  valid_record valid_sample_record = true /\
  mcq_options empty_options_record = Some [] /\
  fst r = Ok 2%nat /\
  stderr (snd r) = [] /\
  List.length (questions (store (snd r)))
  = (List.length (questions (store sample_conn)) + 2)%nat /\
  (List.length cands - 1 = 1)%nat.
Proof. vm_compute. repeat split. Qed.

Lemma questions_add_records m t items :
  forall s,
    List.length (questions (add_records m t items s))
    = (List.length (questions s) + passing items)%nat.
Proof.
  unfold passing.
  induction items as [|item r IH]; intros s; simpl; [lia|].
  rewrite IH. unfold add_record. destruct (invalid item); simpl; [lia|].
  rewrite length_app. simpl. lia.
Qed.

Lemma passing_failing items :
  (passing items + List.length (filter invalid items) = List.length items)%nat.
Proof.
  unfold passing. induction items as [|item r IH]; simpl; [reflexivity|].
  destruct (invalid item); simpl; lia.
Qed.

Lemma invalid_false_iff item :
  invalid item = false <->
  (exists text opts,
      question item = Some text /\ text <> EmptyString /\
      mcq_options item = Some opts) /\
  correctIndex item <> IdxUndefined.
Proof.
  unfold invalid, truthy, isArray, is_undefined. split.
  - intros H.
    destruct (question item) as [[|a text]|]; try discriminate.
    destruct (mcq_options item) as [opts|]; try discriminate.
    destruct (correctIndex item); try discriminate.
    + split; [|discriminate]. exists (String a text), opts.
      repeat split. discriminate.
    + split; [|discriminate]. exists (String a text), opts.
      repeat split. discriminate.
  - intros [(text & opts & Hq & Hne & Ho) Hc]. rewrite Hq, Ho.
    destruct text; [congruence|].
    destruct (correctIndex item); simpl; congruence.
Qed.

Lemma skip_warnings_at_length (items : list MCQQuestion) :
  forall idx,
    List.length (skip_warnings_at idx items)
    = List.length (filter invalid items).
Proof.
  induction items as [|item r IH]; intros idx; simpl; [reflexivity|].
  rewrite length_app, IH. destruct (invalid item); reflexivity.
Qed.

(** C6, amended: a record failing the scripts' validation is skipped with a
    warning and does not abort the batch.  [importQuestions] of import.ts
    inserts one Question per passing record, returns the number of the
    passing records and prints the warning [Skipping invalid question]
    once per failing record, so a list with exactly one failing record
    gives [count - 1] Questions.  [importQuestions] of import-module.js
    (for a topic of ASCII characters) inserts one Question per passing
    record too, but returns the length of the array, the skipped records
    included, and its warning, one per failing record, carries the index
    of the record.  Validation requires a non-empty question text, an
    options value that is an array, and a [correctIndex] that is not
    undefined; an empty options array and an out-of-range index pass. *)
Theorem import_skips_failing_records
        (m t : string) (cands : list MCQQuestion) (batchSize : nat) (c : Conn) :
  faults c = [] ->
  let r := ImportTs.importQuestions m t cands c in
  let r' := ImportModuleJs.importQuestions m t cands batchSize c in
  (fst r = Ok (passing cands) /\
   List.length (questions (store (snd r)))
   = (List.length (questions (store c)) + passing cands)%nat /\
   stderr (snd r)
   = stderr c ++ skip_warnings "Skipping invalid question" cands) /\
  ((1 <= batchSize)%nat -> ascii_only t = true ->
   fst r' = Ok (List.length cands) /\
   List.length (questions (store (snd r')))
   = (List.length (questions (clear m (toUpperCase t) (store c)))
      + passing cands)%nat /\
   stderr (snd r') = stderr c ++ skip_warnings_at 0 cands /\
   List.length (skip_warnings_at 0 cands)
   = List.length (filter invalid cands)) /\
  (passing cands + List.length (filter invalid cands) = List.length cands)%nat /\
  (forall item,
      invalid item = false <->
      (exists text opts,
          question item = Some text /\ text <> EmptyString /\
          mcq_options item = Some opts) /\
      correctIndex item <> IdxUndefined).
Proof.
  intros Hf. destruct c as [s tx fs e]. simpl in Hf. subst fs.
  unfold ImportTs.importQuestions. cbv zeta.
  rewrite nf_importQuestions_ts by lia. cbn [fst snd store stderr].
  split; [|split; [|split]].
  - split; [reflexivity|]. split; [apply questions_add_records|reflexivity].
  - intros Hb _. rewrite nf_importQuestions_js by assumption.
    cbn [fst snd store stderr].
    split; [reflexivity|]. split; [apply questions_add_records|].
    split; [reflexivity|apply skip_warnings_at_length].
  - apply passing_failing.
  - apply invalid_false_iff.
Qed.

Lemma import_skips_failing_records_example :
  let cands := [out_of_range_record; no_options_record; empty_options_record] in
  let r := ImportTs.importQuestions "focs" "FOCS2" cands sample_conn in
  let r' := ImportModuleJs.importQuestions "focs" "FOCS2" cands 2 sample_conn in
  ((fst r = Ok (passing cands) /\
    List.length (questions (store (snd r)))
    = (List.length (questions (store sample_conn)) + passing cands)%nat /\
    stderr (snd r)
    = stderr sample_conn ++ skip_warnings "Skipping invalid question" cands) /\
   ((1 <= 2)%nat -> ascii_only "FOCS2" = true ->
    fst r' = Ok (List.length cands) /\
    List.length (questions (store (snd r')))
    = (List.length (questions (clear "focs" (toUpperCase "FOCS2")
                                     (store sample_conn)))
       + passing cands)%nat /\
    stderr (snd r') = stderr sample_conn ++ skip_warnings_at 0 cands /\
    List.length (skip_warnings_at 0 cands)
    = List.length (filter invalid cands)) /\
   (passing cands + List.length (filter invalid cands) = List.length cands)%nat /\
   (forall item,
       invalid item = false <->
       (exists text opts,
           question item = Some text /\ text <> EmptyString /\
           mcq_options item = Some opts) /\
       correctIndex item <> IdxUndefined)) /\
  passing cands = 2%nat /\
  fst r = Ok 2%nat /\
  fst r' = Ok 3%nat /\
  skip_warnings "Skipping invalid question" cands
  = ["Skipping invalid question"%string] /\
  skip_warnings_at 0 cands
  = ["Skipping invalid question at index 1"%string].
Proof.
  split.
  - apply (import_skips_failing_records "focs" "FOCS2"
             [out_of_range_record; no_options_record; empty_options_record]
             2 sample_conn).
    reflexivity.
  - repeat split; reflexivity.
Defined.

(** C7: for two distinct partition keys, [processModule m1 t1 candidates]
    on a well-formed store, at whatever statement it ends, leaves the
    question rows of partition [(m2, t2)] and the option rows of each of
    them unchanged: the same rows, hence the same count, texts and
    is-correct flags. *)
Theorem reseed_leaves_other_partitions
        (m1 t1 m2 t2 : string) (cands : list MCQQuestion) (c : Conn) :
  wf (store c) -> (m1, t1) <> (m2, t2) ->
  let s' := store (snd (ImportTs.processModule m1 t1 cands c)) in
  partition m2 t2 s' = partition m2 t2 (store c) /\
  (forall q, In q (partition m2 t2 (store c)) ->
             options_of s' (q_id q) = options_of (store c) (q_id q)) /\
  partition_content m2 t2 s' = partition_content m2 t2 (store c).
Proof.
  intros Hwf Hk.
  pose proof (frame_processModule m1 t1 m2 t2 (store c) cands
                (key_differs _ _ _ _ Hk) c (framed_refl m2 t2 _ Hwf)) as H.
  simpl in H. cbv zeta. split; [|split].
  - apply H.
  - apply H.
  - now apply framed_content.
Qed.

Lemma two_partition_store_wf : wf two_partition_store.
Proof.
  unfold wf. simpl. repeat split.
  - repeat constructor; simpl; intuition discriminate.
  - intros q [<-|[<-|[]]]; simpl; lia.
  - intros o [<-|[<-|[<-|[]]]]; simpl; tauto.
Qed.

Lemma reseed_leaves_other_partitions_example :
  let c := flaky_conn in
  let s' := store (snd (ImportTs.processModule "focs" "FOCS2" sample_records c)) in
  partition "bcr" "BCR1" s' = partition "bcr" "BCR1" (store c) /\
  (forall q, In q (partition "bcr" "BCR1" (store c)) ->
             options_of s' (q_id q) = options_of (store c) (q_id q)) /\
  partition_content "bcr" "BCR1" s' = partition_content "bcr" "BCR1" (store c).
Proof.
  apply (reseed_leaves_other_partitions "focs" "FOCS2" "bcr" "BCR1"
           sample_records flaky_conn).
  - exact two_partition_store_wf.
  - discriminate.
Defined.

(** C9: a record with a non-empty question text, an options array and an
    integer [correctIndex] at or past the end of the array is not skipped:
    after the reseed (import.ts, or the direct SQL import for FOCS2) the
    partition holds its Question with one Option per array element, in
    order, and none of them is flagged correct. *)
Theorem out_of_range_index_flags_nothing
        (m t : string) (cands : list MCQQuestion) (item : MCQQuestion)
        (opts : list string) (k : Z) (c : Conn) :
  wf (store c) -> faults c = [] ->
  In item cands ->
  truthy (question item) = true ->
  mcq_options item = Some opts ->
  correctIndex item = IdxNum k ->
  (Z.of_nat (List.length opts) <= k)%Z ->
  invalid item = false /\
  stored_unflagged m t item opts
    (store (snd (ImportTs.processModule m t cands c))) /\
  stored_unflagged "focs" "FOCS2" item opts
    (committed (snd (DirectSqlFocs2.main cands c))).
Proof.
  intros Hwf Hf Hin Hq Ho Hc Hk. destruct c as [s tx fs e].
  simpl in Hwf, Hf. subst fs.
  assert (Hne : cands <> []) by (intros ->; contradiction).
  split; [unfold invalid; now rewrite Hq, Ho, Hc|].
  rewrite nf_processModule, nf_direct_sql by assumption.
  unfold committed. simpl.
  split; eapply reseeded_unflagged; eauto.
Qed.

Lemma out_of_range_index_flags_nothing_example :
  invalid out_of_range_record = false /\
  stored_unflagged "focs" "FOCS2" out_of_range_record ["A"; "B"]%string
    (store (snd (ImportTs.processModule "focs" "FOCS2" [out_of_range_record]
                   sample_conn))) /\
  stored_unflagged "focs" "FOCS2" out_of_range_record ["A"; "B"]%string
    (committed (snd (DirectSqlFocs2.main [out_of_range_record] sample_conn))).
Proof.
  apply (out_of_range_index_flags_nothing "focs" "FOCS2" [out_of_range_record]
           out_of_range_record ["A"; "B"]%string 5 sample_conn).
  - exact sample_store_wf.
  - reflexivity.
  - now left.
  - reflexivity.
  - reflexivity.
  - reflexivity.
  - simpl. lia.
Defined.

(** C10: every Question inserted by an import path is stored with
    difficulty 2, whatever the candidate records contain and whichever
    statements are rejected: after [importQuestions] of import.ts,
    [importQuestionsForTopic] of importMCQ.ts, [importQuestions] of
    server/scripts/importQuestions.ts, [importQuestions] of
    import-module.js and the direct SQL import, every question row of the
    store is a row that was there before or has difficulty 2. *)
Theorem inserted_questions_have_difficulty_2
        (m t : string) (data : list MCQQuestion) (batchSize : nat) (c : Conn) :
  let old := questions (store c) ++ questions (committed c) in
  old_or_medium old (store (snd (ImportTs.importQuestions m t data c))) /\
  old_or_medium old (store (snd (ImportMCQ.importQuestionsForTopic m t data c))) /\
  old_or_medium old (store (snd (ServerImportQuestions.importQuestions m data c))) /\
  old_or_medium old
    (store (snd (ImportModuleJs.importQuestions m t data batchSize c))) /\
  old_or_medium old
    (committed (snd (ImportModuleJs.importQuestions m t data batchSize c))) /\
  old_or_medium old (store (snd (DirectSqlFocs2.main data c))) /\
  old_or_medium old (committed (snd (DirectSqlFocs2.main data c))).
Proof.
  cbv zeta. pose proof (medium_start c) as H0.
  assert (Hc : forall c', lift (old_or_medium
                                  (questions (store c) ++ questions (committed c)))
                               (store c') (txn c') ->
                          old_or_medium
                            (questions (store c) ++ questions (committed c))
                            (committed c')).
  { intros c' [H1 H2]. unfold committed. unfold snapshot in H2.
    now destruct (txn c'). }
  repeat split.
  - apply (medium_import_ts _ 5 m t data c H0).
  - apply (medium_import_mcq _ m t data c H0).
  - apply (medium_import_server _ m data c H0).
  - apply (medium_import_module_js _ m t data batchSize c H0).
  - apply Hc, (medium_import_module_js _ m t data batchSize c H0).
  - apply (medium_import_direct_sql _ data c H0).
  - apply Hc, (medium_import_direct_sql _ data c H0).
Qed.

(* ===================================================================== *)
(** * The cleanup script *)
(* ===================================================================== *)

(** C3, counterexample: the cleanup looks at the text and does not look
    at the pair.  A question of the partition (focs, FOCS2), one of the
    partitions of the scripts' table, is removed because its text
    contains the word Sample, although nothing flags it as a sample; and
    a question filed under (focs, BCR1), which is none of those
    partitions, is kept, because focs is a valid module and BCR1 a valid
    topic. *)
Lemma cleanup_reads_text_and_not_pairs :
  let c := mkConn mispaired_store None [] [] in
  let keys := map (fun e => (e_moduleId e, e_topic e))
                  ImportTsMain.moduleData in
  let stray := mkQuestion 1 "focs" (Some "BCR1"%string)
                 (Some "Plain question"%string) 2 None None in
  let q := mkQuestion 2 "focs" (Some "FOCS2"%string)
             (Some "A blood Sample is drawn. What is measured first?"%string)
             2 None None in
  questions (store c) = [stray; q] /\
  ~ In ("focs", "BCR1")%string keys /\
  In ("focs", "FOCS2")%string keys /\
  fst (CleanupDatabase.main c) = Ok tt /\
  questions (store (snd (CleanupDatabase.main c))) = [stray].
Proof.
  vm_compute. split; [reflexivity|]. split; [|split; [now left|split; reflexivity]].
  intros H. repeat (destruct H as [H|H]; [discriminate H|]). exact H.
Qed.

(** C3, amended: the cleanup removes every Question whose module is not
    one of the valid modules, or whose topic is not one of the valid
    topics, or whose text contains "sample" in any letter case, together
    with its Options and the Attempts on them, and removes no other
    Question: a Question of a valid module and topic stays exactly when
    its text does not contain "sample". *)
Theorem cleanup_removes_invalid_and_sample_questions (c : Conn) :
  NoDup (map q_id (questions (store c))) -> faults c = [] ->
  let c' := snd (CleanupDatabase.main c) in
  fst (CleanupDatabase.main c) = Ok tt /\
  store c' = cleaned (store c) /\
  (forall q, In q (questions (store c')) <->
             In q (questions (store c)) /\ CleanupDatabase.is_invalid q = false) /\
  (forall q, CleanupDatabase.is_invalid q = false <->
             arr_includes CleanupDatabase.validModules (q_module_id q) = true /\
             arr_includes CleanupDatabase.validTopics
                          (CleanupDatabase.or_empty (q_topic q)) = true /\
             str_includes (toLowerCase (CleanupDatabase.or_empty (q_text q)))
                          "sample" = false).
Proof.
  intros Hnd Hf. destruct c as [s tx fs e]. simpl in Hnd, Hf. subst fs.
  cbv zeta. rewrite nf_cleanup by assumption. simpl.
  split; [reflexivity|]. split; [reflexivity|]. split.
  - intros q. rewrite filter_In. now rewrite negb_true_iff.
  - intros q. unfold CleanupDatabase.is_invalid.
    rewrite !orb_false_iff, !negb_false_iff. tauto.
Qed.

Lemma cleanup_removes_invalid_and_sample_questions_example :
  let c := mkConn mixed_store None [] [] in
  let c' := snd (CleanupDatabase.main c) in
  fst (CleanupDatabase.main c) = Ok tt /\
  store c' = cleaned (store c) /\
  (forall q, In q (questions (store c')) <->
             In q (questions (store c)) /\ CleanupDatabase.is_invalid q = false) /\
  (forall q, CleanupDatabase.is_invalid q = false <->
             arr_includes CleanupDatabase.validModules (q_module_id q) = true /\
             arr_includes CleanupDatabase.validTopics
                          (CleanupDatabase.or_empty (q_topic q)) = true /\
             str_includes (toLowerCase (CleanupDatabase.or_empty (q_text q)))
                          "sample" = false).
Proof.
  apply (cleanup_removes_invalid_and_sample_questions
           (mkConn mixed_store None [] [])).
  - simpl. repeat constructor; simpl; intuition discriminate.
  - reflexivity.
Defined.

(* ===================================================================== *)
(** * Transactions and batches *)
(* ===================================================================== *)




(** C8: the batch size does not affect what a run without rejected
    statements stores or returns.  For every [batchSize >= 1], the batched
    loop of import.ts is the loop over the records one by one (on every
    connection), and [importQuestions] of import-module.js on a connection
    that rejects nothing ends with the same result, the same rows in the
    same order and the same warnings as with batches of one record. *)
Theorem batch_size_is_irrelevant
        (m t : string) (data : list MCQQuestion) (batchSize : nat) :
  (1 <= batchSize)%nat ->
  (forall c,
      ImportTs.importQuestions_with batchSize m t data c
      = for_acc data (ImportTs.import_item m t) 0%nat c /\
      ImportTs.importQuestions_with batchSize m t data c
      = ImportTs.importQuestions_with 1 m t data c) /\
  (forall s tx e,
      ImportModuleJs.importQuestions m t data batchSize (mkConn s tx [] e)
      = ImportModuleJs.importQuestions m t data 1 (mkConn s tx [] e) /\
      fst (ImportModuleJs.importQuestions m t data batchSize (mkConn s tx [] e))
      = Ok (List.length data) /\
      store (snd (ImportModuleJs.importQuestions m t data batchSize
                    (mkConn s tx [] e)))
      = add_records m (toUpperCase t) data (clear m (toUpperCase t) s)).
Proof.
  intros Hb. split.
  - intros c. unfold ImportTs.importQuestions_with.
    rewrite !for_batches_flat by (assumption || lia). auto.
  - intros s tx e. rewrite !nf_importQuestions_js by (assumption || lia).
    auto.
Qed.

Lemma batch_size_is_irrelevant_example :
  (forall c,
      ImportTs.importQuestions_with 5 "focs" "FOCS2" sample_records c
      = for_acc sample_records (ImportTs.import_item "focs" "FOCS2") 0%nat c /\
      ImportTs.importQuestions_with 5 "focs" "FOCS2" sample_records c
      = ImportTs.importQuestions_with 1 "focs" "FOCS2" sample_records c) /\
  (forall s tx e,
      ImportModuleJs.importQuestions "focs" "FOCS2" sample_records 5
                                     (mkConn s tx [] e)
      = ImportModuleJs.importQuestions "focs" "FOCS2" sample_records 1
                                       (mkConn s tx [] e) /\
      fst (ImportModuleJs.importQuestions "focs" "FOCS2" sample_records 5
                                          (mkConn s tx [] e))
      = Ok (List.length sample_records) /\
      store (snd (ImportModuleJs.importQuestions "focs" "FOCS2" sample_records 5
                    (mkConn s tx [] e)))
      = add_records "focs" (toUpperCase "FOCS2") sample_records
                    (clear "focs" (toUpperCase "FOCS2") s)).
Proof.
  apply (batch_size_is_irrelevant "focs" "FOCS2" sample_records 5). lia.
Defined.

(* ===================================================================== *)
(** * Further properties of the scripts *)
(* ===================================================================== *)

(** ** The cleanup script: what it keeps *)

Lemma cleaned_no_invalid (s : Store) :
  filter CleanupDatabase.is_invalid (questions (cleaned s)) = [].
Proof.
  unfold cleaned. simpl. rewrite filter_twice. apply filter_nothing.
  intros q _. now destruct (CleanupDatabase.is_invalid q).
Qed.

Lemma wf_cleaned (s : Store) : wf s -> wf (cleaned s).
Proof.
  intros (Hnd & Hlt & Hfk). unfold wf, cleaned. simpl. repeat split.
  - now apply NoDup_map_filter.
  - intros q Hq. apply filter_In in Hq. now apply Hlt.
  - intros o Ho. apply filter_In in Ho. destruct Ho as [Ho Hk].
    apply negb_true_iff, in_ids_false in Hk.
    apply Hfk in Ho. apply in_map_iff in Ho. destruct Ho as [q [E Hq]].
    apply in_map_iff. exists q. split; [assumption|].
    apply filter_In. split; [assumption|].
    apply negb_true_iff.
    destruct (CleanupDatabase.is_invalid q) eqn:Hi; [|reflexivity].
    exfalso. apply Hk. rewrite <- E. apply in_map.
    apply filter_In. now split.
Qed.

Lemma attempts_resolved_cleaned (s : Store) :
  attempts_resolved s -> attempts_resolved (cleaned s).
Proof.
  intros Hres a Ha. unfold cleaned in Ha. simpl in Ha.
  apply filter_In in Ha. destruct Ha as [Ha Hk].
  apply andb_true_iff in Hk. destruct Hk as [Hopt Hq].
  apply negb_true_iff in Hopt. apply negb_true_iff in Hq.
  destruct (Hres a Ha) as [Hrq Hro]. split.
  - intros qid E. rewrite E in Hq. simpl in Hq. apply in_ids_false in Hq.
    specialize (Hrq qid E). apply in_map_iff in Hrq.
    destruct Hrq as [q [Eq Hin]].
    unfold cleaned. simpl. apply in_map_iff. exists q.
    split; [assumption|]. apply filter_In. split; [assumption|].
    apply negb_true_iff.
    destruct (CleanupDatabase.is_invalid q) eqn:Hi; [|reflexivity].
    exfalso. apply Hq. rewrite <- Eq. apply in_map.
    apply filter_In. now split.
  - intros oid E. rewrite E in Hopt. simpl in Hopt. apply in_ids_false in Hopt.
    specialize (Hro oid E). apply in_map_iff in Hro.
    destruct Hro as [o [Eo Hin]].
    unfold cleaned. simpl. apply in_map_iff. exists o.
    split; [assumption|]. apply filter_In. split; [assumption|].
    apply negb_true_iff.
    destruct (in_ids (map q_id (filter CleanupDatabase.is_invalid (questions s)))
                     (o_question_id o)) eqn:Hb; [|reflexivity].
    exfalso. apply Hopt. rewrite <- Eo. apply in_map.
    apply filter_In. now split.
Qed.

(** X1: the cleanup script keeps referential integrity.  On a well-formed
    store whose attempts all refer to existing questions and options, a
    run of [main] with no statement rejected leaves a well-formed store in
    which every remaining attempt still refers to an existing question and
    an existing option: the attempts on the removed rows go with them. *)
Theorem cleanup_keeps_references (c : Conn) :
  wf (store c) -> attempts_resolved (store c) -> faults c = [] ->
  let s' := store (snd (CleanupDatabase.main c)) in
  fst (CleanupDatabase.main c) = Ok tt /\
  wf s' /\ attempts_resolved s' /\
  (forall a, In a (attempts s') -> In a (attempts (store c))).
Proof.
  intros Hwf Hres Hf. destruct c as [s tx fs e]. simpl in Hwf, Hres, Hf.
  subst fs. cbv zeta.
  rewrite nf_cleanup by apply Hwf. simpl.
  split; [reflexivity|]. split; [now apply wf_cleaned|].
  split; [now apply attempts_resolved_cleaned|].
  intros a Ha. unfold cleaned in Ha. simpl in Ha.
  now apply filter_In in Ha.
Qed.

Lemma mixed_store_wf : wf mixed_store.
Proof.
  unfold wf. simpl. repeat split.
  - repeat constructor; simpl; intuition discriminate.
  - intros q [<-|[<-|[]]]; simpl; lia.
  - intros o [<-|[<-|[]]]; simpl; tauto.
Qed.

Lemma mixed_store_resolved : attempts_resolved mixed_store.
Proof.
  intros a [<-|[<-|[]]]; simpl; split; intros x E; inversion E; tauto.
Qed.

Lemma cleanup_keeps_references_example :
  let c := mkConn mixed_store None [] [] in
  let s' := store (snd (CleanupDatabase.main c)) in
  fst (CleanupDatabase.main c) = Ok tt /\
  wf s' /\ attempts_resolved s' /\
  (forall a, In a (attempts s') -> In a (attempts (store c))).
Proof.
  apply (cleanup_keeps_references (mkConn mixed_store None [] [])).
  - exact mixed_store_wf.
  - exact mixed_store_resolved.
  - reflexivity.
Defined.


(** X2: the cleanup script is idempotent.  After a run with no statement
    rejected, a second run finds no invalid question, returns at once and
    leaves the connection exactly as the first run left it. *)
Theorem cleanup_twice_is_cleanup_once (c : Conn) :
  NoDup (map q_id (questions (store c))) -> faults c = [] ->
  let c1 := snd (CleanupDatabase.main c) in
  CleanupDatabase.main c1 = (Ok tt, c1).
Proof.
  intros Hnd Hf. destruct c as [s tx fs e]. simpl in Hnd, Hf. subst fs.
  cbv zeta. rewrite nf_cleanup by assumption. simpl snd.
  rewrite nf_cleanup.
  - rewrite cleaned_nothing; [reflexivity|apply cleaned_no_invalid].
  - unfold cleaned. simpl. now apply NoDup_map_filter.
Qed.

Lemma cleanup_twice_is_cleanup_once_example :
  let c1 := snd (CleanupDatabase.main (mkConn mixed_store None [] [])) in
  CleanupDatabase.main c1 = (Ok tt, c1).
Proof.
  apply (cleanup_twice_is_cleanup_once (mkConn mixed_store None [] [])).
  - apply mixed_store_wf.
  - reflexivity.
Defined.


(** ** The cleanup script under rejected statements *)

Lemma spared_refl (s : Store) : spared_by_cleanup s s.
Proof. unfold spared_by_cleanup. repeat split; auto using incl_refl. Qed.

Lemma spared_delete_attempts (s0 s : Store) (p : Attempt -> bool) :
  (forall a, In a (attempts s0) -> p a = true ->
             in_ids_opt
               (map o_id
                  (filter (fun o =>
                             in_ids (map q_id (filter CleanupDatabase.is_invalid
                                                      (questions s0)))
                                    (o_question_id o)) (options s0)))
               (a_selected_option_id a) = true
             \/ in_ids_opt (map q_id (filter CleanupDatabase.is_invalid
                                             (questions s0)))
                           (a_question_id a) = true) ->
  spared_by_cleanup s0 s ->
  spared_by_cleanup s0 (snd (delete_attempts p s)).
Proof.
  intros Hp (Hq & Ho & Ha & Iq & Io & Ia & Sq & So).
  unfold spared_by_cleanup. simpl. repeat split; auto.
  - intros a Hin H1 H2. apply filter_In. split; [now apply Ha|].
    apply negb_true_iff. destruct (p a) eqn:E; [|reflexivity].
    destruct (Hp a Hin E); congruence.
  - intros a Hin. apply filter_In in Hin. now apply Ia.
Qed.

Lemma spared_delete_options (s0 s : Store) (qid : Z) :
  In qid (map q_id (filter CleanupDatabase.is_invalid (questions s0))) ->
  spared_by_cleanup s0 s ->
  spared_by_cleanup s0
    (snd (delete_options (fun o => Z.eqb (o_question_id o) qid) s)).
Proof.
  intros Hbad (Hq & Ho & Ha & Iq & Io & Ia & Sq & So).
  unfold spared_by_cleanup. simpl. repeat split; auto.
  - intros o Hin Hk. apply filter_In. split; [now apply Ho|].
    apply negb_true_iff, Z.eqb_neq. intros E.
    apply in_ids_false in Hk. apply Hk. now rewrite E.
  - intros o Hin. apply filter_In in Hin. now apply Io.
Qed.

Lemma spared_delete_questions (s0 s : Store) (qid : Z) :
  NoDup (map q_id (questions s0)) ->
  In qid (map q_id (filter CleanupDatabase.is_invalid (questions s0))) ->
  spared_by_cleanup s0 s ->
  spared_by_cleanup s0 (snd (delete_questions (fun q => Z.eqb (q_id q) qid) s)).
Proof.
  intros Hnd Hbad (Hq & Ho & Ha & Iq & Io & Ia & Sq & So).
  unfold spared_by_cleanup. simpl. repeat split; auto.
  - intros q Hin Hv. apply filter_In. split; [now apply Hq|].
    apply negb_true_iff, Z.eqb_neq. intros E.
    apply in_map_iff in Hbad. destruct Hbad as [q' [E' Hq']].
    apply filter_In in Hq'. destruct Hq' as [Hq' Hi].
    assert (q' = q) by (eapply NoDup_map_inj; eauto; congruence).
    subst. congruence.
  - intros q Hin. apply filter_In in Hin. now apply Iq.
Qed.

Lemma spared_by_cleanup_main (s0 : Store) :
  NoDup (map q_id (questions s0)) ->
  hoare (fun s _ => s = s0) CleanupDatabase.main
        (fun _ s _ => spared_by_cleanup s0 s).
Proof.
  intros Hnd. unfold CleanupDatabase.main.
  set (bad := map q_id (filter CleanupDatabase.is_invalid (questions s0))).
  eapply hoare_bind with
    (Q := fun r s _ =>
            s = s0 /\
            match r with Ok qs => qs = questions s0 | Thrown => True end).
  - apply hoare_query; intros s tx ->; [auto|]. simpl. split; [reflexivity|].
    now apply filter_all.
  - intros qs. apply hoare_conseq with
      (P' := fun s tx => qs = questions s0 /\ (fun s (_ : option Store) => s = s0) s tx)
      (Q' := fun (_ : result unit) s (_ : option Store) => spared_by_cleanup s0 s);
      [|tauto|auto].
    apply hoare_assume. intros ->. fold bad.
    destruct (List.length (filter CleanupDatabase.is_invalid (questions s0)) =? 0)%nat.
    + apply hoare_ret. intros s tx ->. apply spared_refl.
    + eapply hoare_bind with
        (Q := fun r s _ =>
                s = s0 /\
                match r with
                | Ok os => os = filter (fun o => in_ids bad (o_question_id o))
                                       (options s0)
                | Thrown => True
                end).
      * apply hoare_query; intros s tx ->; auto.
      * intros os. apply hoare_conseq with
          (P' := fun s tx =>
                   os = filter (fun o => in_ids bad (o_question_id o)) (options s0)
                   /\ (fun s (_ : option Store) => s = s0) s tx)
          (Q' := fun (_ : result unit) s (_ : option Store) =>
                   spared_by_cleanup s0 s);
          [|tauto|auto].
        apply hoare_assume. intros ->.
        eapply hoare_bind with (Q := fun _ s _ => spared_by_cleanup s0 s).
        -- destruct (0 <? _)%nat.
           ++ apply hoare_query; intros s tx ->; [apply spared_refl|].
              apply spared_delete_attempts; [|apply spared_refl].
              intros att _ Hp. now left.
           ++ apply hoare_ret. intros s tx ->. apply spared_refl.
        -- intros ?.
           eapply hoare_bind with (Q := fun _ s _ => spared_by_cleanup s0 s).
           ++ apply hoare_query; [auto|]. intros s tx H.
              apply spared_delete_attempts; [|assumption].
              intros att _ Hp. now right.
           ++ intros ?.
              eapply hoare_bind with (Q := fun _ s _ => spared_by_cleanup s0 s).
              ** eapply hoare_conseq.
                 --- apply (hoare_for_of _ (fun s _ => spared_by_cleanup s0 s)
                              (fun s _ => spared_by_cleanup s0 s)).
                     intros qid Hqid. apply hoare_query; [auto|].
                     intros s tx H. now apply spared_delete_options.
                 --- auto.
                 --- intros [[]|]; auto.
              ** intros ?.
                 eapply hoare_bind with
                   (Q := fun _ s _ => spared_by_cleanup s0 s).
                 --- eapply hoare_conseq.
                     +++ apply (hoare_for_of _
                                  (fun s _ => spared_by_cleanup s0 s)
                                  (fun s _ => spared_by_cleanup s0 s)).
                         intros qid Hqid. apply hoare_query; [auto|].
                         intros s tx H. now apply spared_delete_questions.
                     +++ auto.
                     +++ intros [[]|]; auto.
                 --- intros ?.
                     eapply hoare_bind with
                       (Q := fun _ s _ => spared_by_cleanup s0 s).
                     +++ apply hoare_query; auto.
                     +++ intros ?. apply hoare_ret. auto.
                     +++ auto.
                 --- auto.
              ** auto.
           ++ auto.
        -- auto.
      * intros s tx [-> _]. apply spared_refl.
  - intros s tx [-> _]. apply spared_refl.
Qed.

(** X3: whatever statements are rejected, the cleanup script never deletes
    a question that is not invalid, an option of such a question, or an
    attempt that refers to no invalid question and to none of their
    options; it adds no row and draws no id. *)
Theorem cleanup_spares_valid_rows (c : Conn) :
  NoDup (map q_id (questions (store c))) ->
  spared_by_cleanup (store c) (store (snd (CleanupDatabase.main c))).
Proof.
  intros Hnd. exact (spared_by_cleanup_main (store c) Hnd c eq_refl).
Qed.

Lemma cleanup_spares_valid_rows_example :
  spared_by_cleanup (store mixed_reject_fifth)
                    (store (snd (CleanupDatabase.main mixed_reject_fifth))).
Proof.
  apply (cleanup_spares_valid_rows mixed_reject_fifth).
  apply mixed_store_wf.
Defined.


(** ** import.ts under rejected statements *)

(** X4: [importQuestions] of import.ts never throws: a rejected statement
    costs the record it belongs to and the loop goes on.  The number it
    returns is at most the number of records that pass validation, every
    record it counts has its question row in the store, and at most one
    question row per passing record is added. *)
Theorem import_never_throws
        (m t : string) (data : list MCQQuestion) (c : Conn) :
  exists n,
    fst (ImportTs.importQuestions m t data c) = Ok n /\
    (n <= passing data)%nat /\
    (List.length (questions (store c)) + n
     <= List.length (questions (store (snd (ImportTs.importQuestions m t data c))))
     <= List.length (questions (store c)) + passing data)%nat.
Proof.
  exact (count_importQuestions m t data (List.length (questions (store c)))
                               c eq_refl).
Qed.

Lemma only_lost_refl m t s : only_partition_options_lost m t s s.
Proof.
  unfold only_partition_options_lost. repeat split; auto using incl_refl.
Qed.

Lemma only_lost_delete_options m t s0 s q :
  In q (partition m t s0) ->
  only_partition_options_lost m t s0 s ->
  only_partition_options_lost m t s0
    (snd (delete_options (fun o => Z.eqb (o_question_id o) (q_id q)) s)).
Proof.
  intros Hq (Hqs & Ha & Hs1 & Hs2 & Hi & Hk).
  unfold only_partition_options_lost. simpl.
  split; [assumption|]. split; [assumption|].
  split; [assumption|]. split; [assumption|]. split.
  - intros o Ho. apply filter_In in Ho. apply Hi, Ho.
  - intros o Ho Hn. apply filter_In. split; [now apply Hk|].
    apply negb_true_iff, Z.eqb_neq. now apply Hn.
Qed.

(** The delete phase of import.ts, however it ends: only options of the
    partition are lost unless it ends well. *)
Lemma failed_deleteExistingQuestions m t s0 :
  hoare (fun s _ => s = s0)
        (ImportTs.deleteExistingQuestions m t)
        (fun r s _ =>
           match r with
           | Ok _ => True
           | Thrown => only_partition_options_lost m t s0 s
           end).
Proof.
  unfold ImportTs.deleteExistingQuestions.
  eapply hoare_bind with
    (Q := fun (r : result (list Question)) s (_ : option Store) =>
            match r with
            | Ok l => s = s0 /\ l = partition m t s0
            | Thrown => only_partition_options_lost m t s0 s
            end).
  - apply hoare_query.
    + intros s tx ->. apply only_lost_refl.
    + intros s tx ->. simpl. auto.
  - intros l. destruct (List.length l =? 0)%nat.
    + apply hoare_ret. auto.
    + eapply hoare_conseq with
        (P' := fun s (_ : option Store) =>
                 l = partition m t s0 /\ only_partition_options_lost m t s0 s)
        (Q' := fun (r : result nat) s (_ : option Store) =>
                 match r with
                 | Ok _ => True
                 | Thrown => only_partition_options_lost m t s0 s
                 end).
      * apply hoare_assume. intros ->.
        eapply hoare_bind with
          (Q := fun (r : result unit) s (_ : option Store) =>
                  only_partition_options_lost m t s0 s).
        -- eapply hoare_conseq.
           ++ apply (hoare_for_of _
                       (fun s (_ : option Store) =>
                          only_partition_options_lost m t s0 s)
                       (fun s (_ : option Store) =>
                          only_partition_options_lost m t s0 s)).
              intros q Hq. apply hoare_query; [auto|].
              intros s tx H. now apply only_lost_delete_options.
           ++ auto.
           ++ intros [[]|]; auto.
        -- intros ?.
           eapply hoare_bind with
             (Q := fun (r : result unit) s (_ : option Store) =>
                     match r with
                     | Ok _ => True
                     | Thrown => only_partition_options_lost m t s0 s
                     end).
           ++ apply hoare_query; auto.
           ++ intros ?. apply hoare_ret. auto.
           ++ auto.
        -- auto.
      * intros s tx [-> ->]. split; [reflexivity|apply only_lost_refl].
      * auto.
  - auto.
Qed.

(** X5: when [processModule] of import.ts ends with an exception, it is
    the delete phase that failed, before any insert: the questions table,
    the attempts and both sequences are as before the run, no option row
    is new, and the only option rows that can be missing are those of the
    questions of the partition.  So a failed reseed leaves the old
    questions of the partition in place, some of them without options. *)
Theorem failed_reseed_keeps_questions
        (m t : string) (data : list MCQQuestion) (c : Conn) :
  fst (ImportTs.processModule m t data c) = Thrown ->
  only_partition_options_lost m t (store c)
    (store (snd (ImportTs.processModule m t data c))).
Proof.
  unfold ImportTs.processModule.
  destruct (List.length data =? 0)%nat.
  - unfold bind, console_error, console_warn, ret. simpl. discriminate.
  - pose proof (failed_deleteExistingQuestions m t (store c) c eq_refl) as Hd.
    unfold bind.
    destruct (ImportTs.deleteExistingQuestions m t c) as [[n|] c1]; simpl in Hd.
    + destruct (count_importQuestions m t data _ c1 eq_refl) as (k & E & _).
      destruct (ImportTs.importQuestions m t data c1) as [r c2].
      simpl in E. subst r. simpl. discriminate.
    + simpl. intros _. exact Hd.
Qed.

Lemma failed_reseed_keeps_questions_example :
  fst (ImportTs.processModule "focs" "FOCS2" sample_records reject_second)
  = Thrown /\
  only_partition_options_lost "focs" "FOCS2" (store reject_second)
    (store (snd (ImportTs.processModule "focs" "FOCS2" sample_records
                                        reject_second))).
Proof.
  split; [reflexivity|].
  apply (failed_reseed_keeps_questions "focs" "FOCS2" sample_records
                                       reject_second).
  reflexivity.
Defined.

(** ** A reseed of import.ts that returns *)

(** The delete phase, when it returns, has cleared the partition. *)
Lemma completed_deleteExistingQuestions m t s0 :
  hoare (fun s _ => s = s0)
        (ImportTs.deleteExistingQuestions m t)
        (fun r s _ =>
           match r with
           | Ok _ => s = clear m t s0
           | Thrown => True
           end).
Proof.
  unfold ImportTs.deleteExistingQuestions.
  eapply hoare_bind with
    (Q := fun (r : result (list Question)) s (_ : option Store) =>
            match r with
            | Ok l => l = partition m t s0 /\ s = s0
            | Thrown => True
            end).
  - apply hoare_query; [auto|]. intros s tx ->. simpl. auto.
  - intros l. apply hoare_assume. intros ->.
    destruct (List.length (partition m t s0) =? 0)%nat eqn:Hn.
    + apply hoare_ret. intros s tx ->.
      apply Nat.eqb_eq, length_zero_iff_nil in Hn.
      now rewrite clear_nothing.
    + eapply hoare_bind with
        (Q := fun (r : result unit) s (_ : option Store) =>
                match r with
                | Ok _ => s = without_options_of
                                (map q_id (partition m t s0)) s0
                | Thrown => True
                end).
      * eapply hoare_conseq.
        -- apply (hoare_for_of_visited _
                    (fun done s (_ : option Store) =>
                       s = without_options_of (map q_id done) s0)
                    (fun _ _ => True) _ (partition m t s0) []).
           intros done x _. apply hoare_query; [auto|].
           intros s tx ->.
           unfold without_options_of, delete_options, set_options. simpl.
           rewrite filter_twice. f_equal.
           apply filter_same. intros o _.
           rewrite map_app. unfold in_ids. rewrite existsb_app. simpl.
           rewrite orb_false_r, negb_orb. reflexivity.
        -- intros s tx ->. unfold without_options_of. simpl.
           rewrite filter_all by reflexivity. now destruct s0.
        -- intros [[]|] s tx; auto.
      * intros ?.
        eapply hoare_bind with
          (Q := fun (r : result unit) s (_ : option Store) =>
                  match r with
                  | Ok _ => s = clear m t s0
                  | Thrown => True
                  end).
        -- apply hoare_query; [auto|]. intros s tx ->. reflexivity.
        -- intros ?. apply hoare_ret. auto.
        -- auto.
      * auto.
  - auto.
Qed.

Lemma appended_refl m t s : appended_to m t s s.
Proof.
  exists []. rewrite app_nil_r. split; [reflexivity|].
  split; [constructor|lia].
Qed.

Lemma appended_insert_question m t s1 s text slide :
  appended_to m t s1 s ->
  appended_to m t s1
    (snd (insert_question (mkQuestionValues m (Some t) text 2 slide None) s)).
Proof.
  intros (added & Hq & Hall & Hseq). simpl.
  exists (added ++ [mkQuestion (question_seq s) m (Some t) text 2 slide None]).
  split; [now rewrite Hq, app_assoc|]. split; [|cbn [question_seq]; lia].
  apply Forall_app. split; [assumption|].
  constructor; [|constructor]. simpl. split; [|assumption].
  unfold in_partition. simpl. now rewrite !String.eqb_refl.
Qed.

Lemma appended_import_item m t s1 item n :
  keeps (fun s _ => appended_to m t s1 s) (ImportTs.import_item m t item n).
Proof.
  unfold ImportTs.import_item.
  apply keeps_try_catch.
  - destruct (invalid item).
    + apply keeps_bind; [apply keeps_console|intros; apply keeps_ret].
    + apply keeps_bind.
      * apply hoare_query; [auto|]. intros s tx H.
        now apply appended_insert_question.
      * intros q. apply keeps_bind; [|intros; apply keeps_ret].
        apply keeps_for_index. intros j text.
        apply hoare_query; auto.
  - apply keeps_bind; [apply keeps_console_error|intros; apply keeps_ret].
Qed.

Lemma appended_importQuestions m t s1 data (c : Conn) :
  appended_to m t s1 (store c) ->
  appended_to m t s1 (store (snd (ImportTs.importQuestions m t data c))).
Proof.
  intros H. unfold ImportTs.importQuestions, ImportTs.importQuestions_with.
  apply (keeps_for_batches _ _ (fun s (_ : option Store) => appended_to m t s1 s)
           data (ImportTs.import_item m t) 5); [|exact H].
  intros item n. apply appended_import_item.
Qed.

(** X15: when [processModule] of import.ts returns on a non-empty array,
    whichever statements were rejected on the way, nothing of the old
    partition is left: the questions table is the old one without the
    questions of the partition, followed by the questions of this run,
    which make up the partition; they are at most as many as the records
    that pass the validation and their ids are drawn from the sequence. *)
Theorem completed_reseed_replaces_partition
        (m t : string) (data : list MCQQuestion) (c : Conn) :
  data <> [] ->
  fst (ImportTs.processModule m t data c) = Ok tt ->
  let s' := store (snd (ImportTs.processModule m t data c)) in
  exists added,
    questions s'
    = filter (fun q => negb (in_partition m t q)) (questions (store c))
      ++ added /\
    partition m t s' = added /\
    (List.length added <= passing data)%nat /\
    Forall (fun q => (question_seq (store c) <= q_id q)%Z) added.
Proof.
  intros Hne. unfold ImportTs.processModule.
  destruct data as [|d0 dr] eqn:Hd; [congruence|]. rewrite <- Hd in *.
  assert (Hlen : (List.length data =? 0)%nat = false) by now rewrite Hd.
  rewrite Hlen. clear Hlen Hd d0 dr Hne.
  pose proof (completed_deleteExistingQuestions m t (store c) c eq_refl) as Hdel.
  unfold bind.
  destruct (ImportTs.deleteExistingQuestions m t c) as [[n|] c1];
    simpl in Hdel; [|discriminate].
  pose proof (count_importQuestions m t data _ c1 eq_refl) as (k & _ & _ & Hcnt).
  pose proof (appended_importQuestions m t (store c1) data c1
                (appended_refl m t (store c1))) as Happ.
  destruct (ImportTs.importQuestions m t data c1) as [[k'|] c2];
    simpl in *; [|discriminate].
  intros _. destruct Happ as (added & Hq & Hall & _).
  rewrite Hdel in Hq, Hall, Hcnt. exists added.
  assert (Hold : questions (clear m t (store c))
                 = filter (fun q => negb (in_partition m t q))
                          (questions (store c))) by reflexivity.
  rewrite Hold in *.
  split; [exact Hq|]. split; [|split].
  - unfold partition. rewrite Hq, filter_app, filter_twice.
    rewrite filter_nothing
      by (intros q _; now destruct (in_partition m t q)).
    simpl. apply filter_all. intros q Hin.
    rewrite Forall_forall in Hall. now apply Hall.
  - rewrite Hq, length_app in Hcnt. lia.
  - eapply Forall_impl; [|exact Hall]. simpl. tauto.
Qed.

Lemma completed_reseed_replaces_partition_example :
  let s' := store (snd (ImportTs.processModule "focs" "FOCS2" sample_records
                          reject_sixth)) in
  exists added,
    questions s'
    = filter (fun q => negb (in_partition "focs" "FOCS2" q))
             (questions (store reject_sixth))
      ++ added /\
    partition "focs" "FOCS2" s' = added /\
    (List.length added <= passing sample_records)%nat /\
    Forall (fun q => (question_seq (store reject_sixth) <= q_id q)%Z) added.
Proof.
  apply (completed_reseed_replaces_partition "focs" "FOCS2" sample_records
           reject_sixth).
  - discriminate.
  - reflexivity.
Defined.

(** ** server/scripts/importQuestions.ts under rejected statements *)

Lemma for_of_app (A : Type) (l1 l2 : list A) (body : A -> M unit) (c : Conn) :
  for_of (l1 ++ l2) body c = (for_of l1 body ;; for_of l2 body)%script c.
Proof.
  revert c. induction l1 as [|x r IH]; intros c; simpl.
  - unfold bind, ret. reflexivity.
  - unfold bind. destruct (body x c) as [[[]|] c1]; [|reflexivity].
    rewrite IH. reflexivity.
Qed.

(** A record without question text: whatever the database does, the
    iteration ends in the [catch] block, whose message reads the text
    again. *)
Lemma textless_import_item moduleId item (c : Conn) :
  question item = None ->
  fst (ServerImportQuestions.import_item moduleId item c) = Thrown.
Proof.
  intros Hq. unfold ServerImportQuestions.import_item, try_catch.
  rewrite Hq.
  match goal with
  | |- fst (let (r, c1) := ?body c in _) = _ =>
      assert (Hb : fst (body c) = Thrown); [|destruct (body c) as [[[]|] c1]]
  end.
  - unfold bind. destruct (query _ c) as [[q|] c1]; [|reflexivity].
    destruct (mcq_options item) as [opts|]; [|reflexivity].
    destruct (for_index 0 opts _ c1) as [[[]|] c2]; reflexivity.
  - discriminate Hb.
  - reflexivity.
Qed.

(** A record with a question text: the iteration never throws, its
    [catch] block logs and the loop goes on. *)
Lemma texted_import_item moduleId item text (c : Conn) :
  question item = Some text ->
  fst (ServerImportQuestions.import_item moduleId item c) = Ok tt.
Proof.
  intros Hq. unfold ServerImportQuestions.import_item, try_catch.
  rewrite Hq. unfold ServerImportQuestions.report.
  match goal with
  | |- fst (let (r, c1) := ?body c in _) = _ =>
      destruct (body c) as [[[]|] c1]; reflexivity
  end.
Qed.

Lemma texted_import moduleId (data : list MCQQuestion) :
  (forall item, In item data -> question item <> None) ->
  forall c, fst (for_of data (ServerImportQuestions.import_item moduleId) c)
            = Ok tt.
Proof.
  induction data as [|item rest IH]; intros Hall c; simpl; [reflexivity|].
  unfold bind.
  destruct (question item) as [text|] eqn:Hq;
    [|exfalso; apply (Hall item); [now left|assumption]].
  pose proof (texted_import_item moduleId item text c Hq) as Hi.
  destruct (ServerImportQuestions.import_item moduleId item c) as [r c1].
  simpl in Hi. subst r. apply IH. intros x Hx. apply Hall. now right.
Qed.

Lemma textless_or_all_texted (data : list MCQQuestion) :
  (exists item, In item data /\ question item = None) \/
  (forall item, In item data -> question item <> None).
Proof.
  induction data as [|x r [[item [Hin Hq]]|Hall]].
  - right. intros item [].
  - left. exists item. split; [now right|assumption].
  - destruct (question x) eqn:Hx.
    + right. intros item [<-|Hin]; [congruence|now apply Hall].
    + left. exists x. split; [now left|assumption].
Qed.

Lemma textless_cut moduleId before item rest (c : Conn) :
  question item = None ->
  for_of (before ++ item :: rest)
         (ServerImportQuestions.import_item moduleId) c
  = match for_of before (ServerImportQuestions.import_item moduleId) c with
    | (Ok _, c1) =>
        (Thrown, snd (ServerImportQuestions.import_item moduleId item c1))
    | (Thrown, c1) => (Thrown, c1)
    end.
Proof.
  intros Hq. rewrite for_of_app. unfold bind.
  destruct (for_of before _ c) as [[[]|] c1]; [|reflexivity].
  simpl. unfold bind.
  pose proof (textless_import_item moduleId item c1 Hq) as Ht.
  destruct (ServerImportQuestions.import_item moduleId item c1) as [r c2].
  simpl in Ht. subst r. reflexivity.
Qed.

(** X6: the server import ends with an exception exactly when a record
    has no question text, whatever statements are accepted or rejected:
    every other failure is logged and the loop goes on.  The records after
    a record without text are never reached: the run is the one on the
    array cut after that record. *)
Theorem textless_record_aborts_import
        (moduleId : string) (data : list MCQQuestion) (c : Conn) :
  (fst (ServerImportQuestions.importQuestions moduleId data c) = Thrown <->
   exists item, In item data /\ question item = None) /\
  (forall before item after,
      data = before ++ item :: after -> question item = None ->
      ServerImportQuestions.importQuestions moduleId data c
      = ServerImportQuestions.importQuestions moduleId (before ++ [item]) c).
Proof.
  unfold ServerImportQuestions.importQuestions. split; [split|].
  - intros Ht.
    destruct (textless_or_all_texted data) as [Hex|Hall]; [exact Hex|].
    rewrite texted_import in Ht by assumption. discriminate.
  - intros [item [Hin Hq]]. apply in_split in Hin.
    destruct Hin as [before [after ->]].
    rewrite (textless_cut moduleId before item after c Hq).
    destruct (for_of before _ c) as [[[]|] c1]; reflexivity.
  - intros before item after -> Hq.
    rewrite (textless_cut moduleId before item after c Hq).
    rewrite (textless_cut moduleId before item [] c Hq). reflexivity.
Qed.

Lemma textless_record_aborts_import_example :
  fst (ServerImportQuestions.importQuestions "focs"
         [valid_sample_record; textless_record; valid_sample_record]
         sample_conn) = Thrown /\
  ServerImportQuestions.importQuestions "focs"
    [valid_sample_record; textless_record; valid_sample_record] sample_conn
  = ServerImportQuestions.importQuestions "focs"
      ([valid_sample_record] ++ [textless_record]) sample_conn.
Proof.
  pose proof (textless_record_aborts_import "focs"
                [valid_sample_record; textless_record; valid_sample_record]
                sample_conn) as [Hiff Hcut].
  split.
  - apply Hiff. exists textless_record. split; [right; now left|reflexivity].
  - apply (Hcut [valid_sample_record] textless_record [valid_sample_record]);
      reflexivity.
Defined.

(** The delete loop of [clearModuleQuestions], stopped anywhere. *)
Lemma clear_module_run moduleId (s0 : Store) :
  hoare (fun s _ => s = s0)
        (ServerImportQuestions.clearModuleQuestions moduleId)
        (fun r s _ =>
           match r with
           | Ok _ => s = module_cleared moduleId s0
           | Thrown =>
               exists done,
                 incl done (filter (fun q => String.eqb (q_module_id q) moduleId)
                                   (questions s0)) /\
                 s = without_options_of (map q_id done) s0
           end).
Proof.
  unfold ServerImportQuestions.clearModuleQuestions.
  set (mine := filter (fun q => String.eqb (q_module_id q) moduleId)
                      (questions s0)).
  set (E := fun s (_ : option Store) =>
              exists done, incl done mine /\
                           s = without_options_of (map q_id done) s0).
  assert (Hnil : without_options_of (map q_id []) s0 = s0).
  { unfold without_options_of. simpl. rewrite filter_all by reflexivity.
    now destruct s0. }
  eapply hoare_bind with
    (Q := fun (r : result (list Question)) s tx =>
            match r with
            | Ok l => l = mine /\ s = s0
            | Thrown => E s tx
            end).
  - apply hoare_query.
    + intros s tx ->. exists []. split; [apply incl_nil_l|now rewrite Hnil].
    + intros s tx ->. simpl. auto.
  - intros l. apply hoare_assume. intros ->.
    eapply hoare_bind with
      (Q := fun (r : result unit) s tx =>
              match r with
              | Ok _ => s = without_options_of (map q_id mine) s0
              | Thrown => E s tx
              end).
    + eapply hoare_conseq.
      * apply (hoare_for_of_visited _
                 (fun done s (_ : option Store) =>
                    incl done mine /\
                    s = without_options_of (map q_id done) s0)
                 E _ mine []).
        intros done x [rest Hsplit]. simpl in Hsplit.
        apply hoare_query.
        -- intros s tx H. exists done. exact H.
        -- intros s tx [Hi ->]. split.
           ++ rewrite Hsplit. intros y Hy. apply in_app_or in Hy.
              apply in_or_app. destruct Hy as [Hy|[<-|[]]];
                [now left|right; now left].
           ++ unfold without_options_of, delete_options, set_options. simpl.
              rewrite filter_twice. f_equal.
              apply filter_same. intros o _.
              rewrite map_app. unfold in_ids. rewrite existsb_app. simpl.
              rewrite orb_false_r, negb_orb. reflexivity.
      * intros s tx ->. split; [apply incl_nil_l|now rewrite Hnil].
      * intros [[]|] s tx; simpl; [|auto]. now intros [_ ->].
    + intros ?.
      eapply hoare_bind with
        (Q := fun (r : result unit) s tx =>
                match r with
                | Ok _ => s = module_cleared moduleId s0
                | Thrown => E s tx
                end).
      * apply hoare_query.
        -- intros s tx ->. exists mine. split; [apply incl_refl|reflexivity].
        -- intros s tx ->. reflexivity.
      * intros ?. apply hoare_ret. auto.
      * auto.
    + auto.
  - auto.
Qed.

Lemma without_options_keeps (ids : list Z) (s0 : Store) (q : Question) :
  ~ In (q_id q) ids ->
  options_of (without_options_of ids s0) (q_id q) = options_of s0 (q_id q).
Proof.
  intros Hn. unfold options_of, without_options_of, set_options. simpl.
  rewrite filter_twice. apply filter_same. intros o _.
  destruct (Z.eqb (o_question_id o) (q_id q)) eqn:E.
  - apply Z.eqb_eq in E. rewrite E.
    apply in_ids_false in Hn. rewrite Hn. reflexivity.
  - apply andb_false_r.
Qed.

Lemma other_module_id (moduleId : string) (s0 : Store) (q : Question)
      (done : list Question) :
  NoDup (map q_id (questions s0)) ->
  In q (questions s0) -> q_module_id q <> moduleId ->
  incl done (filter (fun q => String.eqb (q_module_id q) moduleId)
                    (questions s0)) ->
  ~ In (q_id q) (map q_id done).
Proof.
  intros Hnd Hq Hm Hi Hin. apply in_map_iff in Hin.
  destruct Hin as [q' [E Hq']]. apply Hi in Hq'.
  apply filter_In in Hq'. destruct Hq' as [Hq' Hmod].
  apply String.eqb_eq in Hmod.
  assert (q' = q) by (eapply NoDup_map_inj; eauto).
  subst. contradiction.
Qed.

(** X7: [clearModuleQuestions] of the server script.  When it returns,
    the store is the old one without the questions of the module and
    without their options.  However the run ends, also when a statement is
    rejected, every question of another module is still there with exactly
    its options, no row is new and the attempts are untouched. *)
Theorem clear_module_spares_other_modules (moduleId : string) (c : Conn) :
  NoDup (map q_id (questions (store c))) ->
  let r := ServerImportQuestions.clearModuleQuestions moduleId c in
  (fst r = Ok tt -> store (snd r) = module_cleared moduleId (store c)) /\
  (forall q, In q (questions (store c)) -> q_module_id q <> moduleId ->
             In q (questions (store (snd r))) /\
             options_of (store (snd r)) (q_id q)
             = options_of (store c) (q_id q)) /\
  incl (questions (store (snd r))) (questions (store c)) /\
  incl (options (store (snd r))) (options (store c)) /\
  attempts (store (snd r)) = attempts (store c).
Proof.
  intros Hnd r. subst r.
  pose proof (clear_module_run moduleId (store c) c eq_refl) as H.
  destruct (ServerImportQuestions.clearModuleQuestions moduleId c)
    as [[[]|] c1]; simpl in *.
  - split; [intros _; exact H|]. rewrite H.
    unfold module_cleared, set_questions. simpl. split.
    + intros q Hq Hm. split.
      * apply filter_In. split; [assumption|].
        apply negb_true_iff, String.eqb_neq, Hm.
      * apply (without_options_keeps _ (store c) q).
        eapply other_module_id; eauto. apply incl_refl.
    + split; [intros q Hq; apply filter_In in Hq; tauto|].
      split; [intros o Ho; apply filter_In in Ho; tauto|reflexivity].
  - destruct H as (done & Hi & ->). split; [discriminate|].
    unfold without_options_of at 1 3 4 5, set_options. simpl. split.
    + intros q Hq Hm. split; [assumption|].
      apply (without_options_keeps _ (store c) q).
      eapply other_module_id; eauto.
    + split; [apply incl_refl|].
      split; [intros o Ho; apply filter_In in Ho; tauto|reflexivity].
Qed.

Lemma clear_module_spares_other_modules_example :
  let c := two_partition_reject_third in
  let r := ServerImportQuestions.clearModuleQuestions "focs" c in
  (fst r = Ok tt -> store (snd r) = module_cleared "focs" (store c)) /\
  (forall q, In q (questions (store c)) -> q_module_id q <> "focs"%string ->
             In q (questions (store (snd r))) /\
             options_of (store (snd r)) (q_id q)
             = options_of (store c) (q_id q)) /\
  incl (questions (store (snd r))) (questions (store c)) /\
  incl (options (store (snd r))) (options (store c)) /\
  attempts (store (snd r)) = attempts (store c).
Proof.
  apply (clear_module_spares_other_modules "focs" two_partition_reject_third).
  apply two_partition_store_wf.
Defined.

(** ** The direct SQL import of FOCS2 under rejected statements *)

Lemma spec_import_item_direct item n s1 T1 :
  hoare (fun s tx => s = s1 /\ tx = T1)
        (DirectSqlFocs2.import_item item n)
        (fun r s tx =>
           tx = T1 /\
           match r with
           | Ok _ => s = add_record "focs" "FOCS2" item s1
           | Thrown => True
           end).
Proof.
  unfold DirectSqlFocs2.import_item, add_record.
  destruct (invalid item).
  - eapply hoare_bind with
      (Q := fun (r : result unit) s tx =>
              match r with
              | Ok _ => s = s1 /\ tx = T1
              | Thrown => tx = T1
              end).
    + apply hoare_console. auto.
    + intros ?. apply hoare_ret. intros s tx [-> ->]. auto.
    + auto.
  - eapply hoare_bind with
      (Q := fun r s tx =>
              match r with
              | Ok q =>
                  q = fst (insert_question (values_of "focs" "FOCS2" item) s1)
                  /\ (s = snd (insert_question
                                 (values_of "focs" "FOCS2" item) s1)
                      /\ tx = T1)
              | Thrown => tx = T1
              end).
    + apply hoare_query; intros s tx [-> ->]; auto.
    + intros q. apply hoare_assume. intros ->.
      eapply hoare_bind.
      * apply (spec_insert_options (question_seq s1) (correctIndex item) T1
                 (elements (mcq_options item)) 0
                 (snd (insert_question (values_of "focs" "FOCS2" item) s1))).
      * intros ?. apply hoare_ret. simpl. intros s tx [-> ->]. auto.
      * simpl. tauto.
    + auto.
Qed.

Lemma spec_import_items_direct T1 (items : list MCQQuestion) :
  forall n s1,
    hoare (fun s tx => s = s1 /\ tx = T1)
          (for_acc items DirectSqlFocs2.import_item n)
          (fun r s tx =>
             tx = T1 /\
             match r with
             | Ok _ => s = add_records "focs" "FOCS2" items s1
             | Thrown => True
             end).
Proof.
  induction items as [|item r IH]; intros n s1; simpl.
  - apply hoare_ret. intros s tx [-> ->]. auto.
  - eapply hoare_bind.
    + apply (spec_import_item_direct item n s1 T1).
    + intros k. eapply hoare_conseq.
      * apply (IH k (add_record "focs" "FOCS2" item s1)).
      * simpl. intros s tx [-> ->]. auto.
      * auto.
    + simpl. tauto.
Qed.

Lemma spec_direct_sql (data : list MCQQuestion) (s0 : Store) :
  hoare (fun s tx => s = s0 /\ tx = None)
        (DirectSqlFocs2.main data)
        (fun r s tx =>
           r = Ok (if (List.length data =? 0)%nat then 1%Z else 0%Z) /\
           (same_tables (snapshot s tx) s0 \/
            (data <> [] /\ tx = None /\
             s = add_records "focs" "FOCS2" data (clear "focs" "FOCS2" s0)))).
Proof.
  unfold DirectSqlFocs2.main.
  set (full := add_records "focs" "FOCS2" data (clear "focs" "FOCS2" s0)).
  destruct (List.length data =? 0)%nat eqn:Hlen.
  { apply Nat.eqb_eq in Hlen. destruct data; [|discriminate].
    apply hoare_try_catch with
      (Q := fun (r : result Z) s tx =>
              match r with
              | Ok k => k = 1%Z /\ same_tables (snapshot s tx) s0
              | Thrown => False
              end).
    - eapply hoare_bind with
        (Q := fun (r : result unit) s tx =>
                match r with
                | Ok _ => same_tables (snapshot s tx) s0
                | Thrown => False
                end).
      + apply hoare_console. intros s tx [-> ->]. apply same_tables_refl.
      + intros ?. apply hoare_ret. auto.
      + auto.
    - intros k s tx [-> H]. auto.
    - intros c []. }
  assert (Hne : data <> []) by (intros ->; discriminate).
  set (Good := fun s (tx : option Store) =>
                 same_tables (snapshot s tx) s0 \/
                 (data <> [] /\ tx = None /\ s = full)).
  apply hoare_try_catch with
    (Q := fun (r : result Z) s tx =>
            match r with
            | Ok k => k = 0%Z /\ Good s tx
            | Thrown => Good s tx
            end).
  + eapply hoare_bind with
      (Q := fun (r : result unit) s tx =>
              match r with
              | Ok _ => s = s0 /\ tx = None
              | Thrown => Good s tx
              end).
    * apply hoare_connect; intros s tx [-> ->];
        [left; apply same_tables_refl|auto].
    * intros ?.
      eapply hoare_bind with (Q := fun (r : result unit) s tx => Good s tx).
      -- apply hoare_try_catch with
           (Q := fun (r : result unit) s tx =>
                   match r with
                   | Ok _ => tx = None /\ s = full
                   | Thrown => same_tables (snapshot s tx) s0
                   end).
         ++ eapply hoare_bind with
              (Q := fun (r : result unit) s tx =>
                      match r with
                      | Ok _ => s = s0 /\ tx = Some s0
                      | Thrown => same_tables (snapshot s tx) s0
                      end).
            ** apply hoare_BEGIN; intros s tx [-> ->];
                   [apply same_tables_refl|auto].
            ** intros ?. eapply hoare_bind with
                 (Q := fun (r : result unit) s tx =>
                         match r with
                         | Ok _ =>
                             s = snd (delete_partition_options
                                        "focs" "FOCS2" s0)
                             /\ tx = Some s0
                         | Thrown => same_tables (snapshot s tx) s0
                         end).
               --- apply hoare_query; intros s tx [-> ->];
                       [apply same_tables_open|auto].
               --- intros ?. eapply hoare_bind with
                     (Q := fun (r : result unit) s tx =>
                             match r with
                             | Ok _ => s = clear "focs" "FOCS2" s0
                                       /\ tx = Some s0
                             | Thrown => same_tables (snapshot s tx) s0
                             end).
                   +++ apply hoare_query; intros s tx [-> ->];
                           [apply same_tables_open|auto].
                   +++ intros ?. eapply hoare_bind with
                         (Q := fun (r : result nat) s tx =>
                                 tx = Some s0 /\
                                 match r with
                                 | Ok _ => s = full
                                 | Thrown => True
                                 end).
                       *** apply hoare_same_run with
                             (m' := for_acc data DirectSqlFocs2.import_item
                                            0%nat).
                           ---- intros c. rewrite for_batches_flat by lia.
                                reflexivity.
                           ---- eapply hoare_conseq.
                                ++++ apply (spec_import_items_direct
                                              (Some s0) data 0%nat
                                              (clear "focs" "FOCS2" s0)).
                                ++++ auto.
                                ++++ auto.
                       *** intros ?. eapply hoare_bind with
                             (Q := fun (r : result unit) s tx =>
                                     match r with
                                     | Ok _ => tx = None /\ s = full
                                     | Thrown => same_tables (snapshot s tx) s0
                                     end).
                           ---- apply hoare_COMMIT; intros s tx [-> ->];
                                    [apply same_tables_open|auto].
                           ---- intros ?. apply hoare_ret. auto.
                           ---- auto.
                       *** intros s tx [-> _]. apply same_tables_open.
                   +++ auto.
               --- auto.
            ** auto.
         ++ intros ? s tx [-> ->]. right. auto.
         ++ eapply hoare_bind with
              (Q := fun (r : result unit) s tx => same_tables (snapshot s tx) s0).
            ** apply hoare_ROLLBACK; [auto|]. intros s tx H. exact H.
            ** intros ?. apply hoare_console. intros s tx H. left. exact H.
            ** intros s tx H. left. exact H.
      -- intros ?. apply hoare_ret. auto.
      -- auto.
    * auto.
  + intros k s tx [-> H]. auto.
  + eapply hoare_bind with (Q := fun (r : result unit) s tx =>
                                   match r with
                                   | Ok _ => Good s tx
                                   | Thrown => False
                                   end).
    * apply hoare_console. auto.
    * intros ?. apply hoare_ret. auto.
    * intros s tx [].
Qed.

Lemma hoare_anything (A : Type) (P : assertion) (m : M A) :
  hoare P m (fun _ _ _ => True).
Proof. unfold hoare. auto. Qed.

(** The transaction of the direct import, when it ends well, is closed. *)
Lemma direct_sql_commits (data : list MCQQuestion) :
  hoare (fun _ _ => True)
        (BEGIN ;;
         query (delete_partition_options "focs" "FOCS2") ;;
         query (delete_questions (in_partition "focs" "FOCS2")) ;;
         for_batches (List.length data) 10 data DirectSqlFocs2.import_item 0 0 ;;
         COMMIT ;;
         ret tt)%script
        (fun r _ tx => match r with Ok _ => tx = None | Thrown => True end).
Proof.
  eapply hoare_bind with (Q := fun _ _ _ => True);
    [apply hoare_anything| |auto]. intros _.
  eapply hoare_bind with (Q := fun _ _ _ => True);
    [apply hoare_anything| |auto]. intros _.
  eapply hoare_bind with (Q := fun _ _ _ => True);
    [apply hoare_anything| |auto]. intros _.
  eapply hoare_bind with (Q := fun _ _ _ => True);
    [apply hoare_anything| |auto]. intros _.
  eapply hoare_bind with
    (Q := fun (r : result unit) (_ : Store) tx =>
            match r with Ok _ => tx = None | Thrown => True end).
  - apply hoare_COMMIT; auto.
  - intros ?. apply hoare_ret. auto.
  - auto.
Qed.

Lemma spends_direct_sql_body (data : list MCQQuestion) :
  spends (BEGIN ;;
          query (delete_partition_options "focs" "FOCS2") ;;
          query (delete_questions (in_partition "focs" "FOCS2")) ;;
          for_batches (List.length data) 10 data DirectSqlFocs2.import_item 0 0 ;;
          COMMIT ;;
          ret tt)%script.
Proof.
  repeat spends_step.
  unfold DirectSqlFocs2.import_item.
  destruct (invalid _); repeat spends_step.
Qed.

(** With at most one rejected statement, the direct import leaves no
    transaction open: its [catch] block has rolled back. *)
Lemma direct_sql_closes (data : list MCQQuestion) (c : Conn) :
  txn c = None -> (rejections c <= 1)%nat ->
  txn (snd (DirectSqlFocs2.main data c)) = None.
Proof.
  intros Htx Hrej. unfold DirectSqlFocs2.main.
  destruct (List.length data =? 0)%nat; [exact Htx|].
  pose proof (direct_sql_commits data) as Hcommit.
  pose proof (spends_direct_sql_body data) as Hspends.
  set (body := (BEGIN ;; _)%script) in *.
  unfold try_catch, bind.
  pose proof (spends_connect c) as Hc.
  assert (Htx1 : txn (snd (connect c)) = txn c).
  { unfold connect, await. destruct (faults c) as [|[|] rest]; reflexivity. }
  destruct (connect c) as [[[]|] c1]; simpl in Hc, Htx1.
  - specialize (Hcommit c1 I). specialize (Hspends c1).
    destruct (body c1) as [[[]|] c2]; simpl in Hcommit, Hspends.
    + simpl. exact Hcommit.
    + destruct (rollback_carried_out c2 ltac:(lia)) as (Hr & Hn & _).
      destruct (ROLLBACK c2) as [r3 c3]. simpl in Hr, Hn. subst r3.
      simpl. exact Hn.
  - simpl. congruence.
Qed.

(** X8: the direct SQL import of FOCS2 is all or nothing, and silent
    about which.  From a connection with no open transaction, whatever
    statements are rejected, [main] never ends with an exception; its
    outcome is 1 on an empty array and 0 otherwise, also when the import
    failed; and the durable tables are either those of before the run
    (the ids drawn by the failed transaction stay drawn) or the store is
    the one with the partition cleared and every record of the array
    imported, with no transaction left open.  If at most one statement is
    rejected, the [catch] block has rolled back and no transaction is
    left open either way. *)
Theorem direct_import_all_or_nothing (data : list MCQQuestion) (c : Conn) :
  txn c = None ->
  let r := DirectSqlFocs2.main data c in
  fst r = Ok (if (List.length data =? 0)%nat then 1%Z else 0%Z) /\
  (same_tables (committed (snd r)) (store c) \/
   (data <> [] /\ txn (snd r) = None /\
    store (snd r)
    = add_records "focs" "FOCS2" data (clear "focs" "FOCS2" (store c)))) /\
  ((rejections c <= 1)%nat -> txn (snd r) = None).
Proof.
  intros Htx r. subst r.
  destruct (spec_direct_sql data (store c) c (conj eq_refl Htx)) as [Hr Hs].
  split; [exact Hr|]. split.
  - destruct Hs as [Hs|Hs]; [left|right; exact Hs].
    unfold committed. unfold snapshot in Hs. exact Hs.
  - intros Hrej. now apply direct_sql_closes.
Qed.

Lemma direct_import_all_or_nothing_example :
  let r := DirectSqlFocs2.main sample_records reject_seventh in
  fst r = Ok (if (List.length sample_records =? 0)%nat then 1%Z else 0%Z) /\
  (same_tables (committed (snd r)) (store reject_seventh) \/
   (sample_records <> [] /\ txn (snd r) = None /\
    store (snd r)
    = add_records "focs" "FOCS2" sample_records
                  (clear "focs" "FOCS2" (store reject_seventh)))) /\
  ((rejections reject_seventh <= 1)%nat -> txn (snd r) = None).
Proof.
  apply (direct_import_all_or_nothing sample_records reject_seventh).
  reflexivity.
Defined.

(** ** Where the imported questions are filed *)

Lemma filed_insert_question m T old v s :
  v_module_id v = m -> v_topic v = Some T ->
  old_or_filed m T old s -> old_or_filed m T old (snd (insert_question v s)).
Proof.
  intros Hm Ht H q Hq. simpl in Hq. apply in_app_iff in Hq.
  destruct Hq as [Hq|[<-|[]]]; [auto|]. right. simpl. auto.
Qed.

Lemma filed_same_questions m T old s s' :
  incl (questions s') (questions s) ->
  old_or_filed m T old s -> old_or_filed m T old s'.
Proof. intros Hi H q Hq. apply H, Hi, Hq. Qed.

Lemma filed_insert_option m T old qid text b s :
  old_or_filed m T old s -> old_or_filed m T old (snd (insert_option qid text b s)).
Proof. apply filed_same_questions. simpl. apply incl_refl. Qed.

Lemma filed_delete_options m T old p s :
  old_or_filed m T old s -> old_or_filed m T old (snd (delete_options p s)).
Proof. apply filed_same_questions. simpl. apply incl_refl. Qed.

Lemma filed_delete_partition_options m T old m' t' s :
  old_or_filed m T old s ->
  old_or_filed m T old (snd (delete_partition_options m' t' s)).
Proof. apply filed_delete_options. Qed.

Lemma filed_delete_questions m T old p s :
  old_or_filed m T old s -> old_or_filed m T old (snd (delete_questions p s)).
Proof.
  apply filed_same_questions. simpl. intros q Hq.
  now apply filter_In in Hq.
Qed.

Ltac filed_stmt :=
  first
    [ apply filed_insert_question; reflexivity
    | apply filed_insert_option
    | apply filed_delete_partition_options
    | apply filed_delete_options
    | apply filed_delete_questions ].

Ltac filed :=
  repeat (first [keeps_step | intros ?; keeps_step];
          try (intros ?; filed_stmt)).

Lemma filed_import_module_js old m t data bs :
  keeps (lift (old_or_filed m (toUpperCase t) old))
        (ImportModuleJs.importQuestions m t data bs).
Proof.
  unfold ImportModuleJs.importQuestions, ImportModuleJs.clear_partition.
  apply keeps_try_catch; [|filed].
  apply keeps_bind; [filed|]. intros _.
  apply keeps_try_catch; [|filed].
  apply keeps_bind; [filed|]. intros _.
  apply keeps_bind; [|filed].
  apply keeps_for_of. intros j. unfold ImportModuleJs.import_batch.
  apply keeps_bind; [filed|]. intros _.
  apply keeps_bind; [|filed].
  apply keeps_for_index. intros i item. unfold ImportModuleJs.import_item.
  destruct (invalid item); filed.
Qed.

Lemma filed_start m T c :
  lift (old_or_filed m T (questions (store c) ++ questions (committed c)))
       (store c) (txn c).
Proof.
  unfold lift, old_or_filed, committed.
  destruct (txn c) as [x|]; (split; [|try intros s'; auto]);
    intros q Hq; left; apply in_app_iff; auto.
Qed.

(** X9: import-module.js files what it imports under the upper-cased
    topic.  For a topic of ASCII characters, whatever the records and
    whichever statements are rejected, every question row of the working
    store and of the durable store after
    [importQuestions(moduleId, topic, ...)] is a row that was there before
    or has module [moduleId] and topic [topic.toUpperCase()].  When that
    upper-cased topic is not one of the topics the cleanup script lists,
    as for the topic [anatomy], every row the import added is one the
    cleanup script counts as invalid. *)
Theorem module_js_files_under_upper_case_topic
        (m t : string) (data : list MCQQuestion) (batchSize : nat) (c : Conn) :
  ascii_only t = true ->
  let old := questions (store c) ++ questions (committed c) in
  let c' := snd (ImportModuleJs.importQuestions m t data batchSize c) in
  old_or_filed m (toUpperCase t) old (store c') /\
  old_or_filed m (toUpperCase t) old (committed c') /\
  (arr_includes CleanupDatabase.validTopics (toUpperCase t) = false ->
   forall q, In q (questions (store c')) \/ In q (questions (committed c')) ->
             In q old \/ CleanupDatabase.is_invalid q = true).
Proof.
  intros _. cbv zeta.
  pose proof (filed_import_module_js _ m t data batchSize c
                (filed_start m (toUpperCase t) c)) as [H1 H2].
  assert (H3 : old_or_filed m (toUpperCase t)
                 (questions (store c) ++ questions (committed c))
                 (committed
                    (snd (ImportModuleJs.importQuestions m t data batchSize c)))).
  { unfold committed.
    destruct (txn (snd (ImportModuleJs.importQuestions m t data batchSize c)));
      [apply H2|exact H1]. }
  split; [exact H1|]. split; [exact H3|].
  intros Hv q Hq.
  assert (Hf : In q (questions (store c) ++ questions (committed c)) \/
               (q_module_id q = m /\ q_topic q = Some (toUpperCase t)))
    by (destruct Hq as [Hq|Hq]; [apply H1|apply H3]; exact Hq).
  destruct Hf as [Hf|[_ Ht]]; [now left|right].
  unfold CleanupDatabase.is_invalid. rewrite Ht. simpl CleanupDatabase.or_empty.
  rewrite Hv. simpl negb. rewrite orb_true_r. reflexivity.
Qed.

Lemma module_js_files_under_upper_case_topic_example :
  let old := questions (store sample_conn)
             ++ questions (committed sample_conn) in
  let c' := snd (ImportModuleJs.importQuestions "anatomy" "anatomy"
                   sample_records 10 sample_conn) in
  old_or_filed "anatomy" (toUpperCase "anatomy") old (store c') /\
  old_or_filed "anatomy" (toUpperCase "anatomy") old (committed c') /\
  (arr_includes CleanupDatabase.validTopics (toUpperCase "anatomy") = false ->
   forall q, In q (questions (store c')) \/ In q (questions (committed c')) ->
             In q old \/ CleanupDatabase.is_invalid q = true).
Proof.
  apply (module_js_files_under_upper_case_topic
           "anatomy" "anatomy" sample_records 10 sample_conn).
  reflexivity.
Defined.

(** ** [main] of import.ts *)

Lemma keeps_for_of_in (A : Type) (I : assertion) (l : list A)
      (body : A -> M unit) :
  (forall x, In x l -> keeps I (body x)) -> keeps I (for_of l body).
Proof.
  intros Hb. unfold keeps. eapply hoare_conseq.
  - apply (hoare_for_of _ I I l body). intros x Hx.
    eapply hoare_conseq; [apply (Hb x Hx)|auto|]. intros []; auto.
  - auto.
  - intros []; auto.
Qed.

Lemma keeps_console_errors (I : assertion) (lines : list string) :
  keeps I (console_errors lines).
Proof. unfold keeps, hoare, console_errors. simpl. auto. Qed.

Lemma frame_process_entry files e m' t' s0 :
  (e_moduleId e, e_topic e) <> (m', t') ->
  keeps (fun s _ => framed m' t' s0 s) (ImportTsMain.process_entry files e).
Proof.
  intros Hk. unfold ImportTsMain.process_entry,
    ImportTsMain.extractQuestionsFromFile.
  apply keeps_bind.
  - apply keeps_bind; [apply keeps_console_errors|intros; apply keeps_ret].
  - intros data. apply frame_processModule, key_differs, Hk.
Qed.

Lemma frame_main_on files table arg m' t' s0 :
  (forall e, selected table arg e -> (e_moduleId e, e_topic e) <> (m', t')) ->
  keeps (fun s _ => framed m' t' s0 s) (ImportTsMain.main_on files table arg).
Proof.
  unfold selected, ImportTsMain.main_on. intros Hsel.
  assert (Hall : (forall e, In e table ->
                            (e_moduleId e, e_topic e) <> (m', t')) ->
                 keeps (fun s (_ : option Store) => framed m' t' s0 s)
                       (for_of table (ImportTsMain.process_entry files))).
  { intros H. apply keeps_for_of_in. intros e He.
    apply frame_process_entry, H, He. }
  destruct (option_map toLowerCase arg) as [sm|]; [|now apply Hall].
  destruct (truthy (Some sm)); [|now apply Hall].
  destruct (find (ImportTsMain.matches sm) table) as [e|].
  - apply frame_process_entry, Hsel. reflexivity.
  - apply keeps_bind; [apply keeps_console_error|intros; apply keeps_ret].
Qed.

(** X10: [main] of import.ts touches only the partitions it selects.
    The argument and the texts of the table are strings of ASCII
    characters.  Without an argument the selected partitions are those of
    the table; with a non-empty argument it is the partition of the first
    matching entry alone, and none when nothing matches.  On a well-formed
    store, at whatever statement the run ends, every other partition keeps
    its question rows and the option rows of each of them. *)
Theorem main_touches_only_selected_partitions
        (files : string -> list string * list MCQQuestion)
        (table : list ModuleEntry)
        (arg : option string) (m' t' : string) (c : Conn) :
  wf (store c) ->
  forallb entry_ascii table = true ->
  (forall a, arg = Some a -> ascii_only a = true) ->
  (forall e, selected table arg e -> (e_moduleId e, e_topic e) <> (m', t')) ->
  let s' := store (snd (ImportTsMain.main_on files table arg c)) in
  partition m' t' s' = partition m' t' (store c) /\
  (forall q, In q (partition m' t' (store c)) ->
             options_of s' (q_id q) = options_of (store c) (q_id q)) /\
  partition_content m' t' s' = partition_content m' t' (store c).
Proof.
  intros Hwf _ _ Hsel.
  pose proof (frame_main_on files table arg m' t' (store c) Hsel c
                (framed_refl m' t' _ Hwf)) as H.
  simpl in H. cbv zeta. split; [|split].
  - apply H.
  - apply H.
  - now apply framed_content.
Qed.

Lemma main_touches_only_selected_partitions_example :
  let c := flaky_conn in
  let s' := store (snd (ImportTsMain.main_on sample_files
                          ImportTsMain.moduleData (Some "FOCS"%string) c)) in
  partition "bcr" "BCR1" s' = partition "bcr" "BCR1" (store c) /\
  (forall q, In q (partition "bcr" "BCR1" (store c)) ->
             options_of s' (q_id q) = options_of (store c) (q_id q)) /\
  partition_content "bcr" "BCR1" s' = partition_content "bcr" "BCR1" (store c).
Proof.
  apply (main_touches_only_selected_partitions sample_files
           ImportTsMain.moduleData (Some "FOCS"%string) "bcr" "BCR1"
           flaky_conn).
  - exact two_partition_store_wf.
  - reflexivity.
  - intros a E. injection E as <-. reflexivity.
  - intros e He. vm_compute in He. injection He as <-. discriminate.
Defined.

(** ** Letter case *)

Lemma lower_of_letter (c : ascii) :
  is_letter c = true -> is_lower (lower_ascii c) = true.
Proof.
  destruct c as [[] [] [] [] [] [] [] []]; vm_compute; auto.
Qed.

Lemma upper_not_lower (c : ascii) : is_lower (upper_ascii c) = false.
Proof.
  destruct c as [[] [] [] [] [] [] [] []]; vm_compute; reflexivity.
Qed.

Lemma toUpperCase_no_lower (s : string) :
  string_exists is_lower (toUpperCase s) = false.
Proof.
  induction s as [|c r IH]; simpl; [reflexivity|].
  now rewrite upper_not_lower, IH.
Qed.

Lemma toLowerCase_has_lower (s : string) :
  string_exists is_letter s = true ->
  string_exists is_lower (toLowerCase s) = true.
Proof.
  induction s as [|c r IH]; simpl; [discriminate|].
  intros H. apply orb_true_iff in H. apply orb_true_iff.
  destruct H as [H|H]; [left; now apply lower_of_letter|right; now apply IH].
Qed.

Lemma upper_case_differs (s u : string) :
  string_exists is_lower s = true -> String.eqb s (toUpperCase u) = false.
Proof.
  intros H. apply String.eqb_neq. intros ->.
  rewrite toUpperCase_no_lower in H. discriminate.
Qed.

(** X11: the topic comparison of [main] of import.ts,
    [m.topic.toLowerCase() === specificModule.toUpperCase()], never holds
    for a topic that contains a letter: an entry is found by its module id
    or by its file name only. *)
Theorem topic_name_never_selects (specificModule : string) (m : ModuleEntry) :
  string_exists is_letter (e_topic m) = true ->
  ImportTsMain.matches specificModule m
  = String.eqb (toLowerCase (e_moduleId m)) specificModule
    || str_includes (toLowerCase (e_filename m)) specificModule.
Proof.
  intros H. unfold ImportTsMain.matches.
  rewrite (upper_case_differs _ specificModule (toLowerCase_has_lower _ H)).
  now rewrite orb_false_r.
Qed.

Lemma topic_name_never_selects_example :
  ImportTsMain.matches "focs2" (mkEntry "focs" "FOCS2" "second.js")
  = String.eqb (toLowerCase "focs") "focs2"
    || str_includes (toLowerCase "second.js") "focs2".
Proof.
  apply (topic_name_never_selects "focs2" (mkEntry "focs" "FOCS2" "second.js")).
  reflexivity.
Defined.

(** ** [importQuestions] of importModuleData.ts: the two counters *)

Lemma counters_import_item m t item counts (c : Conn) :
  exists ok err,
    fst (ImportModuleData.import_item m t item counts c) = Ok (ok, err) /\
    (ok + err = S (fst counts + snd counts))%nat /\
    (fst counts <= ok <= fst counts + passing [item])%nat.
Proof.
  unfold ImportModuleData.import_item, try_catch. rewrite passing_one.
  destruct (invalid item).
  - simpl. exists (fst counts), (S (snd counts)).
    split; [reflexivity|]. lia.
  - unfold bind at 1.
    destruct (query _ c) as [[q|] c1].
    + unfold bind.
      destruct (for_index 0 (elements (mcq_options item)) _ c1)
        as [[[]|] c2]; simpl.
      * exists (S (fst counts)), (snd counts). split; [reflexivity|]. lia.
      * exists (fst counts), (S (snd counts)). split; [reflexivity|]. lia.
    + simpl. exists (fst counts), (S (snd counts)).
      split; [reflexivity|]. lia.
Qed.

Lemma counters_import_items m t (items : list MCQQuestion) :
  forall counts (c : Conn),
    exists ok err,
      fst (for_acc items (ImportModuleData.import_item m t) counts c)
      = Ok (ok, err) /\
      (ok + err = fst counts + snd counts + List.length items)%nat /\
      (fst counts <= ok <= fst counts + passing items)%nat.
Proof.
  induction items as [|item rest IH]; intros counts c; simpl for_acc.
  - exists (fst counts), (snd counts). destruct counts. simpl.
    split; [reflexivity|]. unfold passing. simpl. lia.
  - rewrite passing_cons. unfold bind.
    destruct (counters_import_item m t item counts c)
      as (ok & err & E & Hsum & Hok).
    destruct (ImportModuleData.import_item m t item counts c) as [r c1].
    simpl in E. subst r.
    destruct (IH (ok, err) c1) as (ok' & err' & E' & Hsum' & Hok').
    exists ok', err'. split; [exact E'|]. simpl in *. lia.
Qed.

(** X12: the counters of [importQuestions] of importModuleData.ts.  The
    loop never throws, and whatever statements are rejected every record
    is counted exactly once: [successCount + errorCount] is the length of
    the array.  [successCount], which the function returns, is at most the
    number of records that pass the validation. *)
Theorem import_counters_add_up
        (m t : string) (data : list MCQQuestion) (c : Conn) :
  exists successCount errorCount,
    fst (ImportModuleData.import_loop m t data c)
    = Ok (successCount, errorCount) /\
    fst (ImportModuleData.importQuestions m t data c) = Ok successCount /\
    (successCount + errorCount = List.length data)%nat /\
    (successCount <= passing data)%nat.
Proof.
  unfold ImportModuleData.importQuestions, ImportModuleData.import_loop, bind.
  rewrite for_batches_flat by lia. simpl skipn.
  destruct (counters_import_items m t data (0%nat, 0%nat) c)
    as (ok & err & E & Hsum & Hok).
  destruct (for_acc data (ImportModuleData.import_item m t) (0%nat, 0%nat) c)
    as [r c1].
  simpl in E. subst r. exists ok, err. simpl in *.
  split; [reflexivity|]. split; [reflexivity|]. lia.
Qed.

(** ** importSpecificModule.ts *)

(** X13: importSpecificModule.ts cannot import the anatomy module.  The
    topic argument is upper-cased before it is looked up and the only
    topic of [anatomy] is written [Anatomy]: whatever the second argument,
    the files and the database, [main] reports an invalid topic and leaves
    with exit code 1 before any statement is issued. *)
Theorem anatomy_cannot_be_imported
        (files : string -> option (list string * list MCQQuestion))
        (a0 a1 : string) (rest : list string) (c : Conn) :
  toLowerCase a0 = "anatomy"%string ->
  ImportSpecificModule.main files (a0 :: a1 :: rest) c
  = (Ok 1%Z,
     mkConn (store c) (txn c) (faults c)
            (stderr c ++ ["Invalid topic"; "Available topics"]%string)).
Proof.
  intros H. unfold ImportSpecificModule.main. rewrite H.
  cbn [ImportSpecificModule.mapping_of].
  change (ImportSpecificModule.mapping_of "anatomy")
    with (Some [("Anatomy"%string, mkFileInfo "anatomy.js" "anatomyData")]).
  cbn [own_property].
  rewrite String.eqb_sym, upper_case_differs by reflexivity.
  unfold try_catch, bind, console_error, console_warn, ret. simpl.
  rewrite <- app_assoc. reflexivity.
Qed.

Lemma anatomy_cannot_be_imported_example :
  ImportSpecificModule.main no_index_files
    ["Anatomy"; "Anatomy"]%string sample_conn
  = (Ok 1%Z,
     mkConn (store sample_conn) (txn sample_conn) (faults sample_conn)
            (stderr sample_conn ++ ["Invalid topic"; "Available topics"]%string)).
Proof.
  apply (anatomy_cannot_be_imported no_index_files "Anatomy" "Anatomy" []
           sample_conn).
  reflexivity.
Defined.

(** ** importSpecificModule.ts: records without [correctIndex] *)

Lemma invalid_index_or_null item :
  invalid (index_or_null item) = ImportSpecificModule.invalid_data item.
Proof.
  unfold index_or_null, invalid, ImportSpecificModule.invalid_data.
  destruct (correctIndex item) eqn:E; simpl; rewrite ?E; simpl;
    now rewrite ?orb_false_r.
Qed.

Lemma strict_eq_index_or_null j item :
  strict_eq_index j (correctIndex (index_or_null item))
  = strict_eq_index j (correctIndex item).
Proof.
  unfold index_or_null.
  destruct (correctIndex item) eqn:E; simpl; now rewrite ?E.
Qed.

Lemma option_rows_same_flags qid ci ci' (l : list string) :
  (forall j, strict_eq_index j ci = strict_eq_index j ci') ->
  forall j oseq, option_rows qid ci j oseq l = option_rows qid ci' j oseq l.
Proof.
  intros H. induction l as [|text r IH]; intros j oseq; simpl; [reflexivity|].
  now rewrite H, IH.
Qed.

Lemma nf_import_item_specific m t item n s tx e :
  ImportSpecificModule.import_item m t item n (mkConn s tx [] e)
  = (Ok (n + passing [index_or_null item])%nat,
     mkConn (add_record m t (index_or_null item) s) tx []
            (e ++ skip_warnings "Invalid question data, skipping..."
                                [index_or_null item])).
Proof.
  unfold ImportSpecificModule.import_item, add_record, passing, skip_warnings.
  simpl filter. rewrite invalid_index_or_null.
  destruct (ImportSpecificModule.invalid_data item) eqn:Hv; simpl.
  - unfold bind, console_warn, ret. simpl. now rewrite Nat.add_0_r.
  - pose proof (nf_insert_record (values_of m t item) (correctIndex item)
                  (elements (mcq_options item)) s tx e) as H.
    unfold bind in H. unfold values_of in *.
    unfold try_catch, bind.
    destruct (query _ _) as [[q|] c1] in H |- *; [|discriminate].
    rewrite H. unfold ret. rewrite app_nil_r, Nat.add_1_r.
    f_equal. f_equal.
    unfold index_or_null.
    destruct (is_undefined (correctIndex item)) eqn:Hu; [|reflexivity].
    simpl. unfold add_question, add_options. simpl. f_equal. f_equal.
    apply option_rows_same_flags. intros j.
    destruct (correctIndex item); [reflexivity|reflexivity|discriminate].
Qed.

Lemma nf_for_acc_specific m t items :
  forall n s tx e,
    for_acc items (ImportSpecificModule.import_item m t) n (mkConn s tx [] e)
    = (Ok (n + passing (map index_or_null items))%nat,
       mkConn (add_records m t (map index_or_null items) s) tx []
              (e ++ skip_warnings "Invalid question data, skipping..."
                                  (map index_or_null items))).
Proof.
  induction items as [|item r IH]; intros n s tx e.
  - simpl. unfold ret, passing, skip_warnings. simpl.
    now rewrite app_nil_r, Nat.add_0_r.
  - simpl for_acc. unfold bind. rewrite nf_import_item_specific. rewrite IH.
    simpl map.
    change (index_or_null item :: map index_or_null r)
      with ([index_or_null item] ++ map index_or_null r).
    rewrite skip_warnings_app, add_records_app, app_assoc.
    unfold passing.
    rewrite (filter_app _ [index_or_null item] (map index_or_null r)),
      length_app.
    now rewrite Nat.add_assoc.
Qed.

Lemma nf_clearExistingQuestions_specific m t s tx e :
  ImportSpecificModule.clearExistingQuestions m t (mkConn s tx [] e)
  = (Ok tt, mkConn (clear m t s) tx [] e).
Proof.
  unfold ImportSpecificModule.clearExistingQuestions. unfold bind at 1.
  rewrite nf_query. cbn [fst snd select_questions].
  unfold bind. rewrite nf_delete_loop. rewrite nf_query. reflexivity.
Qed.

(** What the two phases leave for a record without an index. *)
Lemma reseeded_missing_index m t cands item opts s :
  wf s -> In item cands ->
  truthy (question item) = true ->
  mcq_options item = Some opts ->
  correctIndex item = IdxUndefined ->
  stored_unflagged m t item opts
    (add_records m t (map index_or_null cands) (clear m t s)).
Proof.
  intros Hwf Hin Hq Ho Hc.
  set (item' := index_or_null item).
  set (s' := add_records m t (map index_or_null cands) (clear m t s)).
  assert (Hpass : invalid item' = false).
  { unfold item'. rewrite invalid_index_or_null.
    unfold ImportSpecificModule.invalid_data. now rewrite Hq, Ho. }
  assert (Hq' : question item' = question item)
    by (unfold item', index_or_null; now destruct (is_undefined _)).
  assert (Ho' : mcq_options item' = Some opts)
    by (unfold item', index_or_null; now destruct (is_undefined _)).
  pose proof (partition_content_reseed m t (map index_or_null cands) s Hwf)
    as Hcont.
  assert (Hexp : In (expected item') (partition_content m t s')).
  { unfold s'. rewrite Hcont. apply in_map. apply filter_In.
    split; [now apply in_map|]. now rewrite Hpass. }
  unfold partition_content in Hexp. apply in_map_iff in Hexp.
  destruct Hexp as [q [Hcq Hpq]].
  destruct (content_carries _ _ _ Hcq) as (Ht & _ & Htexts & Hflags).
  rewrite Ho' in Htexts. simpl in Htexts.
  assert (Hnone : forall o, In o (options_of s' (q_id q)) ->
                            o_is_correct o = false).
  { intros o Hino. apply In_nth_error in Hino. destruct Hino as [j Hj].
    rewrite (Hflags j o Hj). unfold item'.
    rewrite strict_eq_index_or_null, Hc. reflexivity. }
  exists q. split; [assumption|]. split; [congruence|].
  split; [assumption|]. split; [assumption|].
  unfold count_correct. now rewrite filter_nothing.
Qed.

(** X14: importSpecificModule.ts imports a record that has no
    [correctIndex].  Its validation asks for a question text and an
    options array only, so that in a run of [main] with no statement
    rejected such a record, which import.ts skips, is stored in the
    partition with one option per array element, in order, and none of
    them flagged correct; the exit code is 0. *)
Theorem missing_index_is_imported_unflagged
        (files : string -> option (list string * list MCQQuestion))
        (a0 a1 : string) (rest : list string)
        (topics : list (string * FileInfo)) (info : FileInfo)
        (errors : list string) (data : list MCQQuestion) (item : MCQQuestion) (opts : list string)
        (c : Conn) :
  wf (store c) -> faults c = [] ->
  ImportSpecificModule.mapping_of (toLowerCase a0) = Some topics ->
  own_property (toUpperCase a1) topics = Some info ->
  files (fi_filename info) = Some (errors, data) ->
  In item data ->
  truthy (question item) = true ->
  mcq_options item = Some opts ->
  correctIndex item = IdxUndefined ->
  invalid item = true /\
  fst (ImportSpecificModule.main files (a0 :: a1 :: rest) c) = Ok 0%Z /\
  stored_unflagged (toLowerCase a0) (toUpperCase a1) item opts
    (store (snd (ImportSpecificModule.main files (a0 :: a1 :: rest) c))).
Proof.
  intros Hwf Hf Hm Ht Hfile Hin Hq Ho Hc.
  destruct c as [s tx fs e]. simpl in Hwf, Hf. subst fs.
  split; [unfold invalid; rewrite Hc; apply orb_true_r|].
  assert (Hrun :
    ImportSpecificModule.main files (a0 :: a1 :: rest) (mkConn s tx [] e)
    = (Ok 0%Z,
       mkConn (add_records (toLowerCase a0) (toUpperCase a1)
                 (map index_or_null data)
                 (clear (toLowerCase a0) (toUpperCase a1) s)) tx []
              ((e ++ errors)
               ++ skip_warnings "Invalid question data, skipping..."
                                (map index_or_null data)))).
  { unfold ImportSpecificModule.main. rewrite Hm, Ht, Hfile.
    destruct data as [|d0 dr] eqn:Hd; [contradiction|]. rewrite <- Hd in *.
    assert (Hlen : (List.length data =? 0)%nat = false) by now rewrite Hd.
    unfold try_catch, bind, console_errors. cbn [store txn faults stderr].
    rewrite Hlen.
    rewrite nf_clearExistingQuestions_specific.
    unfold ImportSpecificModule.importQuestions.
    rewrite for_batches_flat by lia. simpl skipn.
    rewrite nf_for_acc_specific. reflexivity. }
  rewrite Hrun. cbn [fst snd store].
  split; [reflexivity|].
  now apply reseeded_missing_index.
Qed.

Lemma missing_index_is_imported_unflagged_example :
  invalid no_index_record = true /\
  fst (ImportSpecificModule.main no_index_files ["FOCS"; "focs2"]%string
         sample_conn) = Ok 0%Z /\
  stored_unflagged (toLowerCase "FOCS") (toUpperCase "focs2") no_index_record
    ["A"; "B"]%string
    (store (snd (ImportSpecificModule.main no_index_files
                   ["FOCS"; "focs2"]%string sample_conn))).
Proof.
  apply (missing_index_is_imported_unflagged no_index_files "FOCS" "focs2" []
           [("FOCS2", mkFileInfo "focs2.js" "focs2Data");
            ("FOCS3", mkFileInfo "focs3.js" "focs3Data");
            ("FOCS4", mkFileInfo "focs4.js" "focs4Data");
            ("FOCS5", mkFileInfo "focs5.js" "focs5Data")]%string
           (mkFileInfo "focs2.js" "focs2Data") []
           [no_index_record; valid_sample_record] no_index_record
           ["A"; "B"]%string sample_conn).
  - exact sample_store_wf.
  - reflexivity.
  - reflexivity.
  - reflexivity.
  - reflexivity.
  - now left.
  - reflexivity.
  - reflexivity.
  - reflexivity.
Defined.

(** ** [main] of import-module.js *)




















(** ** [escapeSql] *)

Lemma literal_value_double_quotes (s : string) :
  literal_value (double_quotes s) = Some s.
Proof.
  induction s as [|c r IH]; [reflexivity|].
  cbn [double_quotes]. destruct (Ascii.eqb c squote) eqn:E.
  - apply Ascii.eqb_eq in E. subst c.
    cbn [literal_value]. rewrite Ascii.eqb_refl. rewrite IH. reflexivity.
  - cbn [literal_value]. rewrite E, IH. reflexivity.
Qed.

(** X17: [escapeSql] loses nothing and lets no quote through.  Placed
    between quotes, the escaped text is the body of one SQL string
    literal and denotes the text that was given: no quote of the text can
    end the literal.  A missing text is escaped like the empty one. *)
Theorem escapeSql_round_trip (s : string) :
  literal_value (escapeSql (Some s)) = Some s /\
  escapeSql None = escapeSql (Some EmptyString).
Proof.
  split; [|reflexivity].
  unfold escapeSql. destruct s as [|c r]; [reflexivity|].
  cbn [truthy]. apply literal_value_double_quotes.
Qed.
